(** * Model-predictive lateral controller (mpc_lateral_controller/src/mpc.cpp)

    A shallow embedding of [MPC::calculateMPC] and of the functions it calls,
    with the properties of the controller's specification stated over it.

    Conventions.
    - [double] values are kept abstract behind the [Scalar] interface: the
      development only uses the operations the C++ code applies to them and
      assumes no law of arithmetic beyond the irreflexivity of [<]; exact
      rationals are one instance ([QScalar]), used to run the model on
      concrete inputs.
    - Eigen matrices are a pair of dimensions and a coefficient function.
    - Member state of the [MPC] object is threaded explicitly through a small
      state-and-error monad; [return fail_warn_throttle(..)] is the [Fail]
      result, an escaping C++ exception is [Raise].
    - What the code only writes out (the throttled warnings, the dumps to
      [std::cerr], the debug topic) is not part of the model. *)

From Stdlib Require Import List Bool Arith ZArith QArith Qabs Qround Lia String.
Import ListNotations.

Close Scope Q_scope.
Open Scope nat_scope.

(** ** Scalars *)

Class Scalar (D : Type) : Type := {
  of_Q : Q -> D;                (* floating literals and int-to-double casts *)
  dadd : D -> D -> D;
  dsub : D -> D -> D;
  dmul : D -> D -> D;
  ddiv : D -> D -> D;
  dneg : D -> D;
  dfabs : D -> D;               (* std::fabs *)
  dpow : D -> D -> D;           (* std::pow *)
  dlt : D -> D -> bool;         (* operator< *)
  disnan : D -> bool;           (* std::isnan *)
  to_float : D -> D             (* static_cast<float>, widened again *)
}.

(** The only order law the proofs rely on; it holds for IEEE comparison
    (also on NaN) and for the rationals. *)
Class ScalarOrder (D : Type) `{Scalar D} : Prop := {
  dlt_irrefl : forall x : D, dlt x x = false
}.

Declare Scope double_scope.
Delimit Scope double_scope with D.
Infix "+" := dadd : double_scope.
Infix "-" := dsub : double_scope.
Infix "*" := dmul : double_scope.
Infix "/" := ddiv : double_scope.
Notation "- x" := (dneg x) : double_scope.
Infix "<?" := dlt : double_scope.
Notation "x >? y" := (dlt y x) (only parsing) : double_scope.

Definition of_Z {D} `{Scalar D} (z : Z) : D := of_Q (inject_Z z).

(** [std::max(a, b)] is [(a < b) ? b : a]. *)
Definition std_max {D} `{Scalar D} (a b : D) : D :=
  if (a <? b)%D then b else a.

(** [std::min(a, b)] is [(b < a) ? b : a]. *)
Definition std_min {D} `{Scalar D} (a b : D) : D :=
  if (b <? a)%D then b else a.

(** [std::clamp(v, lo, hi)] is [(v < lo) ? lo : (hi < v) ? hi : v]. *)
Definition std_clamp {D} `{Scalar D} (v lo hi : D) : D :=
  if (v <? lo)%D then lo else if (hi <? v)%D then hi else v.

(** [x] lies in the closed interval [[lo, hi]]: it is neither below [lo]
    nor above [hi]. *)
Definition within {D} `{Scalar D} (lo hi x : D) : Prop :=
  (x <? lo)%D = false /\ (hi <? x)%D = false.

(** Exact rational arithmetic as an instance of the interface. *)
Definition Qltb (x y : Q) : bool := negb (Qle_bool y x).

#[export] Instance QScalar : Scalar Q := {|
  of_Q := fun q => q;
  dadd := Qplus;
  dsub := Qminus;
  dmul := Qmult;
  ddiv := Qdiv;
  dneg := Qopp;
  dfabs := Qabs;
  dpow := fun x e => Qpower x (Qfloor e);
  dlt := Qltb;
  disnan := fun _ => false;
  to_float := fun q => q
|}.

(** ** Matrices (Eigen::MatrixXd, Eigen::VectorXd) *)

Section Matrices.
Context {D : Type} `{Scalar D}.

Record Matrix : Type := mkMatrix {
  rows : nat;
  cols : nat;
  coeff : nat -> nat -> D
}.

(** [MatrixXd::Zero(r, c)] *)
Definition Zero (r c : nat) : Matrix :=
  mkMatrix r c (fun _ _ => of_Q 0).

(** [M.block(r, c, h, w)] read as a value. *)
Definition block (M : Matrix) (r c h w : nat) : Matrix :=
  mkMatrix h w (fun i j => coeff M (r + i) (c + j)).

(** [M.block(r, c, h, w) = B] *)
Definition set_block (M : Matrix) (r c h w : nat) (B : Matrix) : Matrix :=
  mkMatrix (rows M) (cols M)
    (fun i j =>
       if (r <=? i) && (i <? r + h) && (c <=? j) && (j <? c + w)
       then coeff B (i - r) (j - c)
       else coeff M i j).

(** [M(i, j) = v] *)
Definition set_coeff (M : Matrix) (i j : nat) (v : D) : Matrix :=
  mkMatrix (rows M) (cols M)
    (fun a b => if (a =? i) && (b =? j) then v else coeff M a b).

(** Sum of [g 0 .. g (n-1)], accumulated from the left. *)
Fixpoint dsum (n : nat) (g : nat -> D) : D :=
  match n with
  | O => of_Q 0
  | S k => (dsum k g + g k)%D
  end.

(** [A * B]; Eigen requires the columns of [A] to be as many as the rows of
    [B], the sum runs over the latter. *)
Definition mmul (A B : Matrix) : Matrix :=
  mkMatrix (rows A) (cols B)
    (fun i j => dsum (rows B) (fun k => (coeff A i k * coeff B k j)%D)).

(** [A + B] *)
Definition madd (A B : Matrix) : Matrix :=
  mkMatrix (rows A) (cols A) (fun i j => (coeff A i j + coeff B i j)%D).

(** [s * A] *)
Definition mscale (s : D) (A : Matrix) : Matrix :=
  mkMatrix (rows A) (cols A) (fun i j => (s * coeff A i j)%D).

(** [A.transpose()] *)
Definition transpose (A : Matrix) : Matrix :=
  mkMatrix (cols A) (rows A) (fun i j => coeff A j i).

(** [M.block(r, c, h, w) += B] *)
Definition add_block (M : Matrix) (r c h w : nat) (B : Matrix) : Matrix :=
  set_block M r c h w (madd (block M r c h w) B).

(** [M(i, j) += v] *)
Definition add_coeff (M : Matrix) (i j : nat) (v : D) : Matrix :=
  set_coeff M i j (coeff M i j + v)%D.

(** A matrix given by its rows, as the comma initialiser
    [(MatrixXd(r, c) << a, b, ...).finished()] fills it. *)
Definition of_rows (r c : nat) (l : list (list D)) : Matrix :=
  mkMatrix r c (fun i j => nth j (nth i l []) (of_Q 0)).

(** A column vector filled by [v << a, b, ...]. *)
Definition of_col (r : nat) (l : list D) : Matrix :=
  mkMatrix r 1 (fun i _ => nth i l (of_Q 0)).

(** [M.array().isNaN().any()] *)
Definition any_isnan (M : Matrix) : bool :=
  existsb (fun i => existsb (fun j => disnan (coeff M i j)) (seq 0 (cols M)))
          (seq 0 (rows M)).

(** Two matrices have the same shape and the same coefficients. *)
Definition meq (A B : Matrix) : Prop :=
  rows A = rows B /\ cols A = cols B /\
  forall i j, i < rows A -> j < cols A -> coeff A i j = coeff B i j.

(** The coefficients of a matrix as a list of rows (used to run the model). *)
Definition to_rows (M : Matrix) : list (list D) :=
  map (fun i => map (fun j => coeff M i j) (seq 0 (cols M))) (seq 0 (rows M)).

End Matrices.

Arguments Matrix D : clear implicits.

(** ** The matrices written out in [executeOptimization]

    The seven [Eigen::MatrixXd] literals of the function, row by row. *)

Module QPLiterals.
Local Open Scope Q_scope.

(** [H], 50 x 50 *)
Definition H : list (list Q) :=
  [ [2.40456; -0.0701004; 0.00835596; 0.00376653; 0.00416329; 0.00476199;
     0.00566342; 0.00681013; 0.00800993; 0.00918759; 0.0103419; 0.0114735;
     0.012585; 0.0136832; 0.0147798; 0.0158851; 0.0169949; 0.0181167;
     0.0192294; 0.0203016; 0.0213104; 0.0222229; 0.0230208; 0.0236764;
     0.0241627; 0.0244562; 0.0245311; 0.024381; 0.0240317; 0.023515;
     0.0228526; 0.0220592; 0.0211448; 0.0201169; 0.0189824; 0.0177483;
     0.016423; 0.0150168; 0.0135421; 0.0120153; 0.0104558; 0.0088874;
     0.00733827; 0.00584136; 0.00443384; 0.00315622; 0.00205059; 0.00115742;
     0.000509977; 0.000125592];
    [-0.0701004; 1.11298; -0.0552805; 0.00874947; 0.00430868; 0.00492837;
     0.0058614; 0.00704832; 0.00829024; 0.00950934; 0.0107044; 0.0118759;
     0.0130269; 0.014164; 0.0152998; 0.0164446; 0.0175941; 0.0187562;
     0.0199091; 0.0210201; 0.0220656; 0.0230115; 0.023839; 0.0245191;
     0.025024; 0.0253293; 0.0254083; 0.0252543; 0.0248939; 0.02436;
     0.0236752; 0.0228547; 0.0219087; 0.020845; 0.0196706; 0.018393;
     0.0170208; 0.0155645; 0.0140371; 0.0124554; 0.0108398; 0.00921461;
     0.00760922; 0.00605773; 0.00459867; 0.00327405; 0.00212753; 0.00120111;
     0.000529376; 0.000130406];
    [0.00835596; -0.0552805; 1.11334; -0.0548076; 0.00938311; 0.00518349;
     0.00616493; 0.00741345; 0.0087199; 0.0100024; 0.0112598; 0.0124925;
     0.0137037; 0.0149005; 0.0160959; 0.017301; 0.0185112; 0.0197348;
     0.0209488; 0.022119; 0.0232203; 0.024217; 0.0250891; 0.0258063;
     0.0263393; 0.0266622; 0.0267469; 0.0265864; 0.0262087; 0.0256483;
     0.024929; 0.0240666; 0.023072; 0.0219533; 0.020718; 0.0193738;
     0.0179298; 0.016397; 0.0147892; 0.0131239; 0.0114226; 0.00971106;
     0.00802008; 0.00638561; 0.00484827; 0.00345233; 0.00224383; 0.00126708;
     0.000558621; 0.000137654];
    [0.00376653; 0.00874947; -0.0548076; 1.11394; -0.0540364; 0.0104231;
     0.00662668; 0.00796888; 0.00937343; 0.0107524; 0.0121044; 0.0134301;
     0.0147327; 0.0160201; 0.0173061; 0.0186026; 0.0199048; 0.0212216;
     0.0225282; 0.0237879; 0.0249737; 0.0260471; 0.0269868; 0.02776;
     0.028335; 0.0286842; 0.0287774; 0.0286066; 0.0282022; 0.0276011;
     0.0268289; 0.0259027; 0.0248341; 0.0236318; 0.0223038; 0.0208584;
     0.0193054; 0.0176565; 0.0159266; 0.0141347; 0.0123036; 0.0104612;
     0.00864067; 0.00688068; 0.00522496; 0.00372124; 0.00241914; 0.00136645;
     0.000602627; 0.000148548];
    [0.00416329; 0.00430868; 0.00938311; -0.0540364; 1.11491; -0.0527481;
     0.0121771; 0.00880958; 0.0103626; 0.0118874; 0.0133826; 0.0148488;
     0.0162898; 0.0177139; 0.0191368; 0.0205715; 0.0220127; 0.0234702;
     0.0249166; 0.0263114; 0.0276246; 0.0288138; 0.0298552; 0.0307126;
     0.0313509; 0.0317395; 0.0318448; 0.0316582; 0.0312129; 0.03055;
     0.0296976; 0.0286747; 0.0274939; 0.026165; 0.0246967; 0.0230982;
     0.0213803; 0.0195561; 0.0176418; 0.0156585; 0.0136316; 0.0115917;
     0.00957567; 0.00762634; 0.00579217; 0.00412601; 0.0026829; 0.00151587;
     0.000668762; 0.000164911];
    [0.00476199; 0.00492837; 0.00518349; 0.0104231; -0.0527481; 1.11657;
     -0.0505271; 0.0149294; 0.0118548; 0.0135997; 0.0153108; 0.0169889;
     0.0186383; 0.0202687; 0.0218979; 0.0235408; 0.0251913; 0.0268608;
     0.0285178; 0.0301159; 0.031621; 0.0329843; 0.0341787; 0.0351626;
     0.035896; 0.0363435; 0.0364668; 0.0362558; 0.0357487; 0.0349922;
     0.0340185; 0.0328494; 0.0314993; 0.0299794; 0.0282995; 0.0264702;
     0.0245038; 0.0224152; 0.0202231; 0.0179515; 0.0156295; 0.0132923;
     0.010982; 0.00874769; 0.00664496; 0.00473444; 0.00307927; 0.00174033;
     0.000768069; 0.00018947];
    [0.00566342; 0.0058614; 0.00616493; 0.00662668; 0.0121771; -0.0505271;
     1.1195; -0.0469199; 0.0189527; 0.0161772; 0.0182132; 0.0202103;
     0.0221734; 0.0241141; 0.0260536; 0.0280097; 0.0299751; 0.0319633;
     0.033937; 0.0358409; 0.0376343; 0.0392594; 0.0406836; 0.0418576;
     0.0427335; 0.0432693; 0.0434191; 0.0431711; 0.0425704; 0.0416728;
     0.0405164; 0.0391271; 0.037522; 0.0357144; 0.033716; 0.0315393;
     0.0291989; 0.0267126; 0.0241026; 0.0213975; 0.0186318; 0.0158475;
     0.0130948; 0.0104322; 0.00792588; 0.00564818; 0.00367441; 0.00207729;
     0.000917103; 0.000226316];
    [0.00681013; 0.00704832; 0.00741345; 0.00796888; 0.00880958; 0.0149294;
     -0.0469199; 1.15052; -0.0676057; 0.0243082; 0.0219063; 0.0243092;
     0.0266716; 0.0290075; 0.0313421; 0.033697; 0.0360635; 0.0384577;
     0.0408349; 0.0431284; 0.0452894; 0.0472481; 0.0489655; 0.050382;
     0.05144; 0.0520887; 0.0522731; 0.0519786; 0.0512594; 0.0501825;
     0.0487941; 0.0471248; 0.0451955; 0.0430219; 0.0406182; 0.0379994;
     0.035183; 0.0321903; 0.0290481; 0.0257907; 0.0224598; 0.0191059;
     0.0157894; 0.0125808; 0.00955997; 0.00681406; 0.00443396; 0.00250744;
     0.00110742; 0.000273385];
    [0.00800993; 0.00829024; 0.0087199; 0.00937343; 0.0103626; 0.0118548;
     0.0189527; -0.0676057; 1.23485; -0.112971; 0.0306246; 0.0286016;
     0.0313828; 0.0341332; 0.0368827; 0.0396564; 0.0424442; 0.0452652;
     0.0480667; 0.0507701; 0.0533181; 0.0556286; 0.0576553; 0.0593282;
     0.0605793; 0.0613489; 0.0615717; 0.0612305; 0.0603891; 0.0591263;
     0.057496; 0.0555347; 0.0532665; 0.0507101; 0.0478821; 0.0447999;
     0.0414843; 0.0379601; 0.0342589; 0.0304212; 0.0264961; 0.0225428;
     0.0186328; 0.0148492; 0.0112861; 0.00804635; 0.00523737; 0.00296285;
     0.00130914; 0.000323329];
    [0.00918759; 0.00950934; 0.0100024; 0.0107524; 0.0118874; 0.0135997;
     0.0161772; 0.0243082; -0.112971; 1.36092; -0.172375; 0.0376714;
     0.0360137; 0.0391728; 0.0423313; 0.0455183; 0.0487223; 0.0519649;
     0.0551859; 0.0582951; 0.0612265; 0.0638859; 0.0662202; 0.0681487;
     0.0695933; 0.070485; 0.0707489; 0.070365; 0.0694062; 0.0679629;
     0.066097; 0.0638502; 0.0612501; 0.058318; 0.0550729; 0.0515349;
     0.0477274; 0.0436792; 0.0394264; 0.0350155; 0.0305027; 0.0259565;
     0.0214587; 0.0171051; 0.013004; 0.00927395; 0.00603857; 0.0034176;
     0.00151089; 0.000373363];
    [0.0103419; 0.0107044; 0.0112598; 0.0121044; 0.0133826; 0.0153108;
     0.0182132; 0.0219063; 0.0306246; -0.172375; 1.51782; -0.245862;
     0.045412; 0.0441221; 0.0476839; 0.0512787; 0.0548935; 0.0585527;
     0.0621886; 0.0656994; 0.069011; 0.0720169; 0.0746572; 0.0768408;
     0.0784796; 0.0794955; 0.0798038; 0.0793815; 0.0783108; 0.0766931;
     0.0745983; 0.0720729; 0.0691483; 0.0658481; 0.0621937; 0.0582074;
     0.0539158; 0.0493512; 0.0445541; 0.039577; 0.0344833; 0.0293502;
     0.0242702; 0.0193513; 0.0147161; 0.0104987; 0.0068389; 0.00387255;
     0.0017131; 0.000423607];
    [0.0114735; 0.0118759; 0.0124925; 0.0134301; 0.0148488; 0.0169889;
     0.0202103; 0.0243092; 0.0286016; 0.0376714; -0.245862; 1.70552;
     -0.333462; 0.0538355; 0.0529438; 0.0569413; 0.0609622; 0.0650338;
     0.0690804; 0.0729897; 0.0766788; 0.0800295; 0.0829751; 0.0854143;
     0.0872488; 0.0883916; 0.0887481; 0.0882924; 0.0871155; 0.0853299;
     0.083013; 0.0802164; 0.0769745; 0.0733137; 0.0692574; 0.0648304;
     0.060062; 0.0549879; 0.0496532; 0.0441162; 0.0384472; 0.0327323;
     0.0270744; 0.0215938; 0.0164272; 0.0117241; 0.00764089; 0.00432925;
     0.00191653; 0.000474262];
    [0.012585; 0.0130269; 0.0137037; 0.0147327; 0.0162898; 0.0186383;
     0.0221734; 0.0266716; 0.0313828; 0.0360137; 0.045412; -0.333462; 1.924;
     -0.435171; 0.0629768; 0.062522; 0.0669457; 0.0714266; 0.0758818;
     0.0801876; 0.0842533; 0.0879487; 0.0912004; 0.0938969; 0.0959298;
     0.0972032; 0.0976125; 0.097129; 0.095852; 0.093905; 0.0913727;
     0.0883116; 0.0847593; 0.0807445; 0.0762927; 0.0714311; 0.0661916;
     0.0606134; 0.054746; 0.0486531; 0.0424125; 0.0361186; 0.0298847;
     0.0238436; 0.0181459; 0.0129568; 0.00844888; 0.00479027; 0.00212237;
     0.000525641];
    [0.0136832; 0.014164; 0.0149005; 0.0160201; 0.0177139; 0.0202687;
     0.0241141; 0.0290075; 0.0341332; 0.0391728; 0.0441221; 0.0538355;
     -0.435171; 2.17329; -0.550928; 0.0729055; 0.0728801; 0.0777703;
     0.0826346; 0.0873382; 0.0917822; 0.0958249; 0.0993861; 0.102344;
     0.10458; 0.105989; 0.106457; 0.105951; 0.10458; 0.102478; 0.099736;
     0.0964159; 0.0925584; 0.0881943; 0.0833512; 0.0780585; 0.0723507;
     0.0662704; 0.0598714; 0.0532232; 0.0464104; 0.0395359; 0.0327239;
     0.0261192; 0.0198866; 0.0142071; 0.00926991; 0.00525974; 0.00233253;
     0.000578235];
    [0.0147798; 0.0152998; 0.0160959; 0.0173061; 0.0191368; 0.0218979;
     0.0260536; 0.0313421; 0.0368827; 0.0423313; 0.0476839; 0.0529438;
     0.0629768; -0.550928; 2.45348; -0.680623; 0.0836818; 0.0841347;
     0.0894134; 0.0945209; 0.0993499; 0.103747; 0.107625; 0.110851; 0.113298;
     0.11485; 0.115384; 0.114862; 0.113403; 0.11115; 0.108203; 0.104627;
     0.100466; 0.0957534; 0.0905189; 0.0847938; 0.0786154; 0.0720293;
     0.0650938; 0.057884; 0.0504916; 0.0430282; 0.0356286; 0.0284502;
     0.0216723; 0.0154917; 0.0101151; 0.00574413; 0.00254997; 0.000632796];
    [0.0158851; 0.0164446; 0.017301; 0.0186026; 0.0205715; 0.0235408;
     0.0280097; 0.033697; 0.0396564; 0.0455183; 0.0512787; 0.0569413;
     0.062522; 0.0729055; -0.680623; 2.77039; -0.829685; 0.0954303;
     0.0962819; 0.101804; 0.107028; 0.111791; 0.115997; 0.119503; 0.12217;
     0.123875; 0.124483; 0.123953; 0.12241; 0.120011; 0.116861; 0.11303;
     0.108565; 0.103503; 0.0978734; 0.0917107; 0.0850546; 0.0779541;
     0.0704717; 0.0626883; 0.0547029; 0.0466359; 0.0386329; 0.0308643;
     0.0235243; 0.0168264; 0.010995; 0.00624958; 0.0027775; 0.000690051];
    [0.0169949; 0.0175941; 0.0185112; 0.0199048; 0.0220127; 0.0251913;
     0.0299751; 0.0360635; 0.0424442; 0.0487223; 0.0548935; 0.0609622;
     0.0669457; 0.0728801; 0.0836818; -0.829685; 3.13869; -1.00693; 0.108069;
     0.109164; 0.114795; 0.119934; 0.124479; 0.128277; 0.131176; 0.133045;
     0.133735; 0.133205; 0.131587; 0.129047; 0.125698; 0.121615; 0.116848;
     0.111435; 0.105409; 0.0988048; 0.0916654; 0.0840431; 0.0760046;
     0.0676367; 0.0590454; 0.0503606; 0.0417388; 0.0333638; 0.025445;
     0.0182132; 0.0119112; 0.00677729; 0.00301578; 0.000750195];
    [0.0181167; 0.0187562; 0.0197348; 0.0212216; 0.0234702; 0.0268608;
     0.0319633; 0.0384577; 0.0452652; 0.0519649; 0.0585527; 0.0650338;
     0.0714266; 0.0777703; 0.0841347; 0.0954303; -1.00693; 3.55602; -1.20139;
     0.121504; 0.122705; 0.128235; 0.133135; 0.137238; 0.140384; 0.142429;
     0.143215; 0.142694; 0.141008; 0.138332; 0.134788; 0.130456; 0.125386;
     0.11962; 0.113193; 0.10614; 0.0985087; 0.0903531; 0.0817449; 0.0727765;
     0.0635618; 0.0542396; 0.044978; 0.0359745; 0.0274547; 0.019667;
     0.0128739; 0.00733329; 0.00326765; 0.000813965];
    [0.0192294; 0.0199091; 0.0209488; 0.0225282; 0.0249166; 0.0285178;
     0.033937; 0.0408349; 0.0480667; 0.0551859; 0.0621886; 0.0690804;
     0.0758818; 0.0826346; 0.0894134; 0.0962819; 0.108069; -1.20139; 4.05652;
     -1.45708; 0.135469; 0.13655; 0.141815; 0.146237; 0.149642; 0.151876;
     0.152769; 0.15227; 0.150527; 0.147727; 0.143998; 0.139423; 0.134057;
     0.127944; 0.121117; 0.113619; 0.105494; 0.0968027; 0.0876202; 0.0780448;
     0.0681978; 0.0582276; 0.0483139; 0.0386682; 0.0295324; 0.0211736;
     0.0138742; 0.00791281; 0.00353114; 0.000880915];
    [0.0203016; 0.0210201; 0.022119; 0.0237879; 0.0263114; 0.0301159;
     0.0358409; 0.0431284; 0.0507701; 0.0582951; 0.0656994; 0.0729897;
     0.0801876; 0.0873382; 0.0945209; 0.101804; 0.109164; 0.121504; -1.45708;
     4.6509; -1.74284; 0.149512; 0.150296; 0.155043; 0.158716; 0.161151;
     0.162165; 0.161703; 0.15992; 0.157012; 0.153113; 0.148313; 0.142668;
     0.136222; 0.129013; 0.121081; 0.112476; 0.10326; 0.0935125; 0.0833378;
     0.0728642; 0.0622496; 0.0516852; 0.0413967; 0.0316423; 0.0227078;
     0.0148961; 0.00850711; 0.00380254; 0.00095017];
    [0.0213104; 0.0220656; 0.0232203; 0.0249737; 0.0276246; 0.031621;
     0.0376343; 0.0452894; 0.0533181; 0.0612265; 0.069011; 0.0766788;
     0.0842533; 0.0917822; 0.0993499; 0.107028; 0.114795; 0.122705; 0.135469;
     -1.74284; 5.34257; -2.09315; 0.163258; 0.163483; 0.167432; 0.170079;
     0.17123; 0.170822; 0.169018; 0.166024; 0.16198; 0.156978; 0.151078;
     0.144323; 0.136754; 0.128413; 0.11935; 0.10963; 0.0993377; 0.0885816;
     0.0774977; 0.0662526; 0.0550491; 0.0441264; 0.0337594; 0.0242525;
     0.0159289; 0.00911037; 0.00407943; 0.00102117];
    [0.0222229; 0.0230115; 0.024217; 0.0260471; 0.0288138; 0.0329843;
     0.0392594; 0.0472481; 0.0556286; 0.0638859; 0.0720169; 0.0800295;
     0.0879487; 0.0958249; 0.103747; 0.111791; 0.119934; 0.128235; 0.13655;
     0.149512; -2.09315; 6.14394; -2.48811; 0.176156; 0.175534; 0.178403;
     0.179705; 0.179373; 0.177575; 0.174524; 0.170365; 0.165195; 0.159073;
     0.152046; 0.144153; 0.135438; 0.125954; 0.115767; 0.104964; 0.0936605;
     0.0819982; 0.0701524; 0.0583365; 0.0468033; 0.0358432; 0.025779;
     0.0169544; 0.00971254; 0.00435752; 0.00109288];
    [0.0230208; 0.023839; 0.0250891; 0.0269868; 0.0298552; 0.0341787;
     0.0406836; 0.0489655; 0.0576553; 0.0662202; 0.0746572; 0.0829751;
     0.0912004; 0.0993861; 0.107625; 0.115997; 0.124479; 0.133135; 0.141815;
     0.150296; 0.163258; -2.48811; 7.04484; -2.93838; 0.18772; 0.185969;
     0.18744; 0.187208; 0.185445; 0.18237; 0.178134; 0.172834; 0.166532;
     0.159275; 0.151103; 0.142059; 0.132198; 0.121588; 0.11032; 0.0985115;
     0.0863119; 0.0739038; 0.061511; 0.0493987; 0.0378725; 0.0272728;
     0.0179634; 0.0103087; 0.00463478; 0.00116485];
    [0.0236764; 0.0245191; 0.0258063; 0.02776; 0.0307126; 0.0351626;
     0.0418576; 0.050382; 0.0593282; 0.0681487; 0.0768408; 0.0854143;
     0.0938969; 0.102344; 0.110851; 0.119503; 0.128277; 0.137238; 0.146237;
     0.155043; 0.163483; 0.176156; -2.93838; 8.06164; -3.45104; 0.19739;
     0.194197; 0.194093; 0.192399; 0.189341; 0.185071; 0.17969; 0.173259;
     0.165825; 0.157428; 0.148113; 0.137933; 0.126959; 0.115283; 0.103027;
     0.0903458; 0.0774286; 0.0645084; 0.0518621; 0.0398093; 0.0287073;
     0.0189387; 0.0108894; 0.00490711; 0.00123609];
    [0.0241627; 0.025024; 0.0263393; 0.028335; 0.0313509; 0.035896;
     0.0427335; 0.05144; 0.0605793; 0.0695933; 0.0784796; 0.0872488;
     0.0959298; 0.10458; 0.113298; 0.12217; 0.131176; 0.140384; 0.149642;
     0.158716; 0.167432; 0.175534; 0.18772; -3.45104; 9.19385; -4.02047;
     0.204583; 0.199785; 0.1982; 0.195206; 0.190955; 0.185549; 0.17905;
     0.171504; 0.16295; 0.153431; 0.143004; 0.131737; 0.119726; 0.107095;
     0.0940028; 0.0806444; 0.0672611; 0.0541398; 0.0416132; 0.0300537;
     0.0198621; 0.0114444; 0.00517003; 0.0013055];
    [0.0244562; 0.0253293; 0.0266622; 0.0286842; 0.0317395; 0.0363435;
     0.0432693; 0.0520887; 0.0613489; 0.070485; 0.0794955; 0.0883916;
     0.0972032; 0.105989; 0.11485; 0.123875; 0.133045; 0.142429; 0.151876;
     0.161151; 0.170079; 0.178403; 0.185969; 0.19739; -4.02047; 10.436;
     -4.64839; 0.208904; 0.202623; 0.199745; 0.195574; 0.190208; 0.183711;
     0.176126; 0.167493; 0.157853; 0.147261; 0.135787; 0.123527; 0.110607;
     0.0971881; 0.0834709; 0.0697027; 0.0561793; 0.0432443; 0.0312839;
     0.0207151; 0.0119632; 0.00541901; 0.00137198];
    [0.0245311; 0.0254083; 0.0267469; 0.0287774; 0.0318448; 0.0364668;
     0.0434191; 0.0522731; 0.0615717; 0.0707489; 0.0798038; 0.0887481;
     0.0976125; 0.106457; 0.115384; 0.124483; 0.133735; 0.143215; 0.152769;
     0.162165; 0.17123; 0.179705; 0.18744; 0.194197; 0.204583; -4.64839;
     11.7878; -5.33433; 0.210254; 0.202702; 0.198678; 0.193428; 0.187013;
     0.179476; 0.170853; 0.161185; 0.150527; 0.138946; 0.126538; 0.113432;
     0.0997879; 0.085811; 0.071753; 0.0579164; 0.0446536; 0.0323626;
     0.0214748; 0.0124328; 0.00564823; 0.00143408];
    [0.024381; 0.0252543; 0.0265864; 0.0286066; 0.0316582; 0.0362558;
     0.0431711; 0.0519786; 0.0612305; 0.070365; 0.0793815; 0.0882924;
     0.097129; 0.105951; 0.114862; 0.123953; 0.133205; 0.142694; 0.15227;
     0.161703; 0.170822; 0.179373; 0.187208; 0.194093; 0.199785; 0.208904;
     -5.33433; 13.1997; -6.03149; 0.208804; 0.200149; 0.195095; 0.188848;
     0.18145; 0.172934; 0.16334; 0.152719; 0.141139; 0.128693; 0.115509;
     0.10175; 0.0876202; 0.0733749; 0.0593213; 0.0458186; 0.0332737;
     0.0221305; 0.0128472; 0.005855; 0.00149112];
    [0.0240317; 0.0248939; 0.0262087; 0.0282022; 0.0312129; 0.0357487;
     0.0425704; 0.0512594; 0.0603891; 0.0694062; 0.0783108; 0.0871155;
     0.095852; 0.10458; 0.113403; 0.12241; 0.131587; 0.141008; 0.150527;
     0.15992; 0.169018; 0.177575; 0.185445; 0.192399; 0.1982; 0.202623;
     0.210254; -6.03149; 14.5935; -6.70852; 0.204957; 0.195328; 0.189334;
     0.182163; 0.173847; 0.164422; 0.153936; 0.142457; 0.130075; 0.116915;
     0.103141; 0.0889556; 0.0746164; 0.0604329; 0.046769; 0.0340389;
     0.0226967; 0.0132147; 0.00604309; 0.00154406];
    [0.023515; 0.02436; 0.0256483; 0.0276011; 0.03055; 0.0349922; 0.0416728;
     0.0501825; 0.0591263; 0.0679629; 0.0766931; 0.0853299; 0.093905;
     0.102478; 0.11115; 0.120011; 0.129047; 0.138332; 0.147727; 0.157012;
     0.166024; 0.174524; 0.18237; 0.189341; 0.195206; 0.199745; 0.202702;
     0.208804; -6.70852; 15.9565; -7.38212; 0.199136; 0.188627; 0.181769;
     0.173739; 0.164572; 0.154313; 0.143025; 0.130797; 0.117753; 0.104051;
     0.089896; 0.0755436; 0.0613048; 0.0475465; 0.0346885; 0.0231936;
     0.0135471; 0.00621787; 0.00159427];
    [0.0228526; 0.0236752; 0.024929; 0.0268289; 0.0296976; 0.0340185;
     0.0405164; 0.0487941; 0.057496; 0.066097; 0.0745983; 0.083013;
     0.0913727; 0.099736; 0.108203; 0.116861; 0.125698; 0.134788; 0.143998;
     0.153113; 0.16198; 0.170365; 0.178134; 0.185071; 0.190955; 0.195574;
     0.198678; 0.200149; 0.204957; -7.38212; 17.3197; -8.06487; 0.191653;
     0.180343; 0.172687; 0.163866; 0.153921; 0.142913; 0.130926; 0.118081;
     0.104535; 0.0904886; 0.0761969; 0.0619702; 0.0481772; 0.0352418;
     0.0236342; 0.0138522; 0.00638299; 0.00164271];
    [0.0220592; 0.0228547; 0.0240666; 0.0259027; 0.0286747; 0.0328494;
     0.0391271; 0.0471248; 0.0555347; 0.0638502; 0.0720729; 0.0802164;
     0.0883116; 0.0964159; 0.104627; 0.11303; 0.121615; 0.130456; 0.139423;
     0.148313; 0.156978; 0.165195; 0.172834; 0.17969; 0.185549; 0.190208;
     0.193428; 0.195095; 0.195328; 0.199136; -8.06487; 18.7115; -8.77116;
     0.182748; 0.170709; 0.162325; 0.152784; 0.142144; 0.130485; 0.117925;
     0.104615; 0.0907551; 0.0765955; 0.0624457; 0.0486747; 0.0357092;
     0.024026; 0.0141344; 0.00654069; 0.00168998];
    [0.0211448; 0.0219087; 0.023072; 0.0248341; 0.0274939; 0.0314993;
     0.037522; 0.0451955; 0.0532665; 0.0612501; 0.0691483; 0.0769745;
     0.0847593; 0.0925584; 0.100466; 0.108565; 0.116848; 0.125386; 0.134057;
     0.142668; 0.151078; 0.159073; 0.166532; 0.173259; 0.17905; 0.183711;
     0.187013; 0.188848; 0.189334; 0.188627; 0.191653; -8.77116; 20.1563;
     -9.50998; 0.17262; 0.159923; 0.150885; 0.140707; 0.129469; 0.117281;
     0.104292; 0.0906966; 0.0767419; 0.0627345; 0.0490425; 0.0360942;
     0.0243718; 0.0143959; 0.00669206; 0.0017364];
    [0.0201169; 0.020845; 0.0219533; 0.0236318; 0.026165; 0.0299794;
     0.0357144; 0.0430219; 0.0507101; 0.058318; 0.0658481; 0.0733137;
     0.0807445; 0.0881943; 0.0957534; 0.103503; 0.111435; 0.11962; 0.127944;
     0.136222; 0.144323; 0.152046; 0.159275; 0.165825; 0.171504; 0.176126;
     0.179476; 0.18145; 0.182163; 0.181769; 0.180343; 0.182748; -9.50998;
     21.6734; -10.2907; 0.161449; 0.148171; 0.138562; 0.127843; 0.116123;
     0.103545; 0.0902988; 0.0766262; 0.0628303; 0.0492769; 0.0363948;
     0.024671; 0.0146368; 0.00683738; 0.0017821];
    [0.0189824; 0.0196706; 0.020718; 0.0223038; 0.0246967; 0.0282995;
     0.033716; 0.0406182; 0.0478821; 0.0550729; 0.0621937; 0.0692574;
     0.0762927; 0.0833512; 0.0905189; 0.0978734; 0.105409; 0.113193;
     0.121117; 0.129013; 0.136754; 0.144153; 0.151103; 0.157428; 0.16295;
     0.167493; 0.170853; 0.172934; 0.173847; 0.173739; 0.172687; 0.170709;
     0.17262; -10.2907; 23.279; -11.1194; 0.149412; 0.135638; 0.125553;
     0.114407; 0.10234; 0.0895345; 0.0762281; 0.0627185; 0.0493681;
     0.0366052; 0.0249205; 0.0148556; 0.00697626; 0.00182704];
    [0.0177483; 0.018393; 0.0193738; 0.0208584; 0.0230982; 0.0264702;
     0.0315393; 0.0379994; 0.0447999; 0.0515349; 0.0582074; 0.0648304;
     0.0714311; 0.0780585; 0.0847938; 0.0917107; 0.0988048; 0.10614;
     0.113619; 0.121081; 0.128413; 0.135438; 0.142059; 0.148113; 0.153431;
     0.157853; 0.161185; 0.16334; 0.164422; 0.164572; 0.163866; 0.162325;
     0.159923; 0.161449; -11.1194; 24.9877; -12.0039; 0.136693; 0.122519;
     0.112069; 0.100625; 0.0883636; 0.075517; 0.0623766; 0.0493005;
     0.0367152; 0.0251143; 0.0150496; 0.00710765; 0.001871];
    [0.016423; 0.0170208; 0.0179298; 0.0193054; 0.0213803; 0.0245038;
     0.0291989; 0.035183; 0.0414843; 0.0477274; 0.0539158; 0.060062;
     0.0661916; 0.0723507; 0.0786154; 0.0850546; 0.0916654; 0.0985087;
     0.105494; 0.112476; 0.11935; 0.125954; 0.132198; 0.137933; 0.143004;
     0.147261; 0.150527; 0.152719; 0.153936; 0.154313; 0.153921; 0.152784;
     0.150885; 0.148171; 0.149412; -12.0039; 26.8128; -12.9489; 0.123487;
     0.109022; 0.0983302; 0.0867318; 0.0744513; 0.0617739; 0.0490524;
     0.0367105; 0.0252439; 0.0152141; 0.00722978; 0.00191359];
    [0.0150168; 0.0155645; 0.016397; 0.0176565; 0.0195561; 0.0224152;
     0.0267126; 0.0321903; 0.0379601; 0.0436792; 0.0493512; 0.0549879;
     0.0606134; 0.0662704; 0.0720293; 0.0779541; 0.0840431; 0.0903531;
     0.0968027; 0.10326; 0.10963; 0.115767; 0.121588; 0.126959; 0.131737;
     0.135787; 0.138946; 0.141139; 0.142457; 0.143025; 0.142913; 0.142144;
     0.140707; 0.138562; 0.135638; 0.136693; -12.9489; 28.7688; -13.9633;
     0.110002; 0.0953639; 0.084566; 0.0729747; 0.0608684; 0.0485938;
     0.0365709; 0.0252968; 0.0153427; 0.00733988; 0.00195418];
    [0.0135421; 0.0140371; 0.0147892; 0.0159266; 0.0176418; 0.0202231;
     0.0241026; 0.0290481; 0.0342589; 0.0394264; 0.0445541; 0.0496532;
     0.054746; 0.0598714; 0.0650938; 0.0704717; 0.0760046; 0.0817449;
     0.0876202; 0.0935125; 0.0993377; 0.104964; 0.11032; 0.115283; 0.119726;
     0.123527; 0.126538; 0.128693; 0.130075; 0.130797; 0.130926; 0.130485;
     0.129469; 0.127843; 0.125553; 0.122519; 0.123487; -13.9633; 30.8685;
     -15.0501; 0.0964541; 0.0817694; 0.0710128; 0.0596044; 0.0478845;
     0.0362691; 0.0252561; 0.015426; 0.00743395; 0.00199177];
    [0.0120153; 0.0124554; 0.0131239; 0.0141347; 0.0156585; 0.0179515;
     0.0213975; 0.0257907; 0.0304212; 0.0350155; 0.039577; 0.0441162;
     0.0486531; 0.0532232; 0.057884; 0.0626883; 0.0676367; 0.0727765;
     0.0780448; 0.0833378; 0.0885816; 0.0936605; 0.0985115; 0.103027;
     0.107095; 0.110607; 0.113432; 0.115509; 0.116915; 0.117753; 0.118081;
     0.117925; 0.117281; 0.116123; 0.114407; 0.112069; 0.109022; 0.110002;
     -15.0501; 33.1226; -16.2163; 0.0830654; 0.068467; 0.0579081; 0.0468714;
     0.0357688; 0.0250987; 0.0154513; 0.00750635; 0.00202496];
    [0.0104558; 0.0108398; 0.0114226; 0.0123036; 0.0136316; 0.0156295;
     0.0186318; 0.0224598; 0.0264961; 0.0305027; 0.0344833; 0.0384472;
     0.0424125; 0.0464104; 0.0504916; 0.0547029; 0.0590454; 0.0635618;
     0.0681978; 0.0728642; 0.0774977; 0.0819982; 0.0863119; 0.0903458;
     0.0940028; 0.0971881; 0.0997879; 0.10175; 0.103141; 0.104051; 0.104535;
     0.104615; 0.104292; 0.103545; 0.10234; 0.100625; 0.0983302; 0.0953639;
     0.0964541; -16.2163; 35.5474; -17.4702; 0.0700533; 0.0556778; 0.0454807;
     0.0350191; 0.0247921; 0.0154; 0.00754876; 0.00205164];
    [0.0088874; 0.00921461; 0.00971106; 0.0104612; 0.0115917; 0.0132923;
     0.0158475; 0.0191059; 0.0225428; 0.0259565; 0.0293502; 0.0327323;
     0.0361186; 0.0395359; 0.0430282; 0.0466359; 0.0503606; 0.0542396;
     0.0582276; 0.0622496; 0.0662526; 0.0701524; 0.0739038; 0.0774286;
     0.0806444; 0.0834709; 0.085811; 0.0876202; 0.0889556; 0.089896;
     0.0904886; 0.0907551; 0.0906966; 0.0902988; 0.0895345; 0.0883636;
     0.0867318; 0.084566; 0.0817694; 0.0830654; -17.4702; 38.1578; -18.8176;
     0.0576234; 0.0436095; 0.0339484; 0.0242901; 0.0152458; 0.00754909;
     0.00206867];
    [0.00733827; 0.00760922; 0.00802008; 0.00864067; 0.00957567; 0.010982;
     0.0130948; 0.0157894; 0.0186328; 0.0214587; 0.0242702; 0.0270744;
     0.0298847; 0.0327239; 0.0356286; 0.0386329; 0.0417388; 0.044978;
     0.0483139; 0.0516852; 0.0550491; 0.0583365; 0.061511; 0.0645084;
     0.0672611; 0.0697027; 0.071753; 0.0733749; 0.0746164; 0.0755436;
     0.0761969; 0.0765955; 0.0767419; 0.0766262; 0.0762281; 0.075517;
     0.0744513; 0.0729747; 0.0710128; 0.068467; 0.0700533; -18.8176; 40.9673;
     -20.2652; 0.0459644; 0.032456; 0.0235272; 0.0149508; 0.00748977;
     0.00207144];
    [0.00584136; 0.00605773; 0.00638561; 0.00688068; 0.00762634; 0.00874769;
     0.0104322; 0.0125808; 0.0148492; 0.0171051; 0.0193513; 0.0215938;
     0.0238436; 0.0261192; 0.0284502; 0.0308643; 0.0333638; 0.0359745;
     0.0386682; 0.0413967; 0.0441264; 0.0468033; 0.0493987; 0.0518621;
     0.0541398; 0.0561793; 0.0579164; 0.0593213; 0.0604329; 0.0613048;
     0.0619702; 0.0624457; 0.0627345; 0.0628303; 0.0627185; 0.0623766;
     0.0617739; 0.0608684; 0.0596044; 0.0579081; 0.0556778; 0.0576234;
     -20.2652; 43.9911; -21.8209; 0.0352484; 0.0224088; 0.0144597;
     0.00734497; 0.00205314];
    [0.00443384; 0.00459867; 0.00484827; 0.00522496; 0.00579217; 0.00664496;
     0.00792588; 0.00955997; 0.0112861; 0.013004; 0.0147161; 0.0164272;
     0.0181459; 0.0198866; 0.0216723; 0.0235243; 0.025445; 0.0274547;
     0.0295324; 0.0316423; 0.0337594; 0.0358432; 0.0378725; 0.0398093;
     0.0416132; 0.0432443; 0.0446536; 0.0458186; 0.046769; 0.0475465;
     0.0481772; 0.0486747; 0.0490425; 0.0492769; 0.0493681; 0.0493005;
     0.0490524; 0.0485938; 0.0478845; 0.0468714; 0.0454807; 0.0436095;
     0.0459644; -21.8209; 47.2464; -23.493; 0.0256481; 0.0136917; 0.00707654;
     0.0020036];
    [0.00315622; 0.00327405; 0.00345233; 0.00372124; 0.00412601; 0.00473444;
     0.00564818; 0.00681406; 0.00804635; 0.00927395; 0.0104987; 0.0117241;
     0.0129568; 0.0142071; 0.0154917; 0.0168264; 0.0182132; 0.019667;
     0.0211736; 0.0227078; 0.0242525; 0.025779; 0.0272728; 0.0287073;
     0.0300537; 0.0312839; 0.0323626; 0.0332737; 0.0340389; 0.0346885;
     0.0352418; 0.0357092; 0.0360942; 0.0363948; 0.0366052; 0.0367152;
     0.0367105; 0.0365709; 0.0362691; 0.0357688; 0.0350191; 0.0339484;
     0.032456; 0.0352484; -23.493; 50.7532; -25.2925; 0.0173783; 0.00662773;
     0.00190766];
    [0.00205059; 0.00212753; 0.00224383; 0.00241914; 0.0026829; 0.00307927;
     0.00367441; 0.00443396; 0.00523737; 0.00603857; 0.0068389; 0.00764089;
     0.00844888; 0.00926991; 0.0101151; 0.010995; 0.0119112; 0.0128739;
     0.0138742; 0.0148961; 0.0159289; 0.0169544; 0.0179634; 0.0189387;
     0.0198621; 0.0207151; 0.0214748; 0.0221305; 0.0226967; 0.0231936;
     0.0236342; 0.024026; 0.0243718; 0.024671; 0.0249205; 0.0251143;
     0.0252439; 0.0252968; 0.0252561; 0.0250987; 0.0247921; 0.0242901;
     0.0235272; 0.0224088; 0.0256481; -25.2925; 54.5308; -27.2266; 0.0107653;
     0.00174259];
    [0.00115742; 0.00120111; 0.00126708; 0.00136645; 0.00151587; 0.00174033;
     0.00207729; 0.00250744; 0.00296285; 0.0034176; 0.00387255; 0.00432925;
     0.00479027; 0.00525974; 0.00574413; 0.00624958; 0.00677729; 0.00733329;
     0.00791281; 0.00850711; 0.00911037; 0.00971254; 0.0103087; 0.0108894;
     0.0114444; 0.0119632; 0.0124328; 0.0128472; 0.0132147; 0.0135471;
     0.0138522; 0.0141344; 0.0143959; 0.0146368; 0.0148556; 0.0150496;
     0.0152141; 0.0153427; 0.015426; 0.0154513; 0.0154; 0.0152458; 0.0149508;
     0.0144597; 0.0136917; 0.0173783; -27.2266; 58.5965; -29.3045; 0.00632577];
    [0.000509977; 0.000529376; 0.000558621; 0.000602627; 0.000668762;
     0.000768069; 0.000917103; 0.00110742; 0.00130914; 0.00151089; 0.0017131;
     0.00191653; 0.00212237; 0.00233253; 0.00254997; 0.0027775; 0.00301578;
     0.00326765; 0.00353114; 0.00380254; 0.00407943; 0.00435752; 0.00463478;
     0.00490711; 0.00517003; 0.00541901; 0.00564823; 0.005855; 0.00604309;
     0.00621787; 0.00638299; 0.00654069; 0.00669206; 0.00683738; 0.00697626;
     0.00710765; 0.00722978; 0.00733988; 0.00743395; 0.00750635; 0.00754876;
     0.00754909; 0.00748977; 0.00734497; 0.00707654; 0.00662773; 0.0107653;
     -29.3045; 62.9714; -31.5314];
    [0.000125592; 0.000130406; 0.000137654; 0.000148548; 0.000164911;
     0.00018947; 0.000226316; 0.000273385; 0.000323329; 0.000373363;
     0.000423607; 0.000474262; 0.000525641; 0.000578235; 0.000632796;
     0.000690051; 0.000750195; 0.000813965; 0.000880915; 0.00095017;
     0.00102117; 0.00109288; 0.00116485; 0.00123609; 0.0013055; 0.00137198;
     0.00143408; 0.00149112; 0.00154406; 0.00159427; 0.00164271; 0.00168998;
     0.0017364; 0.0017821; 0.00182704; 0.001871; 0.00191359; 0.00195418;
     0.00199177; 0.00202496; 0.00205164; 0.00206867; 0.00207144; 0.00205314;
     0.0020036; 0.00190766; 0.00174259; 0.00632577; -31.5314; 33.7455] ].

(** [f], 1 x 50 *)
Definition f : list (list Q) :=
  [ [-0.0111425; -0.011538; -0.0121425; -0.0130601; -0.0144474; -0.0165385;
     -0.0196848; -0.0236903; -0.0278921; -0.0320323; -0.036109; -0.0401265;
     -0.0440975; -0.0480478; -0.0520223; -0.0560601; -0.0601514; -0.0643271;
     -0.068518; -0.0726177; -0.0765486; -0.0801968; -0.0834977; -0.0863953;
     -0.0885252; -0.101229; -0.103082; -0.104449; -0.105031; -0.104906;
     -0.104092; -0.102617; -0.100496; -0.0977022; -0.0942305; -0.0900319;
     -0.0851233; -0.0794254; -0.0732799; -0.052512; -0.0469537; -0.0409763;
     -0.0349491; -0.0289862; -0.0229266; -0.0388009; -0.0517509; -0.0746045;
     -0.109363; -0.157534] ].

(** [A], 50 x 50 *)
Definition A : list (list Q) :=
  [ [1; 0; 0; 0; 0; 0; 0; 0; 0; 0; 0; 0; 0; 0; 0; 0; 0; 0; 0; 0; 0; 0; 0; 0;
     0; 0; 0; 0; 0; 0; 0; 0; 0; 0; 0; 0; 0; 0; 0; 0; 0; 0; 0; 0; 0; 0; 0; 0;
     0; 0];
    [-1; 1; 0; 0; 0; 0; 0; 0; 0; 0; 0; 0; 0; 0; 0; 0; 0; 0; 0; 0; 0; 0; 0; 0;
     0; 0; 0; 0; 0; 0; 0; 0; 0; 0; 0; 0; 0; 0; 0; 0; 0; 0; 0; 0; 0; 0; 0; 0;
     0; 0];
    [0; -1; 1; 0; 0; 0; 0; 0; 0; 0; 0; 0; 0; 0; 0; 0; 0; 0; 0; 0; 0; 0; 0; 0;
     0; 0; 0; 0; 0; 0; 0; 0; 0; 0; 0; 0; 0; 0; 0; 0; 0; 0; 0; 0; 0; 0; 0; 0;
     0; 0];
    [0; 0; -1; 1; 0; 0; 0; 0; 0; 0; 0; 0; 0; 0; 0; 0; 0; 0; 0; 0; 0; 0; 0; 0;
     0; 0; 0; 0; 0; 0; 0; 0; 0; 0; 0; 0; 0; 0; 0; 0; 0; 0; 0; 0; 0; 0; 0; 0;
     0; 0];
    [0; 0; 0; -1; 1; 0; 0; 0; 0; 0; 0; 0; 0; 0; 0; 0; 0; 0; 0; 0; 0; 0; 0; 0;
     0; 0; 0; 0; 0; 0; 0; 0; 0; 0; 0; 0; 0; 0; 0; 0; 0; 0; 0; 0; 0; 0; 0; 0;
     0; 0];
    [0; 0; 0; 0; -1; 1; 0; 0; 0; 0; 0; 0; 0; 0; 0; 0; 0; 0; 0; 0; 0; 0; 0; 0;
     0; 0; 0; 0; 0; 0; 0; 0; 0; 0; 0; 0; 0; 0; 0; 0; 0; 0; 0; 0; 0; 0; 0; 0;
     0; 0];
    [0; 0; 0; 0; 0; -1; 1; 0; 0; 0; 0; 0; 0; 0; 0; 0; 0; 0; 0; 0; 0; 0; 0; 0;
     0; 0; 0; 0; 0; 0; 0; 0; 0; 0; 0; 0; 0; 0; 0; 0; 0; 0; 0; 0; 0; 0; 0; 0;
     0; 0];
    [0; 0; 0; 0; 0; 0; -1; 1; 0; 0; 0; 0; 0; 0; 0; 0; 0; 0; 0; 0; 0; 0; 0; 0;
     0; 0; 0; 0; 0; 0; 0; 0; 0; 0; 0; 0; 0; 0; 0; 0; 0; 0; 0; 0; 0; 0; 0; 0;
     0; 0];
    [0; 0; 0; 0; 0; 0; 0; -1; 1; 0; 0; 0; 0; 0; 0; 0; 0; 0; 0; 0; 0; 0; 0; 0;
     0; 0; 0; 0; 0; 0; 0; 0; 0; 0; 0; 0; 0; 0; 0; 0; 0; 0; 0; 0; 0; 0; 0; 0;
     0; 0];
    [0; 0; 0; 0; 0; 0; 0; 0; -1; 1; 0; 0; 0; 0; 0; 0; 0; 0; 0; 0; 0; 0; 0; 0;
     0; 0; 0; 0; 0; 0; 0; 0; 0; 0; 0; 0; 0; 0; 0; 0; 0; 0; 0; 0; 0; 0; 0; 0;
     0; 0];
    [0; 0; 0; 0; 0; 0; 0; 0; 0; -1; 1; 0; 0; 0; 0; 0; 0; 0; 0; 0; 0; 0; 0; 0;
     0; 0; 0; 0; 0; 0; 0; 0; 0; 0; 0; 0; 0; 0; 0; 0; 0; 0; 0; 0; 0; 0; 0; 0;
     0; 0];
    [0; 0; 0; 0; 0; 0; 0; 0; 0; 0; -1; 1; 0; 0; 0; 0; 0; 0; 0; 0; 0; 0; 0; 0;
     0; 0; 0; 0; 0; 0; 0; 0; 0; 0; 0; 0; 0; 0; 0; 0; 0; 0; 0; 0; 0; 0; 0; 0;
     0; 0];
    [0; 0; 0; 0; 0; 0; 0; 0; 0; 0; 0; -1; 1; 0; 0; 0; 0; 0; 0; 0; 0; 0; 0; 0;
     0; 0; 0; 0; 0; 0; 0; 0; 0; 0; 0; 0; 0; 0; 0; 0; 0; 0; 0; 0; 0; 0; 0; 0;
     0; 0];
    [0; 0; 0; 0; 0; 0; 0; 0; 0; 0; 0; 0; -1; 1; 0; 0; 0; 0; 0; 0; 0; 0; 0; 0;
     0; 0; 0; 0; 0; 0; 0; 0; 0; 0; 0; 0; 0; 0; 0; 0; 0; 0; 0; 0; 0; 0; 0; 0;
     0; 0];
    [0; 0; 0; 0; 0; 0; 0; 0; 0; 0; 0; 0; 0; -1; 1; 0; 0; 0; 0; 0; 0; 0; 0; 0;
     0; 0; 0; 0; 0; 0; 0; 0; 0; 0; 0; 0; 0; 0; 0; 0; 0; 0; 0; 0; 0; 0; 0; 0;
     0; 0];
    [0; 0; 0; 0; 0; 0; 0; 0; 0; 0; 0; 0; 0; 0; -1; 1; 0; 0; 0; 0; 0; 0; 0; 0;
     0; 0; 0; 0; 0; 0; 0; 0; 0; 0; 0; 0; 0; 0; 0; 0; 0; 0; 0; 0; 0; 0; 0; 0;
     0; 0];
    [0; 0; 0; 0; 0; 0; 0; 0; 0; 0; 0; 0; 0; 0; 0; -1; 1; 0; 0; 0; 0; 0; 0; 0;
     0; 0; 0; 0; 0; 0; 0; 0; 0; 0; 0; 0; 0; 0; 0; 0; 0; 0; 0; 0; 0; 0; 0; 0;
     0; 0];
    [0; 0; 0; 0; 0; 0; 0; 0; 0; 0; 0; 0; 0; 0; 0; 0; -1; 1; 0; 0; 0; 0; 0; 0;
     0; 0; 0; 0; 0; 0; 0; 0; 0; 0; 0; 0; 0; 0; 0; 0; 0; 0; 0; 0; 0; 0; 0; 0;
     0; 0];
    [0; 0; 0; 0; 0; 0; 0; 0; 0; 0; 0; 0; 0; 0; 0; 0; 0; -1; 1; 0; 0; 0; 0; 0;
     0; 0; 0; 0; 0; 0; 0; 0; 0; 0; 0; 0; 0; 0; 0; 0; 0; 0; 0; 0; 0; 0; 0; 0;
     0; 0];
    [0; 0; 0; 0; 0; 0; 0; 0; 0; 0; 0; 0; 0; 0; 0; 0; 0; 0; -1; 1; 0; 0; 0; 0;
     0; 0; 0; 0; 0; 0; 0; 0; 0; 0; 0; 0; 0; 0; 0; 0; 0; 0; 0; 0; 0; 0; 0; 0;
     0; 0];
    [0; 0; 0; 0; 0; 0; 0; 0; 0; 0; 0; 0; 0; 0; 0; 0; 0; 0; 0; -1; 1; 0; 0; 0;
     0; 0; 0; 0; 0; 0; 0; 0; 0; 0; 0; 0; 0; 0; 0; 0; 0; 0; 0; 0; 0; 0; 0; 0;
     0; 0];
    [0; 0; 0; 0; 0; 0; 0; 0; 0; 0; 0; 0; 0; 0; 0; 0; 0; 0; 0; 0; -1; 1; 0; 0;
     0; 0; 0; 0; 0; 0; 0; 0; 0; 0; 0; 0; 0; 0; 0; 0; 0; 0; 0; 0; 0; 0; 0; 0;
     0; 0];
    [0; 0; 0; 0; 0; 0; 0; 0; 0; 0; 0; 0; 0; 0; 0; 0; 0; 0; 0; 0; 0; -1; 1; 0;
     0; 0; 0; 0; 0; 0; 0; 0; 0; 0; 0; 0; 0; 0; 0; 0; 0; 0; 0; 0; 0; 0; 0; 0;
     0; 0];
    [0; 0; 0; 0; 0; 0; 0; 0; 0; 0; 0; 0; 0; 0; 0; 0; 0; 0; 0; 0; 0; 0; -1; 1;
     0; 0; 0; 0; 0; 0; 0; 0; 0; 0; 0; 0; 0; 0; 0; 0; 0; 0; 0; 0; 0; 0; 0; 0;
     0; 0];
    [0; 0; 0; 0; 0; 0; 0; 0; 0; 0; 0; 0; 0; 0; 0; 0; 0; 0; 0; 0; 0; 0; 0; -1;
     1; 0; 0; 0; 0; 0; 0; 0; 0; 0; 0; 0; 0; 0; 0; 0; 0; 0; 0; 0; 0; 0; 0; 0;
     0; 0];
    [0; 0; 0; 0; 0; 0; 0; 0; 0; 0; 0; 0; 0; 0; 0; 0; 0; 0; 0; 0; 0; 0; 0; 0;
     -1; 1; 0; 0; 0; 0; 0; 0; 0; 0; 0; 0; 0; 0; 0; 0; 0; 0; 0; 0; 0; 0; 0; 0;
     0; 0];
    [0; 0; 0; 0; 0; 0; 0; 0; 0; 0; 0; 0; 0; 0; 0; 0; 0; 0; 0; 0; 0; 0; 0; 0;
     0; -1; 1; 0; 0; 0; 0; 0; 0; 0; 0; 0; 0; 0; 0; 0; 0; 0; 0; 0; 0; 0; 0; 0;
     0; 0];
    [0; 0; 0; 0; 0; 0; 0; 0; 0; 0; 0; 0; 0; 0; 0; 0; 0; 0; 0; 0; 0; 0; 0; 0;
     0; 0; -1; 1; 0; 0; 0; 0; 0; 0; 0; 0; 0; 0; 0; 0; 0; 0; 0; 0; 0; 0; 0; 0;
     0; 0];
    [0; 0; 0; 0; 0; 0; 0; 0; 0; 0; 0; 0; 0; 0; 0; 0; 0; 0; 0; 0; 0; 0; 0; 0;
     0; 0; 0; -1; 1; 0; 0; 0; 0; 0; 0; 0; 0; 0; 0; 0; 0; 0; 0; 0; 0; 0; 0; 0;
     0; 0];
    [0; 0; 0; 0; 0; 0; 0; 0; 0; 0; 0; 0; 0; 0; 0; 0; 0; 0; 0; 0; 0; 0; 0; 0;
     0; 0; 0; 0; -1; 1; 0; 0; 0; 0; 0; 0; 0; 0; 0; 0; 0; 0; 0; 0; 0; 0; 0; 0;
     0; 0];
    [0; 0; 0; 0; 0; 0; 0; 0; 0; 0; 0; 0; 0; 0; 0; 0; 0; 0; 0; 0; 0; 0; 0; 0;
     0; 0; 0; 0; 0; -1; 1; 0; 0; 0; 0; 0; 0; 0; 0; 0; 0; 0; 0; 0; 0; 0; 0; 0;
     0; 0];
    [0; 0; 0; 0; 0; 0; 0; 0; 0; 0; 0; 0; 0; 0; 0; 0; 0; 0; 0; 0; 0; 0; 0; 0;
     0; 0; 0; 0; 0; 0; -1; 1; 0; 0; 0; 0; 0; 0; 0; 0; 0; 0; 0; 0; 0; 0; 0; 0;
     0; 0];
    [0; 0; 0; 0; 0; 0; 0; 0; 0; 0; 0; 0; 0; 0; 0; 0; 0; 0; 0; 0; 0; 0; 0; 0;
     0; 0; 0; 0; 0; 0; 0; -1; 1; 0; 0; 0; 0; 0; 0; 0; 0; 0; 0; 0; 0; 0; 0; 0;
     0; 0];
    [0; 0; 0; 0; 0; 0; 0; 0; 0; 0; 0; 0; 0; 0; 0; 0; 0; 0; 0; 0; 0; 0; 0; 0;
     0; 0; 0; 0; 0; 0; 0; 0; -1; 1; 0; 0; 0; 0; 0; 0; 0; 0; 0; 0; 0; 0; 0; 0;
     0; 0];
    [0; 0; 0; 0; 0; 0; 0; 0; 0; 0; 0; 0; 0; 0; 0; 0; 0; 0; 0; 0; 0; 0; 0; 0;
     0; 0; 0; 0; 0; 0; 0; 0; 0; -1; 1; 0; 0; 0; 0; 0; 0; 0; 0; 0; 0; 0; 0; 0;
     0; 0];
    [0; 0; 0; 0; 0; 0; 0; 0; 0; 0; 0; 0; 0; 0; 0; 0; 0; 0; 0; 0; 0; 0; 0; 0;
     0; 0; 0; 0; 0; 0; 0; 0; 0; 0; -1; 1; 0; 0; 0; 0; 0; 0; 0; 0; 0; 0; 0; 0;
     0; 0];
    [0; 0; 0; 0; 0; 0; 0; 0; 0; 0; 0; 0; 0; 0; 0; 0; 0; 0; 0; 0; 0; 0; 0; 0;
     0; 0; 0; 0; 0; 0; 0; 0; 0; 0; 0; -1; 1; 0; 0; 0; 0; 0; 0; 0; 0; 0; 0; 0;
     0; 0];
    [0; 0; 0; 0; 0; 0; 0; 0; 0; 0; 0; 0; 0; 0; 0; 0; 0; 0; 0; 0; 0; 0; 0; 0;
     0; 0; 0; 0; 0; 0; 0; 0; 0; 0; 0; 0; -1; 1; 0; 0; 0; 0; 0; 0; 0; 0; 0; 0;
     0; 0];
    [0; 0; 0; 0; 0; 0; 0; 0; 0; 0; 0; 0; 0; 0; 0; 0; 0; 0; 0; 0; 0; 0; 0; 0;
     0; 0; 0; 0; 0; 0; 0; 0; 0; 0; 0; 0; 0; -1; 1; 0; 0; 0; 0; 0; 0; 0; 0; 0;
     0; 0];
    [0; 0; 0; 0; 0; 0; 0; 0; 0; 0; 0; 0; 0; 0; 0; 0; 0; 0; 0; 0; 0; 0; 0; 0;
     0; 0; 0; 0; 0; 0; 0; 0; 0; 0; 0; 0; 0; 0; -1; 1; 0; 0; 0; 0; 0; 0; 0; 0;
     0; 0];
    [0; 0; 0; 0; 0; 0; 0; 0; 0; 0; 0; 0; 0; 0; 0; 0; 0; 0; 0; 0; 0; 0; 0; 0;
     0; 0; 0; 0; 0; 0; 0; 0; 0; 0; 0; 0; 0; 0; 0; -1; 1; 0; 0; 0; 0; 0; 0; 0;
     0; 0];
    [0; 0; 0; 0; 0; 0; 0; 0; 0; 0; 0; 0; 0; 0; 0; 0; 0; 0; 0; 0; 0; 0; 0; 0;
     0; 0; 0; 0; 0; 0; 0; 0; 0; 0; 0; 0; 0; 0; 0; 0; -1; 1; 0; 0; 0; 0; 0; 0;
     0; 0];
    [0; 0; 0; 0; 0; 0; 0; 0; 0; 0; 0; 0; 0; 0; 0; 0; 0; 0; 0; 0; 0; 0; 0; 0;
     0; 0; 0; 0; 0; 0; 0; 0; 0; 0; 0; 0; 0; 0; 0; 0; 0; -1; 1; 0; 0; 0; 0; 0;
     0; 0];
    [0; 0; 0; 0; 0; 0; 0; 0; 0; 0; 0; 0; 0; 0; 0; 0; 0; 0; 0; 0; 0; 0; 0; 0;
     0; 0; 0; 0; 0; 0; 0; 0; 0; 0; 0; 0; 0; 0; 0; 0; 0; 0; -1; 1; 0; 0; 0; 0;
     0; 0];
    [0; 0; 0; 0; 0; 0; 0; 0; 0; 0; 0; 0; 0; 0; 0; 0; 0; 0; 0; 0; 0; 0; 0; 0;
     0; 0; 0; 0; 0; 0; 0; 0; 0; 0; 0; 0; 0; 0; 0; 0; 0; 0; 0; -1; 1; 0; 0; 0;
     0; 0];
    [0; 0; 0; 0; 0; 0; 0; 0; 0; 0; 0; 0; 0; 0; 0; 0; 0; 0; 0; 0; 0; 0; 0; 0;
     0; 0; 0; 0; 0; 0; 0; 0; 0; 0; 0; 0; 0; 0; 0; 0; 0; 0; 0; 0; -1; 1; 0; 0;
     0; 0];
    [0; 0; 0; 0; 0; 0; 0; 0; 0; 0; 0; 0; 0; 0; 0; 0; 0; 0; 0; 0; 0; 0; 0; 0;
     0; 0; 0; 0; 0; 0; 0; 0; 0; 0; 0; 0; 0; 0; 0; 0; 0; 0; 0; 0; 0; -1; 1; 0;
     0; 0];
    [0; 0; 0; 0; 0; 0; 0; 0; 0; 0; 0; 0; 0; 0; 0; 0; 0; 0; 0; 0; 0; 0; 0; 0;
     0; 0; 0; 0; 0; 0; 0; 0; 0; 0; 0; 0; 0; 0; 0; 0; 0; 0; 0; 0; 0; 0; -1; 1;
     0; 0];
    [0; 0; 0; 0; 0; 0; 0; 0; 0; 0; 0; 0; 0; 0; 0; 0; 0; 0; 0; 0; 0; 0; 0; 0;
     0; 0; 0; 0; 0; 0; 0; 0; 0; 0; 0; 0; 0; 0; 0; 0; 0; 0; 0; 0; 0; 0; 0; -1;
     1; 0];
    [0; 0; 0; 0; 0; 0; 0; 0; 0; 0; 0; 0; 0; 0; 0; 0; 0; 0; 0; 0; 0; 0; 0; 0;
     0; 0; 0; 0; 0; 0; 0; 0; 0; 0; 0; 0; 0; 0; 0; 0; 0; 0; 0; 0; 0; 0; 0; 0;
     -1; 1] ].

(** [lb], 50 x 1 *)
Definition lb : list (list Q) :=
  [ [-0.7]; [-0.7]; [-0.7]; [-0.7]; [-0.7]; [-0.7]; [-0.7]; [-0.7]; [-0.7];
    [-0.7]; [-0.7]; [-0.7]; [-0.7]; [-0.7]; [-0.7]; [-0.7]; [-0.7]; [-0.7];
    [-0.7]; [-0.7]; [-0.7]; [-0.7]; [-0.7]; [-0.7]; [-0.7]; [-0.7]; [-0.7];
    [-0.7]; [-0.7]; [-0.7]; [-0.7]; [-0.7]; [-0.7]; [-0.7]; [-0.7]; [-0.7];
    [-0.7]; [-0.7]; [-0.7]; [-0.7]; [-0.7]; [-0.7]; [-0.7]; [-0.7]; [-0.7];
    [-0.7]; [-0.7]; [-0.7]; [-0.7]; [-0.7] ].

(** [ub], 50 x 1 *)
Definition ub : list (list Q) :=
  [ [0.7]; [0.7]; [0.7]; [0.7]; [0.7]; [0.7]; [0.7]; [0.7]; [0.7]; [0.7];
    [0.7]; [0.7]; [0.7]; [0.7]; [0.7]; [0.7]; [0.7]; [0.7]; [0.7]; [0.7];
    [0.7]; [0.7]; [0.7]; [0.7]; [0.7]; [0.7]; [0.7]; [0.7]; [0.7]; [0.7];
    [0.7]; [0.7]; [0.7]; [0.7]; [0.7]; [0.7]; [0.7]; [0.7]; [0.7]; [0.7];
    [0.7]; [0.7]; [0.7]; [0.7]; [0.7]; [0.7]; [0.7]; [0.7]; [0.7]; [0.7] ].

(** [lbA], 50 x 1 *)
Definition lbA : list (list Q) :=
  [ [-0.022612]; [-0.0943183]; [-0.0947408]; [-0.0951632]; [-0.0955856];
    [-0.0960081]; [-0.0964305]; [-0.0968748]; [-0.0973306]; [-0.0977864];
    [-0.0982422]; [-0.0986979]; [-0.0991537]; [-0.0996095]; [-0.100065];
    [-0.100901]; [-0.102576]; [-0.104252]; [-0.104797]; [-0.105076];
    [-0.105429]; [-0.105815]; [-0.106251]; [-0.106762]; [-0.107324];
    [-0.107944]; [-0.108627]; [-0.109345]; [-0.110009]; [-0.110571];
    [-0.110995]; [-0.111277]; [-0.111414]; [-0.111385]; [-0.111186];
    [-0.110788]; [-0.110203]; [-0.109409]; [-0.108455]; [-0.107447];
    [-0.106401]; [-0.105314]; [-0.101557]; [-0.0946047]; [-0.104894];
    [-0.109788]; [-0.118091]; [-0.125476]; [-0.125476]; [-0.125476] ].

(** [ubA], 50 x 1 *)
Definition ubA : list (list Q) :=
  [ [0.0244062]; [0.0943183]; [0.0947408]; [0.0951632]; [0.0955856];
    [0.0960081]; [0.0964305]; [0.0968748]; [0.0973306]; [0.0977864];
    [0.0982422]; [0.0986979]; [0.0991537]; [0.0996095]; [0.100065];
    [0.100901]; [0.102576]; [0.104252]; [0.104797]; [0.105076]; [0.105429];
    [0.105815]; [0.106251]; [0.106762]; [0.107324]; [0.107944]; [0.108627];
    [0.109345]; [0.110009]; [0.110571]; [0.110995]; [0.111277]; [0.111414];
    [0.111385]; [0.111186]; [0.110788]; [0.110203]; [0.109409]; [0.108455];
    [0.107447]; [0.106401]; [0.105314]; [0.101557]; [0.0946047]; [0.104894];
    [0.109788]; [0.118091]; [0.125476]; [0.125476]; [0.125476] ].

End QPLiterals.

(** ** Data model *)

Section DataModel.
Context {D : Type} `{Scalar D}.

(** Modelled from the spec: the reference trajectory of mpc_trajectory.hpp
    (not among the sources), "an ordered sequence of points, each with x, y,
    yaw, longitudinal velocity, curvature, smoothed curvature, relative time",
    kept as parallel arrays. *)
Record MPCTrajectory : Type := mkMPCTrajectory {
  x : list D;
  y : list D;
  z : list D;
  yaw : list D;
  vx : list D;
  k : list D;
  smooth_k : list D;
  relative_time : list D
}.

Record MPCTrajectoryPoint : Type := mkMPCTrajectoryPoint {
  pt_x : D;
  pt_y : D;
  pt_z : D;
  pt_yaw : D;
  pt_vx : D;
  pt_k : D;
  pt_smooth_k : D;
  pt_relative_time : D
}.

(** [std::vector::back()]; the C++ behaviour on an empty vector is undefined,
    the model returns zero there. *)
Definition back (l : list D) : D := last l (of_Q 0).

(** [MPCTrajectory::back()] *)
Definition traj_back (t : MPCTrajectory) : MPCTrajectoryPoint :=
  mkMPCTrajectoryPoint (back (x t)) (back (y t)) (back (z t)) (back (yaw t))
    (back (vx t)) (back (k t)) (back (smooth_k t)) (back (relative_time t)).

(** [MPCTrajectory::push_back(p)] *)
Definition traj_push_back (t : MPCTrajectory) (p : MPCTrajectoryPoint)
  : MPCTrajectory :=
  mkMPCTrajectory (x t ++ [pt_x p]) (y t ++ [pt_y p]) (z t ++ [pt_z p])
    (yaw t ++ [pt_yaw p]) (vx t ++ [pt_vx p]) (k t ++ [pt_k p])
    (smooth_k t ++ [pt_smooth_k p]) (relative_time t ++ [pt_relative_time p]).

(** Weights of the cost function (MPCWeight). *)
Record MPCWeight : Type := mkMPCWeight {
  lat_error : D;
  heading_error : D;
  heading_error_squared_vel : D;
  terminal_lat_error : D;
  terminal_heading_error : D;
  steering_input : D;
  steering_input_squared_vel : D;
  lat_jerk : D;
  steer_rate : D;
  steer_acc : D
}.

(** The members of [m_param] the control cycle reads (MPCParam). *)
Record MPCParam : Type := mkMPCParam {
  prediction_horizon : Z;       (* int *)
  prediction_dt : D;
  zero_ff_steer_deg : D;
  input_delay : D;
  acceleration_limit : D;
  velocity_time_constant : D;
  min_prediction_length : D;
  nominal_weight : MPCWeight
}.

(** Result of [getData]. *)
Record MPCData (Pose : Type) : Type := mkMPCData {
  nearest_idx : nat;            (* size_t *)
  nearest_time : D;
  nearest_pose : Pose;
  steer : D;
  predicted_steer : D;
  lateral_err : D;
  yaw_err : D
}.

(** The stacked prediction matrices. *)
Record MPCMatrix : Type := mkMPCMatrix {
  Aex : Matrix D;
  Bex : Matrix D;
  Wex : Matrix D;
  Cex : Matrix D;
  Qex : Matrix D;
  R1ex : Matrix D;
  R2ex : Matrix D;
  Uref_ex : Matrix D
}.

(** The part of the messages the controller reads or writes. *)
Record SteeringReport : Type := mkSteeringReport {
  report_steering_tire_angle : D        (* float *)
}.

Record Odometry (Pose : Type) : Type := mkOdometry {
  pose : Pose;                          (* pose.pose *)
  twist_linear_x : D                    (* twist.twist.linear.x *)
}.

Record AckermannLateralCommand : Type := mkAckermannLateralCommand {
  steering_tire_angle : D;              (* float *)
  steering_tire_rotation_rate : D       (* float *)
}.

(** The velocity and curvature a vehicle model is evaluated at
    ([setVelocity], [setCurvature]). *)
Record VehicleModel : Type := mkVehicleModel {
  m_velocity : D;
  m_curvature : D
}.

Definition setVelocity (vm : VehicleModel) (v : D) : VehicleModel :=
  mkVehicleModel v (m_curvature vm).

Definition setCurvature (vm : VehicleModel) (c : D) : VehicleModel :=
  mkVehicleModel (m_velocity vm) c.

End DataModel.

Arguments MPCTrajectory D : clear implicits.
Arguments MPCTrajectoryPoint D : clear implicits.
Arguments MPCWeight D : clear implicits.
Arguments MPCParam D : clear implicits.
Arguments MPCData D Pose : clear implicits.
Arguments MPCMatrix D : clear implicits.
Arguments SteeringReport D : clear implicits.
Arguments Odometry D Pose : clear implicits.
Arguments AckermannLateralCommand D : clear implicits.
Arguments VehicleModel D : clear implicits.
Arguments mkMPCData {D Pose}.
Arguments nearest_idx {D Pose}.
Arguments nearest_time {D Pose}.
Arguments nearest_pose {D Pose}.
Arguments steer {D Pose}.
Arguments predicted_steer {D Pose}.
Arguments lateral_err {D Pose}.
Arguments yaw_err {D Pose}.
Arguments mkOdometry {D Pose}.
Arguments pose {D Pose}.
Arguments twist_linear_x {D Pose}.

(** ** Collaborators

    The components the controller owns or calls but whose code lies outside
    mpc.cpp are interfaces; the controller is verified for all of their
    implementations. *)

(** The pluggable vehicle model (VehicleModelInterface). *)
Class VehicleModelInterface (D : Type) : Type := {
  getDimX : nat;
  getDimU : nat;
  getDimY : nat;
  modelName : string;
  getWheelbase : D;
  (* calculateDiscreteMatrix(Ad, Bd, Cd, Wd, dt) at the set velocity and
     curvature *)
  calculateDiscreteMatrix :
    VehicleModel D -> D -> Matrix D * Matrix D * Matrix D * Matrix D;
  (* calculateReferenceInput(Uref) *)
  calculateReferenceInput : VehicleModel D -> Matrix D
}.

(** The QP solver (QPSolverInterface): [solve(H, f, A, lb, ub, lbA, ubA, U)]
    returns its success flag and the solution, and may keep state. *)
Class QPSolverInterface (D Solver : Type) : Type := {
  solve : Solver -> Matrix D -> Matrix D -> Matrix D -> Matrix D -> Matrix D ->
          Matrix D -> Matrix D -> Solver * (bool * Matrix D)
}.

(** A low-pass filter with persistent state. *)
Class LowpassFilter (D Lpf : Type) : Type := {
  filter : Lpf -> D -> Lpf * D
}.

(** The steering predictor. *)
Class SteeringPredictor (D Predictor : Type) : Type := {
  calcSteerPrediction : Predictor -> Predictor * D;
  storeSteerCmd : Predictor -> D -> Predictor
}.

(** Trajectory and geometry utilities (MPCUtils, motion_utils,
    tier4_autoware_utils, interpolation, tf2). A [bool] result with output
    arguments is an [option]; a function that throws returns [None]. *)
Class TrajectoryUtils (D Pose TrajectoryPoint : Type) : Type := {
  convertToAutowareTrajectory : MPCTrajectory D -> list TrajectoryPoint;
  findFirstNearestIndexWithSoftConstraints :
    list TrajectoryPoint -> Pose -> D -> D -> nat;
  findFirstNearestSegmentIndexWithSoftConstraints :
    list TrajectoryPoint -> Pose -> D -> D -> nat;
  dynamicSmoothingVelocity :
    nat -> D -> D -> D -> MPCTrajectory D -> MPCTrajectory D;
  (* calcNearestPoseInterp(traj, pose, &nearest_pose, &nearest_idx,
     &nearest_time, dist_thr, yaw_thr) *)
  calcNearestPoseInterp :
    MPCTrajectory D -> Pose -> D -> D -> option (Pose * nat * D);
  calcLateralError : Pose -> Pose -> D;
  calcDistance2d : Pose -> Pose -> D;
  (* MPCUtils::calcDistance2d(traj, i, j) *)
  calcDistance2d_traj : MPCTrajectory D -> nat -> nat -> D;
  getYaw : Pose -> D;
  normalizeRadian : D -> D;
  deg2rad : D -> D;
  (* interpolation::lerp(base_keys, base_values, query_key) *)
  lerp : list D -> list D -> D -> option D;
  (* linearInterpMPCTrajectory(in_index, in_traj, out_index, out_traj) *)
  linearInterpMPCTrajectory :
    list D -> MPCTrajectory D -> list D -> option (MPCTrajectory D)
}.

(** What [calculatePredictedTrajectory] calls: the prediction of the vehicle
    model ([Aex, Bex, Cex, Wex, x0, Uex, reference_trajectory, dt]) and the
    clipping and conversion of MPCUtils. *)
Class Reporting (D Trajectory : Type) : Type := {
  calculatePredictedTrajectoryInWorldCoordinate :
    VehicleModel D -> Matrix D -> Matrix D -> Matrix D -> Matrix D ->
    Matrix D -> Matrix D -> MPCTrajectory D -> D -> MPCTrajectory D;
  calcMPCTrajectoryArcLength : MPCTrajectory D -> D;
  clipTrajectoryByLength : MPCTrajectory D -> D -> MPCTrajectory D;
  (* MPCUtils::convertToAutowareTrajectory, the message as a whole *)
  convertToAutowareTrajectoryMsg : MPCTrajectory D -> Trajectory
}.

(** The curvature-indexed weight table ([MPC::getWeight], declared in
    mpc.hpp). *)
Class WeightTable (D : Type) : Type := {
  getWeight : D -> MPCWeight D
}.

(** ** Outcomes of a call *)

Inductive Res (A : Type) : Type :=
| Ok (a : A)                  (* the call returns normally *)
| Fail (msg : string)         (* return fail_warn_throttle(msg), i.e. false *)
| Raise.                      (* a C++ exception leaves the function *)

Arguments Ok {A} a.
Arguments Fail {A} msg.
Arguments Raise {A}.

(** * Further interfaces

    Operations of the remaining functions of mpc.cpp that the [Scalar]
    interface and the collaborators above do not yet provide. *)

(** [operator<=]; [a >= b] is [b <= a]. *)
Class ScalarLe (D : Type) : Type := {
  dle : D -> D -> bool
}.

(** [<=] compares any two of the values at hand (none of them is NaN). *)
Class ScalarLeTotal (D : Type) `{ScalarLe D} : Prop := {
  dle_total : forall x y : D, dle x y = false -> dle y x = true
}.

(** [std::tan] and [std::atan]. *)
Class Trigonometry (D : Type) : Type := {
  dtan : D -> D;
  datan : D -> D
}.

(** What the QP solver reports of its latest solve. *)
Class QPSolverReport (D Solver : Type) : Type := {
  getTakenIter : Solver -> Z;
  getRunTime : Solver -> D;
  getObjVal : Solver -> D
}.

#[export] Instance QScalarLe : ScalarLe Q := {| dle := Qle_bool |}.


(** The parameters of [setReferenceTrajectory] (TrajectoryFilteringParam),
    with the fields the function reads. *)
Record TrajectoryFilteringParam (D : Type) : Type :=
  mkTrajectoryFilteringParam {
  traj_resample_dist : D;
  enable_path_smoothing : bool;
  path_filter_moving_ave_num : Z;                 (* int *)
  extend_trajectory_for_end_yaw_control : bool;
  curvature_smoothing_num_traj : Z;               (* int *)
  curvature_smoothing_num_ref_steer : Z           (* int *)
}.
Arguments mkTrajectoryFilteringParam {D}.
Arguments traj_resample_dist {D}.
Arguments enable_path_smoothing {D}.
Arguments path_filter_moving_ave_num {D}.
Arguments extend_trajectory_for_end_yaw_control {D}.
Arguments curvature_smoothing_num_traj {D}.
Arguments curvature_smoothing_num_ref_steer {D}.

(** What [setReferenceTrajectory] calls of MPCUtils, motion_utils,
    MoveAverageFilter and MPCTrajectory. A function that changes an argument
    in place returns the new value; a [bool] result with an output is an
    [option]. *)
Class TrajectoryFiltering (D Pose TrajectoryPoint TrajectoryMsg : Type)
  : Type := {
  msg_points : TrajectoryMsg -> list TrajectoryPoint;
  (* calcLongitudinalOffsetToSegment(points, seg_idx, pose.position) *)
  calcLongitudinalOffsetToSegment : list TrajectoryPoint -> nat -> Pose -> D;
  convertToMPCTrajectory : TrajectoryMsg -> MPCTrajectory D;
  resampleMPCTrajectoryByDistance :
    MPCTrajectory D -> D -> nat -> D -> option (MPCTrajectory D);
  toTrajectoryPoints : MPCTrajectory D -> list TrajectoryPoint;
  isDrivingForward : list TrajectoryPoint -> option bool;
  (* MPCTrajectory::size() *)
  size : MPCTrajectory D -> nat;
  filt_vector : Z -> list D -> option (list D);
  extendTrajectoryInYawDirection :
    D -> D -> bool -> MPCTrajectory D -> MPCTrajectory D;
  calcTrajectoryYawFromXY : MPCTrajectory D -> bool -> MPCTrajectory D;
  convertEulerAngleToMonotonic : list D -> list D;
  calcTrajectoryCurvature : Z -> Z -> MPCTrajectory D -> MPCTrajectory D
}.

(** [std::isinf], as Eigen's [isInf()] applies it to a coefficient. *)
Class ScalarInf (D : Type) : Type := {
  disinf : D -> bool
}.
(** ** The controller *)

Section Controller.
Context {D : Type} {SD : Scalar D} {TR : Trigonometry D}.
Context {Pose TrajectoryPoint Trajectory : Type}.
Context {Lpf Predictor Solver : Type}.
Context {VMI : VehicleModelInterface D}.
Context {QPS : QPSolverInterface D Solver}.
Context {QPR : QPSolverReport D Solver}.
Context {LPF : LowpassFilter D Lpf}.
Context {SP : SteeringPredictor D Predictor}.
Context {TU : TrajectoryUtils D Pose TrajectoryPoint}.
Context {REP : Reporting D Trajectory}.
Context {WT : WeightTable D}.

Local Open Scope double_scope.

(** The diagnostic message (Float32MultiArrayStamped), as its [data]. *)
Local Abbreviation Diagnostic := (list D).

(** *** Member state of [MPC] *)

Record MPC : Type := mkMPC {
  m_reference_trajectory : MPCTrajectory D;
  mpc_traj_raw : MPCTrajectory D;
  m_param : MPCParam D;
  m_input_buffer : list D;                (* std::deque<double> *)
  m_raw_steer_cmd_prev : D;
  m_raw_steer_cmd_pprev : D;
  m_lateral_error_prev : D;
  m_yaw_error_prev : D;
  m_is_forward_shift : bool;
  m_steer_lim : D;
  m_ctrl_period : D;
  m_admissible_position_error : D;
  m_admissible_yaw_error_rad : D;
  m_use_steer_prediction : bool;
  ego_nearest_dist_threshold : D;
  ego_nearest_yaw_threshold : D;
  m_lpf_steering_cmd : Lpf;
  m_lpf_lateral_error : Lpf;
  m_lpf_yaw_error : Lpf;
  m_steering_predictor : Predictor;       (* *m_steering_predictor *)
  m_vehicle_model : VehicleModel D;       (* *m_vehicle_model_ptr *)
  m_qpsolver : Solver                     (* *m_qpsolver_ptr *)
}.

(** Assignments to the members a control cycle writes. *)
Definition set_m_input_buffer (self : MPC) (v : list D) : MPC :=
  mkMPC (m_reference_trajectory self) (mpc_traj_raw self) (m_param self) v
    (m_raw_steer_cmd_prev self) (m_raw_steer_cmd_pprev self)
    (m_lateral_error_prev self) (m_yaw_error_prev self)
    (m_is_forward_shift self) (m_steer_lim self) (m_ctrl_period self)
    (m_admissible_position_error self) (m_admissible_yaw_error_rad self)
    (m_use_steer_prediction self) (ego_nearest_dist_threshold self)
    (ego_nearest_yaw_threshold self) (m_lpf_steering_cmd self)
    (m_lpf_lateral_error self) (m_lpf_yaw_error self)
    (m_steering_predictor self) (m_vehicle_model self) (m_qpsolver self).

Definition set_m_raw_steer_cmd_prev (self : MPC) (v : D) : MPC :=
  mkMPC (m_reference_trajectory self) (mpc_traj_raw self) (m_param self)
    (m_input_buffer self) v (m_raw_steer_cmd_pprev self)
    (m_lateral_error_prev self) (m_yaw_error_prev self)
    (m_is_forward_shift self) (m_steer_lim self) (m_ctrl_period self)
    (m_admissible_position_error self) (m_admissible_yaw_error_rad self)
    (m_use_steer_prediction self) (ego_nearest_dist_threshold self)
    (ego_nearest_yaw_threshold self) (m_lpf_steering_cmd self)
    (m_lpf_lateral_error self) (m_lpf_yaw_error self)
    (m_steering_predictor self) (m_vehicle_model self) (m_qpsolver self).

Definition set_m_raw_steer_cmd_pprev (self : MPC) (v : D) : MPC :=
  mkMPC (m_reference_trajectory self) (mpc_traj_raw self) (m_param self)
    (m_input_buffer self) (m_raw_steer_cmd_prev self) v
    (m_lateral_error_prev self) (m_yaw_error_prev self)
    (m_is_forward_shift self) (m_steer_lim self) (m_ctrl_period self)
    (m_admissible_position_error self) (m_admissible_yaw_error_rad self)
    (m_use_steer_prediction self) (ego_nearest_dist_threshold self)
    (ego_nearest_yaw_threshold self) (m_lpf_steering_cmd self)
    (m_lpf_lateral_error self) (m_lpf_yaw_error self)
    (m_steering_predictor self) (m_vehicle_model self) (m_qpsolver self).

Definition set_m_lateral_error_prev (self : MPC) (v : D) : MPC :=
  mkMPC (m_reference_trajectory self) (mpc_traj_raw self) (m_param self)
    (m_input_buffer self) (m_raw_steer_cmd_prev self)
    (m_raw_steer_cmd_pprev self) v (m_yaw_error_prev self)
    (m_is_forward_shift self) (m_steer_lim self) (m_ctrl_period self)
    (m_admissible_position_error self) (m_admissible_yaw_error_rad self)
    (m_use_steer_prediction self) (ego_nearest_dist_threshold self)
    (ego_nearest_yaw_threshold self) (m_lpf_steering_cmd self)
    (m_lpf_lateral_error self) (m_lpf_yaw_error self)
    (m_steering_predictor self) (m_vehicle_model self) (m_qpsolver self).

Definition set_m_yaw_error_prev (self : MPC) (v : D) : MPC :=
  mkMPC (m_reference_trajectory self) (mpc_traj_raw self) (m_param self)
    (m_input_buffer self) (m_raw_steer_cmd_prev self)
    (m_raw_steer_cmd_pprev self) (m_lateral_error_prev self) v
    (m_is_forward_shift self) (m_steer_lim self) (m_ctrl_period self)
    (m_admissible_position_error self) (m_admissible_yaw_error_rad self)
    (m_use_steer_prediction self) (ego_nearest_dist_threshold self)
    (ego_nearest_yaw_threshold self) (m_lpf_steering_cmd self)
    (m_lpf_lateral_error self) (m_lpf_yaw_error self)
    (m_steering_predictor self) (m_vehicle_model self) (m_qpsolver self).

Definition set_m_lpf_steering_cmd (self : MPC) (v : Lpf) : MPC :=
  mkMPC (m_reference_trajectory self) (mpc_traj_raw self) (m_param self)
    (m_input_buffer self) (m_raw_steer_cmd_prev self)
    (m_raw_steer_cmd_pprev self) (m_lateral_error_prev self)
    (m_yaw_error_prev self) (m_is_forward_shift self) (m_steer_lim self)
    (m_ctrl_period self) (m_admissible_position_error self)
    (m_admissible_yaw_error_rad self) (m_use_steer_prediction self)
    (ego_nearest_dist_threshold self) (ego_nearest_yaw_threshold self) v
    (m_lpf_lateral_error self) (m_lpf_yaw_error self)
    (m_steering_predictor self) (m_vehicle_model self) (m_qpsolver self).

Definition set_m_lpf_lateral_error (self : MPC) (v : Lpf) : MPC :=
  mkMPC (m_reference_trajectory self) (mpc_traj_raw self) (m_param self)
    (m_input_buffer self) (m_raw_steer_cmd_prev self)
    (m_raw_steer_cmd_pprev self) (m_lateral_error_prev self)
    (m_yaw_error_prev self) (m_is_forward_shift self) (m_steer_lim self)
    (m_ctrl_period self) (m_admissible_position_error self)
    (m_admissible_yaw_error_rad self) (m_use_steer_prediction self)
    (ego_nearest_dist_threshold self) (ego_nearest_yaw_threshold self)
    (m_lpf_steering_cmd self) v (m_lpf_yaw_error self)
    (m_steering_predictor self) (m_vehicle_model self) (m_qpsolver self).

Definition set_m_lpf_yaw_error (self : MPC) (v : Lpf) : MPC :=
  mkMPC (m_reference_trajectory self) (mpc_traj_raw self) (m_param self)
    (m_input_buffer self) (m_raw_steer_cmd_prev self)
    (m_raw_steer_cmd_pprev self) (m_lateral_error_prev self)
    (m_yaw_error_prev self) (m_is_forward_shift self) (m_steer_lim self)
    (m_ctrl_period self) (m_admissible_position_error self)
    (m_admissible_yaw_error_rad self) (m_use_steer_prediction self)
    (ego_nearest_dist_threshold self) (ego_nearest_yaw_threshold self)
    (m_lpf_steering_cmd self) (m_lpf_lateral_error self) v
    (m_steering_predictor self) (m_vehicle_model self) (m_qpsolver self).

Definition set_m_steering_predictor (self : MPC) (v : Predictor) : MPC :=
  mkMPC (m_reference_trajectory self) (mpc_traj_raw self) (m_param self)
    (m_input_buffer self) (m_raw_steer_cmd_prev self)
    (m_raw_steer_cmd_pprev self) (m_lateral_error_prev self)
    (m_yaw_error_prev self) (m_is_forward_shift self) (m_steer_lim self)
    (m_ctrl_period self) (m_admissible_position_error self)
    (m_admissible_yaw_error_rad self) (m_use_steer_prediction self)
    (ego_nearest_dist_threshold self) (ego_nearest_yaw_threshold self)
    (m_lpf_steering_cmd self) (m_lpf_lateral_error self)
    (m_lpf_yaw_error self) v (m_vehicle_model self) (m_qpsolver self).

Definition set_m_vehicle_model (self : MPC) (v : VehicleModel D) : MPC :=
  mkMPC (m_reference_trajectory self) (mpc_traj_raw self) (m_param self)
    (m_input_buffer self) (m_raw_steer_cmd_prev self)
    (m_raw_steer_cmd_pprev self) (m_lateral_error_prev self)
    (m_yaw_error_prev self) (m_is_forward_shift self) (m_steer_lim self)
    (m_ctrl_period self) (m_admissible_position_error self)
    (m_admissible_yaw_error_rad self) (m_use_steer_prediction self)
    (ego_nearest_dist_threshold self) (ego_nearest_yaw_threshold self)
    (m_lpf_steering_cmd self) (m_lpf_lateral_error self)
    (m_lpf_yaw_error self) (m_steering_predictor self) v (m_qpsolver self).

Definition set_m_qpsolver (self : MPC) (v : Solver) : MPC :=
  mkMPC (m_reference_trajectory self) (mpc_traj_raw self) (m_param self)
    (m_input_buffer self) (m_raw_steer_cmd_prev self)
    (m_raw_steer_cmd_pprev self) (m_lateral_error_prev self)
    (m_yaw_error_prev self) (m_is_forward_shift self) (m_steer_lim self)
    (m_ctrl_period self) (m_admissible_position_error self)
    (m_admissible_yaw_error_rad self) (m_use_steer_prediction self)
    (ego_nearest_dist_threshold self) (ego_nearest_yaw_threshold self)
    (m_lpf_steering_cmd self) (m_lpf_lateral_error self)
    (m_lpf_yaw_error self) (m_steering_predictor self)
    (m_vehicle_model self) v.
(** The history a cycle leaves for the next one: the delay buffer and the
    two previous raw commands. *)
Definition history (self : MPC) : list D * D * D :=
  (m_input_buffer self, m_raw_steer_cmd_prev self, m_raw_steer_cmd_pprev self).

(** *** State and early exit *)

Definition M (A : Type) : Type := MPC -> MPC * Res A.

Definition ret {A} (a : A) : M A := fun self => (self, Ok a).

Definition bind {A B} (m : M A) (f : A -> M B) : M B :=
  fun self =>
    match m self with
    | (self', Ok a) => f a self'
    | (self', Fail msg) => (self', Fail msg)
    | (self', Raise) => (self', Raise)
    end.

Definition fail_warn_throttle {A} (msg : string) : M A :=
  fun self => (self, Fail msg).

Definition raise {A} : M A := fun self => (self, Raise).

Definition get : M MPC := fun self => (self, Ok self).

Definition modify (f : MPC -> MPC) : M unit := fun self => (f self, Ok tt).

Notation "x <- m ;; f" := (bind m (fun x => f))
  (at level 61, m at next level, right associativity).
Notation "m ;;; f" := (bind m (fun _ => f))
  (at level 61, right associativity).

(** [const auto [success, v] = m;
    if (!success) return fail_warn_throttle(msg);] *)
Definition or_fail {A} (m : M (option A)) (msg : string) : M A :=
  r <- m ;;
  match r with
  | Some a => ret a
  | None => fail_warn_throttle msg
  end.

(** [v.at(i)], which throws [std::out_of_range]. *)
Definition at_ (v : list D) (i : nat) : option D := nth_error v i.

(** The call of a member function that an exception can leave, [None] being
    the exception: it leaves the caller too. *)
Definition or_raise {A} (r : option A) : M A :=
  match r with
  | Some a => ret a
  | None => raise
  end.

(** *** applyVelocityDynamicsFilter *)

Definition applyVelocityDynamicsFilter (self : MPC) (input : MPCTrajectory D)
    (current_kinematics : Odometry D Pose) : MPCTrajectory D :=
  let autoware_traj := convertToAutowareTrajectory input in
  match autoware_traj with
  | [] => input
  | _ :: _ =>
      let nearest_seg_idx :=
        findFirstNearestSegmentIndexWithSoftConstraints autoware_traj
          (pose current_kinematics) (ego_nearest_dist_threshold self)
          (ego_nearest_yaw_threshold self) in
      let output :=
        dynamicSmoothingVelocity nearest_seg_idx
          (twist_linear_x current_kinematics)
          (acceleration_limit (m_param self))
          (velocity_time_constant (m_param self)) input in
      let last_point := traj_back output in
      let last_point :=
        mkMPCTrajectoryPoint (pt_x last_point) (pt_y last_point)
          (pt_z last_point) (pt_yaw last_point) (of_Q 0) (pt_k last_point)
          (pt_smooth_k last_point) (pt_relative_time last_point + of_Q 100) in
      traj_push_back output last_point
  end.

(** *** getData *)

(** The end of the time span a cycle needs on the trajectory. *)
Definition end_time (self : MPC) (nearest_time : D) : D :=
  let max_prediction_time :=
    min_prediction_length (m_param self) /
    of_Z (prediction_horizon (m_param self) - 1) in
  nearest_time + input_delay (m_param self) + m_ctrl_period self +
  max_prediction_time.

Definition getData (traj : MPCTrajectory D) (current_steer : SteeringReport D)
    (current_kinematics : Odometry D Pose) : M (option (MPCData D Pose)) :=
  fun self =>
  let current_pose := pose current_kinematics in
  match calcNearestPoseInterp traj current_pose
          (ego_nearest_dist_threshold self) (ego_nearest_yaw_threshold self) with
  | None => (self, Ok None)
  | Some (nearest_pose, nearest_idx, nearest_time) =>
      let steer := report_steering_tire_angle current_steer in
      let lateral_err := calcLateralError current_pose nearest_pose in
      let yaw_err :=
        normalizeRadian (getYaw current_pose - getYaw nearest_pose) in
      let (predictor, predicted_steer) :=
        calcSteerPrediction (m_steering_predictor self) in
      let self := set_m_steering_predictor self predictor in
      let data :=
        mkMPCData nearest_idx nearest_time nearest_pose steer predicted_steer
          lateral_err yaw_err in
      let dist_err := calcDistance2d current_pose nearest_pose in
      if dist_err >? m_admissible_position_error self then (self, Ok None)
      else if dfabs yaw_err >? m_admissible_yaw_error_rad self
      then (self, Ok None)
      else if end_time self nearest_time >? back (relative_time traj)
      then (self, Ok None)
      else (self, Ok (Some data))
  end.

(** *** resampleMPCTrajectoryByTime *)

Definition resampleMPCTrajectoryByTime (self : MPC) (ts prediction_dt : D)
    (input : MPCTrajectory D) : option (MPCTrajectory D) :=
  let mpc_time_v :=
    map (fun i => ts + of_Z (Z.of_nat i) * prediction_dt)
        (seq 0 (Z.to_nat (prediction_horizon (m_param self)))) in
  linearInterpMPCTrajectory (relative_time input) input mpc_time_v.

(** *** getInitialState *)

Definition getInitialState (data : MPCData D Pose) : M (Matrix D) :=
  fun self =>
  let DIM_X := getDimX in
  let x0 := Zero DIM_X 1 in
  let lat_err := lateral_err data in
  let steer :=
    if m_use_steer_prediction self then predicted_steer data else steer data in
  let yaw_err := yaw_err data in
  let vehicle_model := modelName in
  if String.eqb vehicle_model "kinematics" then
    (self, Ok (of_col DIM_X [lat_err; yaw_err; steer]))
  else if String.eqb vehicle_model "kinematics_no_delay" then
    (self, Ok (of_col DIM_X [lat_err; yaw_err]))
  else if String.eqb vehicle_model "dynamics" then
    let dlat := (lat_err - m_lateral_error_prev self) / m_ctrl_period self in
    let dyaw := (yaw_err - m_yaw_error_prev self) / m_ctrl_period self in
    let self := set_m_lateral_error_prev self lat_err in
    let self := set_m_yaw_error_prev self yaw_err in
    let (lpf_lat, dlat) := filter (m_lpf_lateral_error self) dlat in
    let self := set_m_lpf_lateral_error self lpf_lat in
    let (lpf_yaw, dyaw) := filter (m_lpf_yaw_error self) dyaw in
    let self := set_m_lpf_yaw_error self lpf_yaw in
    (self, Ok (of_col DIM_X [lat_err; dlat; yaw_err; dyaw]))
  else
    (self, Ok x0).

(** *** updateStateForDelayCompensation *)

(** The loop over the buffered inputs; [None] is the caught interpolation
    exception. *)
Fixpoint delay_loop (ctrl_period : D) (traj : MPCTrajectory D)
    (inputs : list D) (x_curr : Matrix D) (mpc_curr_time : D)
    (vm : VehicleModel D) : VehicleModel D * option (Matrix D) :=
  match inputs with
  | [] => (vm, Some x_curr)
  | u :: rest =>
      match lerp (relative_time traj) (k traj) mpc_curr_time,
            lerp (relative_time traj) (vx traj) mpc_curr_time with
      | Some k, Some v =>
          let vm := setVelocity vm v in
          let vm := setCurvature vm k in
          let '(Ad, Bd, Cd, Wd) := calculateDiscreteMatrix vm ctrl_period in
          let ud := set_coeff (Zero getDimU 1) 0 0 u in
          let x_curr := madd (madd (mmul Ad x_curr) (mmul Bd ud)) Wd in
          delay_loop ctrl_period traj rest x_curr
            (mpc_curr_time + ctrl_period) vm
      | _, _ => (vm, None)
      end
  end.

Definition updateStateForDelayCompensation (traj : MPCTrajectory D)
    (start_time : D) (x0_orig : Matrix D) : M (option (Matrix D)) :=
  fun self =>
  let (vm, r) :=
    delay_loop (m_ctrl_period self) traj (m_input_buffer self) x0_orig
      start_time (m_vehicle_model self) in
  (set_m_vehicle_model self vm, Ok r).

(** *** getPredictionDeltaTime *)

(** The body of the loop [for (i = nearest_idx + 1; i < size; i++)] that
    looks for the point where the travelled distance exceeds
    [min_prediction_length]; [idxs] are the values of [i] still to visit and
    [sum_dist] the distance accumulated so far. [None]: the loop ran to its
    end. *)
Fixpoint target_time_loop (self : MPC) (input : MPCTrajectory D)
    (idxs : list nat) (sum_dist : D) : option D :=
  match idxs with
  | [] => None
  | i :: rest =>
      let t_ext := of_Q 100 in
      let segment_dist := calcDistance2d_traj input i (i - 1) in
      let sum_dist := sum_dist + segment_dist in
      if min_prediction_length (m_param self) <? sum_dist then
        let prev_sum_dist := sum_dist - segment_dist in
        let ratio :=
          (min_prediction_length (m_param self) - prev_sum_dist) /
          segment_dist in
        let relative_time_at_i :=
          if (i =? List.length (relative_time input) - 1)%nat
          then nth i (relative_time input) (of_Q 0) - t_ext
          else nth i (relative_time input) (of_Q 0) in
        Some (nth (i - 1) (relative_time input) (of_Q 0) +
              (relative_time_at_i - nth (i - 1) (relative_time input) (of_Q 0))
              * ratio)
      else target_time_loop self input rest sum_dist
  end.

(** The value of the lambda [target_time]. *)
Definition target_time (self : MPC) (input : MPCTrajectory D)
    (current_kinematics : Odometry D Pose) : D :=
  let autoware_traj := convertToAutowareTrajectory input in
  let nearest_idx :=
    findFirstNearestIndexWithSoftConstraints autoware_traj
      (pose current_kinematics) (ego_nearest_dist_threshold self)
      (ego_nearest_yaw_threshold self) in
  let t_ext := of_Q 100 in
  match target_time_loop self input
          (seq (nearest_idx + 1)
               (List.length (relative_time input) - (nearest_idx + 1)))
          (of_Q 0) with
  | Some t => t
  | None => back (relative_time input) - t_ext
  end.

Definition getPredictionDeltaTime (self : MPC) (start_time : D)
    (input : MPCTrajectory D) (current_kinematics : Odometry D Pose) : D :=
  let dt :=
    (target_time self input current_kinematics - start_time) /
    of_Z (prediction_horizon (m_param self) - 1) in
  std_max dt (prediction_dt (m_param self)).

(** *** generateMPCMatrix *)

(** The inner loop [for (j = 0; j < i; ++j)] on [Bex]. *)
Definition Bex_row (Ad : Matrix D) (i : nat) (B : Matrix D) : Matrix D :=
  let DIM_X := getDimX in
  let DIM_U := getDimU in
  let idx_x_i := (i * DIM_X)%nat in
  let idx_x_i_prev := ((i - 1) * DIM_X)%nat in
  fold_left
    (fun B j =>
       let idx_u_j := (j * DIM_U)%nat in
       set_block B idx_x_i idx_u_j DIM_X DIM_U
         (mmul Ad (block B idx_x_i_prev idx_u_j DIM_X DIM_U)))
    (seq 0 i) B.

(** The feed-forward input of a step, with the dead band applied. *)
Definition reference_input (self : MPC) (vm : VehicleModel D) : Matrix D :=
  let Uref := calculateReferenceInput vm in
  if dfabs (coeff Uref 0 0) <? deg2rad (zero_ff_steer_deg (m_param self))
  then set_coeff Uref 0 0 (of_Q 0)      (* ignore curvature noise *)
  else Uref.

(** One pass of the loop [for (i = 0; i < N; ++i)]; [None] when an [at(i)]
    throws. *)
Definition gen_step (self : MPC) (reference_trajectory : MPCTrajectory D)
    (DT : D) (i : nat) (m : MPCMatrix D) (vm : VehicleModel D)
  : option (MPCMatrix D * VehicleModel D) :=
  let N := prediction_horizon (m_param self) in
  let DIM_X := getDimX in
  let DIM_U := getDimU in
  let DIM_Y := getDimY in
  let sign_vx := if m_is_forward_shift self then of_Q 1 else of_Q (-1) in
  match at_ (vx reference_trajectory) i, at_ (k reference_trajectory) i,
        at_ (smooth_k reference_trajectory) i with
  | Some ref_vx, Some k_i, Some smooth_k_i =>
      let ref_vx_squared := ref_vx * ref_vx in
      let ref_k := k_i * sign_vx in
      let ref_smooth_k := smooth_k_i * sign_vx in
      (* get discrete state matrix A, B, C, W *)
      let vm := setVelocity vm ref_vx in
      let vm := setCurvature vm ref_k in
      let '(Ad, Bd, Cd, Wd) := calculateDiscreteMatrix vm DT in
      let Q := Zero DIM_Y DIM_Y in
      let R := Zero DIM_U DIM_U in
      let mpc_weight := getWeight ref_k in
      let Q := set_coeff Q 0 0 (lat_error mpc_weight) in
      let Q := set_coeff Q 1 1 (heading_error mpc_weight) in
      let R := set_coeff R 0 0 (steering_input mpc_weight) in
      let Q_adaptive := Q in
      let R_adaptive := R in
      let Q_adaptive :=
        if (Z.of_nat i =? N - 1)%Z then
          set_coeff
            (set_coeff Q_adaptive 0 0
               (terminal_lat_error (nominal_weight (m_param self))))
            1 1 (terminal_heading_error (nominal_weight (m_param self)))
        else Q_adaptive in
      let Q_adaptive :=
        add_coeff Q_adaptive 1 1
          (ref_vx_squared * heading_error_squared_vel mpc_weight) in
      let R_adaptive :=
        add_coeff R_adaptive 0 0
          (ref_vx_squared * steering_input_squared_vel mpc_weight) in
      (* update mpc matrix *)
      let idx_x_i := (i * DIM_X)%nat in
      let idx_x_i_prev := ((i - 1) * DIM_X)%nat in
      let idx_u_i := (i * DIM_U)%nat in
      let idx_y_i := (i * DIM_Y)%nat in
      let A1 :=
        if (i =? 0)%nat then set_block (Aex m) 0 0 DIM_X DIM_X Ad
        else set_block (Aex m) idx_x_i 0 DIM_X DIM_X
               (mmul Ad (block (Aex m) idx_x_i_prev 0 DIM_X DIM_X)) in
      let B1 :=
        if (i =? 0)%nat then set_block (Bex m) 0 0 DIM_X DIM_U Bd
        else Bex_row Ad i (Bex m) in
      let W1 :=
        if (i =? 0)%nat then set_block (Wex m) 0 0 DIM_X 1 Wd
        else set_block (Wex m) idx_x_i 0 DIM_X 1
               (madd (mmul Ad (block (Wex m) idx_x_i_prev 0 DIM_X 1)) Wd) in
      let B2 := set_block B1 idx_x_i idx_u_i DIM_X DIM_U Bd in
      let C1 := set_block (Cex m) idx_y_i idx_x_i DIM_Y DIM_X Cd in
      let Q1 := set_block (Qex m) idx_y_i idx_y_i DIM_Y DIM_Y Q_adaptive in
      let R1 := set_block (R1ex m) idx_u_i idx_u_i DIM_U DIM_U R_adaptive in
      (* get reference input (feed-forward) *)
      let vm := setCurvature vm ref_smooth_k in
      let Uref := reference_input self vm in
      let U1 := set_block (Uref_ex m) (i * DIM_U) 0 DIM_U 1 Uref in
      Some (mkMPCMatrix A1 B2 W1 C1 Q1 R1 (R2ex m) U1, vm)
  | _, _, _ => None
  end.

Fixpoint gen_loop (self : MPC) (reference_trajectory : MPCTrajectory D)
    (DT : D) (idxs : list nat) (m : MPCMatrix D) (vm : VehicleModel D)
  : VehicleModel D * option (MPCMatrix D) :=
  match idxs with
  | [] => (vm, Some m)
  | i :: rest =>
      match gen_step self reference_trajectory DT i m vm with
      | Some (m, vm) => gen_loop self reference_trajectory DT rest m vm
      | None => (vm, None)
      end
  end.

(** The loop adding the lateral-jerk weight to [R2ex]. *)
Fixpoint jerk_loop (self : MPC) (reference_trajectory : MPCTrajectory D)
    (DT : D) (idxs : list nat) (R2 : Matrix D) : option (Matrix D) :=
  match idxs with
  | [] => Some R2
  | i :: rest =>
      let sign_vx := if m_is_forward_shift self then of_Q 1 else of_Q (-1) in
      match at_ (vx reference_trajectory) i, at_ (k reference_trajectory) i with
      | Some ref_vx, Some k_i =>
          let ref_k := k_i * sign_vx in
          let j := ref_vx * ref_vx * lat_jerk (getWeight ref_k) / (DT * DT) in
          let J := of_rows 2 2 [[j; - j]; [- j; j]] in
          jerk_loop self reference_trajectory DT rest (add_block R2 i i 2 2 J)
      | _, _ => None
      end
  end.

(** [addSteerWeightR] *)
Definition addSteerWeightR (self : MPC) (prediction_dt : D) (R : Matrix D)
  : Matrix D :=
  let N := prediction_horizon (m_param self) in
  let DT := prediction_dt in
  let ctrl_period := m_ctrl_period self in
  let weight := nominal_weight (m_param self) in
  (* add steering rate : weight for (u(i) - u(i-1) / dt )^2 *)
  let steer_rate_r := steer_rate weight / (DT * DT) in
  let D2 :=
    mscale steer_rate_r
      (of_rows 2 2 [[of_Q 1; of_Q (-1)]; [of_Q (-1); of_Q 1]]) in
  let R :=
    fold_left (fun R i => add_block R i i 2 2 D2)
              (seq 0 (Z.to_nat (N - 1))) R in
  let R :=
    if (1 <? N)%Z
    then add_coeff R 0 0 (steer_rate weight / (ctrl_period * ctrl_period))
    else R in
  (* add steering acceleration *)
  let w := steer_acc weight in
  let steer_acc_r := w / dpow DT (of_Q 4) in
  let steer_acc_r_cp1 := w / (dpow DT (of_Q 3) * ctrl_period) in
  let steer_acc_r_cp2 := w / (dpow DT (of_Q 2) * dpow ctrl_period (of_Q 2)) in
  let steer_acc_r_cp4 := w / dpow ctrl_period (of_Q 4) in
  let D3 :=
    mscale steer_acc_r
      (of_rows 3 3 [[of_Q 1; of_Q (-2); of_Q 1];
                    [of_Q (-2); of_Q 4; of_Q (-2)];
                    [of_Q 1; of_Q (-2); of_Q 1]]) in
  let R :=
    fold_left (fun R i => add_block R (i - 1) (i - 1) 3 3 D3)
              (seq 1 (Z.to_nat (N - 1) - 1)) R in
  if (1 <? N)%Z then
    (* steer acc i = 1 *)
    let R :=
      add_coeff R 0 0
        (steer_acc_r * of_Q 1 + steer_acc_r_cp2 * of_Q 1 +
         steer_acc_r_cp1 * of_Q 2) in
    let R :=
      add_coeff R 1 0 (steer_acc_r * of_Q (-1) + steer_acc_r_cp1 * of_Q (-1)) in
    let R :=
      add_coeff R 0 1 (steer_acc_r * of_Q (-1) + steer_acc_r_cp1 * of_Q (-1)) in
    let R := add_coeff R 1 1 (steer_acc_r * of_Q 1) in
    (* steer acc i = 0 *)
    add_coeff R 0 0 (steer_acc_r_cp4 * of_Q 1)
  else R.

(** [addSteerWeightF]: the share of the two previous raw commands in the
    linear term of the cost. Nothing in mpc.cpp calls it. [None]: [f] has two
    or more rows but fewer than two columns, so that a coefficient the
    function writes, [f(0, 0)] or [f(0, 1)], lies outside the matrix (an
    assertion of Eigen fails, or memory outside the matrix is written). *)
Definition addSteerWeightF (self : MPC) (prediction_dt : D) (f : Matrix D)
  : option (Matrix D) :=
  if (rows f <? 2)%nat then Some f
  else if (cols f <? 2)%nat then None
  else
    let DT := prediction_dt in
    let ctrl_period := m_ctrl_period self in
    let weight := nominal_weight (m_param self) in
    (* steer rate for i = 0 *)
    let f :=
      add_coeff f 0 0
        (of_Q (-2) * steer_rate weight / dpow DT (of_Q 2) * of_Q 0.5) in
    let steer_acc_r_cp1 :=
      steer_acc weight / (dpow DT (of_Q 3) * ctrl_period) in
    let steer_acc_r_cp2 :=
      steer_acc weight / (dpow DT (of_Q 2) * dpow ctrl_period (of_Q 2)) in
    let steer_acc_r_cp4 := steer_acc weight / dpow ctrl_period (of_Q 4) in
    (* steer acc  i = 0 *)
    let f :=
      add_coeff f 0 0
        ((of_Q (-2) * m_raw_steer_cmd_prev self + m_raw_steer_cmd_pprev self)
         * steer_acc_r_cp4 * of_Q 0.5) in
    (* steer acc for i = 1 *)
    let f :=
      add_coeff f 0 0
        (of_Q (-2) * m_raw_steer_cmd_prev self
         * (steer_acc_r_cp1 + steer_acc_r_cp2) * of_Q 0.5) in
    Some
      (add_coeff f 0 1
         (of_Q 2 * m_raw_steer_cmd_prev self * steer_acc_r_cp1 * of_Q 0.5)).

(** The matrices after the first loop of [generateMPCMatrix]. *)
Definition predict_dynamics (self : MPC)
    (reference_trajectory : MPCTrajectory D) (DT : D) (vm : VehicleModel D)
  : VehicleModel D * option (MPCMatrix D) :=
  let N := Z.to_nat (prediction_horizon (m_param self)) in
  let DIM_X := getDimX in
  let DIM_U := getDimU in
  let DIM_Y := getDimY in
  let m :=
    mkMPCMatrix (Zero (DIM_X * N) DIM_X) (Zero (DIM_X * N) (DIM_U * N))
      (Zero (DIM_X * N) 1) (Zero (DIM_Y * N) (DIM_X * N))
      (Zero (DIM_Y * N) (DIM_Y * N)) (Zero (DIM_U * N) (DIM_U * N))
      (Zero (DIM_U * N) (DIM_U * N)) (Zero (DIM_U * N) 1) in
  gen_loop self reference_trajectory DT (seq 0 N) m vm.

Definition generateMPCMatrix (reference_trajectory : MPCTrajectory D)
    (prediction_dt : D) : M (MPCMatrix D) :=
  fun self =>
  let N := prediction_horizon (m_param self) in
  let DT := prediction_dt in
  match predict_dynamics self reference_trajectory DT (m_vehicle_model self) with
  | (vm, None) => (set_m_vehicle_model self vm, Raise)
  | (vm, Some m) =>
      let self := set_m_vehicle_model self vm in
      (* add lateral jerk : weight for (v * {u(i) - u(i-1)} )^2 *)
      match jerk_loop self reference_trajectory DT
              (seq 0 (Z.to_nat (N - 1))) (R2ex m) with
      | None => (self, Raise)
      | Some R2 =>
          let R1 := addSteerWeightR self prediction_dt (R1ex m) in
          (self,
           Ok (mkMPCMatrix (Aex m) (Bex m) (Wex m) (Cex m) (Qex m) R1 R2
                 (Uref_ex m)))
      end
  end.

(** *** executeOptimization *)

(** The QP handed to the solver: [(H, f.transpose(), A, lb, ub, lbA, ubA)]. *)
Definition qp_problem (m : MPCMatrix D) (x0 : Matrix D) (prediction_dt : D)
    (traj : MPCTrajectory D) (current_velocity : D)
  : Matrix D * Matrix D * Matrix D * Matrix D * Matrix D * Matrix D * Matrix D :=
  let lit r c l := of_rows r c (map (map of_Q) l) in
  let H := lit 50 50 QPLiterals.H in
  let f := lit 1 50 QPLiterals.f in
  let A := lit 50 50 QPLiterals.A in
  let lb := lit 50 1 QPLiterals.lb in
  let ub := lit 50 1 QPLiterals.ub in
  let lbA := lit 50 1 QPLiterals.lbA in
  let ubA := lit 50 1 QPLiterals.ubA in
  (H, transpose f, A, lb, ub, lbA, ubA).

Definition executeOptimization (m : MPCMatrix D) (x0 : Matrix D)
    (prediction_dt : D) (traj : MPCTrajectory D) (current_velocity : D)
  : M (option (Matrix D)) :=
  fun self =>
  let '(H, ft, A, lb, ub, lbA, ubA) :=
    qp_problem m x0 prediction_dt traj current_velocity in
  let '(solver, (solve_result, Uex)) :=
    solve (m_qpsolver self) H ft A lb ub lbA ubA in
  let self := set_m_qpsolver self solver in
  if negb solve_result then (self, Ok None)
  else if any_isnan Uex then (self, Ok None)
  else (self, Ok (Some Uex)).

(** *** calcDesiredSteeringRate *)

Definition calcDesiredSteeringRate (mpc_matrix : MPCMatrix D)
    (x0 Uex : Matrix D) (u_filtered current_steer predict_dt : D) : D :=
  if negb (String.eqb modelName "kinematics") then
    (* not supported yet. Use old implementation. *)
    (u_filtered - current_steer) / predict_dt
  else
    let m := mpc_matrix in
    let Xex := madd (madd (mmul (Aex m) x0) (mmul (Bex m) Uex)) (Wex m) in
    let STEER_IDX := 2%nat in
    let steer_0 := coeff x0 STEER_IDX 0 in
    let steer_1 := coeff Xex STEER_IDX 0 in
    (steer_1 - steer_0) / predict_dt.

(** *** calculatePredictedTrajectory *)

(** With [m_debug_publish_predicted_trajectory] set, the function also
    publishes the prediction in Frenet coordinates on a debug topic; like the
    warnings and the dumps to [std::cerr], what is only written out is not
    part of the model. *)
Definition calculatePredictedTrajectory (self : MPC) (mpc_matrix : MPCMatrix D)
    (x0 Uex : Matrix D) (reference_trajectory : MPCTrajectory D) (dt : D)
  : Trajectory :=
  let predicted_mpc_trajectory :=
    calculatePredictedTrajectoryInWorldCoordinate (m_vehicle_model self)
      (Aex mpc_matrix) (Bex mpc_matrix) (Cex mpc_matrix) (Wex mpc_matrix)
      x0 Uex reference_trajectory dt in
  (* do not over the reference trajectory *)
  let predicted_length := calcMPCTrajectoryArcLength reference_trajectory in
  let clipped_trajectory :=
    clipTrajectoryByLength predicted_mpc_trajectory predicted_length in
  convertToAutowareTrajectoryMsg clipped_trajectory.

(** *** generateDiagData *)

(** [generateDiagData]: the values of [diagnostic.data], each cast to
    float; [None] when an [at(nearest_idx)] throws. *)
Definition generateDiagData (self : MPC)
    (reference_trajectory : MPCTrajectory D)
    (mpc_data_traj_raw mpc_data : MPCData D Pose) (mpc_matrix : MPCMatrix D)
    (ctrl_cmd : AckermannLateralCommand D) (Uex : Matrix D)
    (current_kinematics : Odometry D Pose) : option (list D) :=
  match at_ (k reference_trajectory) (nearest_idx mpc_data),
        at_ (smooth_k reference_trajectory) (nearest_idx mpc_data),
        at_ (vx reference_trajectory) (nearest_idx mpc_data) with
  | Some nearest_k, Some nearest_smooth_k, Some nearest_vx =>
      let wb := getWheelbase in
      let current_velocity := twist_linear_x current_kinematics in
      let wz_predicted :=
        current_velocity * dtan (predicted_steer mpc_data) / wb in
      let wz_measured := current_velocity * dtan (steer mpc_data) / wb in
      let wz_command :=
        current_velocity * dtan (steering_tire_angle ctrl_cmd) / wb in
      let iteration_num := getTakenIter (m_qpsolver self) in
      let runtime := getRunTime (m_qpsolver self) in
      let objective_value := getObjVal (m_qpsolver self) in
      Some
        (map to_float
           [ steering_tire_angle ctrl_cmd;
             coeff Uex 0 0;
             coeff (Uref_ex mpc_matrix) 0 0;
             datan (nearest_smooth_k * wb);
             steer mpc_data;
             lateral_err mpc_data;
             getYaw (pose current_kinematics);
             getYaw (nearest_pose mpc_data);
             yaw_err mpc_data;
             nearest_vx;
             current_velocity;
             wz_command;
             wz_measured;
             current_velocity * nearest_smooth_k;
             nearest_smooth_k;
             nearest_k;
             predicted_steer mpc_data;
             wz_predicted;
             of_Z iteration_num;
             runtime;
             objective_value;
             std_clamp (coeff Uex 0 0) (- m_steer_lim self) (m_steer_lim self);
             lateral_err mpc_data_traj_raw ])
  | _, _, _ => None
  end.

(** *** calculateMPC *)

(** [std::deque::pop_front()] *)
Definition pop_front (q : list D) : list D := tl q.

(** [std::deque::push_back(v)] *)
Definition push_back (q : list D) (v : D) : list D := q ++ [v].

(** [m_lpf_steering_cmd.filter(u)] *)
Definition lpf_steering_cmd_filter (u : D) : M D :=
  fun self =>
  let (lpf, u_filtered) := filter (m_lpf_steering_cmd self) u in
  (set_m_lpf_steering_cmd self lpf, Ok u_filtered).

(** One control cycle. On success the command, the predicted trajectory and
    the diagnostic are returned (in C++, written to the output arguments and
    [true] returned). The exceptions of [generateMPCMatrix] and of
    [generateDiagData] leave the cycle; when the latter throws, the members
    are written already (and so is the output argument [ctrl_cmd], which
    [Raise] does not carry). *)
Definition calculateMPC (current_steer : SteeringReport D)
    (current_kinematics : Odometry D Pose)
  : M (AckermannLateralCommand D * Trajectory * Diagnostic) :=
  self <- get ;;
  let reference_trajectory :=
    applyVelocityDynamicsFilter self (m_reference_trajectory self)
      current_kinematics in
  (* get the necessary data *)
  mpc_data <-
    or_fail (getData reference_trajectory current_steer current_kinematics)
      "fail to get MPC Data. Stop MPC." ;;
  (* calculate initial state of the error dynamics *)
  x0 <- getInitialState mpc_data ;;
  (* apply time delay compensation to the initial state *)
  x0_delayed <-
    or_fail (updateStateForDelayCompensation reference_trajectory
               (nearest_time mpc_data) x0)
      "delay compensation failed. Stop MPC." ;;
  (* resample reference trajectory with mpc sampling time *)
  let mpc_start_time := nearest_time mpc_data + input_delay (m_param self) in
  let prediction_dt :=
    getPredictionDeltaTime self mpc_start_time reference_trajectory
      current_kinematics in
  mpc_resampled_ref_trajectory <-
    or_fail (ret (resampleMPCTrajectoryByTime self mpc_start_time
                    prediction_dt reference_trajectory))
      "trajectory resampling failed. Stop MPC." ;;
  (* get the diagnostic data *)
  mpc_data_for_diagnostic <-
    or_fail (getData mpc_resampled_ref_trajectory current_steer
               current_kinematics)
      "fail to get MPC Data for the diagnostic. Stop MPC." ;;
  (* get the diagnostic data w.r.t. the original trajectory *)
  mpc_data_traj_raw <-
    or_fail (getData (mpc_traj_raw self) current_steer current_kinematics)
      "fail to get MPC Data for the raw trajectory. Stop MPC." ;;
  (* generate mpc matrix : predict equation Xec = Aex * x0 + Bex * Uex + Wex *)
  mpc_matrix <- generateMPCMatrix mpc_resampled_ref_trajectory prediction_dt ;;
  (* solve Optimization problem *)
  Uex <-
    or_fail (executeOptimization mpc_matrix x0_delayed prediction_dt
               mpc_resampled_ref_trajectory
               (twist_linear_x current_kinematics))
      "optimization failed. Stop MPC." ;;
  (* apply filters for the input limitation and low pass filter *)
  let u_saturated :=
    std_clamp (coeff Uex 0 0) (- m_steer_lim self) (m_steer_lim self) in
  u_filtered <- lpf_steering_cmd_filter u_saturated ;;
  (* set control command *)
  let ctrl_cmd :=
    mkAckermannLateralCommand (to_float u_filtered)
      (to_float
         (calcDesiredSteeringRate mpc_matrix x0_delayed Uex u_filtered
            (report_steering_tire_angle current_steer) prediction_dt)) in
  (* save the control command for the steering prediction *)
  modify (fun self =>
            set_m_steering_predictor self
              (storeSteerCmd (m_steering_predictor self) u_filtered)) ;;;
  (* save input to buffer for delay compensation *)
  modify (fun self =>
            set_m_input_buffer self
              (push_back (m_input_buffer self) (steering_tire_angle ctrl_cmd))) ;;;
  modify (fun self =>
            set_m_input_buffer self (pop_front (m_input_buffer self))) ;;;
  (* save previous input for the mpc rate limit *)
  modify (fun self =>
            set_m_raw_steer_cmd_pprev self (m_raw_steer_cmd_prev self)) ;;;
  modify (fun self => set_m_raw_steer_cmd_prev self (coeff Uex 0 0)) ;;;
  this <- get ;;
  (* calculate predicted trajectory *)
  let predicted_trajectory :=
    calculatePredictedTrajectory this mpc_matrix x0 Uex
      mpc_resampled_ref_trajectory prediction_dt in
  (* prepare diagnostic message *)
  diagnostic <-
    or_raise (generateDiagData this mpc_resampled_ref_trajectory
                mpc_data_traj_raw mpc_data_for_diagnostic mpc_matrix ctrl_cmd
                Uex current_kinematics) ;;
  ret (ctrl_cmd, predicted_trajectory, diagnostic).

(** A sequence of control cycles, one per timer tick; the state a cycle
    leaves (whatever its outcome) is the state the next one starts from. *)
Fixpoint run_cycles
    (ticks : list (SteeringReport D * Odometry D Pose)) (self : MPC)
  : MPC * list (Res (AckermannLateralCommand D * Trajectory * Diagnostic)) :=
  match ticks with
  | [] => (self, [])
  | (current_steer, current_kinematics) :: rest =>
      let (self, r) := calculateMPC current_steer current_kinematics self in
      let (self, rs) := run_cycles rest self in
      (self, r :: rs)
  end.

(** *** Notions the properties are stated with *)

(** What every stage before the command synthesis leaves untouched: the
    history and the state of the steering low-pass filter. *)
Definition frame (s s' : MPC) : Prop :=
  history s' = history s /\ m_lpf_steering_cmd s' = m_lpf_steering_cmd s.

Definition keeps {A} (m : M A) : Prop :=
  forall self self' r, m self = (self', r) -> frame self self'.

(** [Uex] is the solution the solver returns, with success, for the QP of
    [executeOptimization] (whatever the arguments of that call) from the
    solver state of [self]; [solver] is the solver's state afterwards. *)
Definition solver_output (self : MPC) (solver : Solver) (Uex : Matrix D)
  : Prop :=
  forall m x0 prediction_dt traj current_velocity,
    let '(H, ft, A, lb, ub, lbA, ubA) :=
      qp_problem m x0 prediction_dt traj current_velocity in
    solve (m_qpsolver self) H ft A lb ub lbA ubA = (solver, (true, Uex)).

(** The cycle from [self] to [self'] has synthesised the steering angle
    [angle] from the solver's output [Uex] and has written the history:
    lines 101 to 119 of [calculateMPC] have run. *)
Definition committed (self self' : MPC) (Uex : Matrix D) (angle : D) : Prop :=
  exists u_filtered,
    solver_output self (m_qpsolver self') Uex /\
    any_isnan Uex = false /\
    filter (m_lpf_steering_cmd self)
      (std_clamp (coeff Uex 0 0) (- m_steer_lim self) (m_steer_lim self))
    = (m_lpf_steering_cmd self', u_filtered) /\
    angle = to_float u_filtered /\
    m_input_buffer self' = pop_front (push_back (m_input_buffer self) angle) /\
    m_raw_steer_cmd_pprev self' = m_raw_steer_cmd_prev self /\
    m_raw_steer_cmd_prev self' = coeff Uex 0 0.

(** Why [getData] reports failure for a pose found at [nearest_pose] and
    [nearest_time]. *)
Definition inadmissible (self : MPC) (traj : MPCTrajectory D)
    (current_pose nearest_pose : Pose) (nearest_time : D) : Prop :=
  (calcDistance2d current_pose nearest_pose >? m_admissible_position_error self)
  = true \/
  (dfabs (normalizeRadian (getYaw current_pose - getYaw nearest_pose))
   >? m_admissible_yaw_error_rad self) = true \/
  (end_time self nearest_time >? back (relative_time traj)) = true.

(** The distance travelled from point [nearest_idx] to point [i], summed
    segment by segment in the order of the trajectory. *)
Definition travelled (input : MPCTrajectory D) (nearest_idx i : nat) : D :=
  fold_left (fun s j => s + calcDistance2d_traj input j (j - 1))
            (seq (nearest_idx + 1) (i - nearest_idx)) (of_Q 0).

(** The first point after [nearest_idx] at which the travelled distance
    exceeds the minimum prediction length, if there is one. *)
Definition crossing (self : MPC) (input : MPCTrajectory D) (nearest_idx : nat)
  : option nat :=
  find (fun i => min_prediction_length (m_param self)
                 <? travelled input nearest_idx i)
       (seq (nearest_idx + 1)
            (List.length (relative_time input) - (nearest_idx + 1))).

(** The time at which the minimum prediction length is reached on the segment
    that ends in point [i], by linear interpolation; the time of the last
    point counts without the 100 s it was extended by. *)
Definition crossing_time (self : MPC) (input : MPCTrajectory D)
    (nearest_idx i : nat) : D :=
  let segment_dist := calcDistance2d_traj input i (i - 1) in
  let prev_sum_dist := travelled input nearest_idx i - segment_dist in
  let ratio :=
    (min_prediction_length (m_param self) - prev_sum_dist) / segment_dist in
  let time_i :=
    if (i =? List.length (relative_time input) - 1)%nat
    then nth i (relative_time input) (of_Q 0) - of_Q 100
    else nth i (relative_time input) (of_Q 0) in
  let time_prev := nth (i - 1) (relative_time input) (of_Q 0) in
  time_prev + (time_i - time_prev) * ratio.

(** The target time as the specification describes it. *)
Definition target_time_spec (self : MPC) (input : MPCTrajectory D)
    (current_kinematics : Odometry D Pose) : D :=
  let nearest_idx :=
    findFirstNearestIndexWithSoftConstraints
      (convertToAutowareTrajectory input) (pose current_kinematics)
      (ego_nearest_dist_threshold self) (ego_nearest_yaw_threshold self) in
  match crossing self input nearest_idx with
  | Some i => crossing_time self input nearest_idx i
  | None => back (relative_time input) - of_Q 100
  end.

(** The [h] x [w] block of [M] at [(r, c)] has the coefficients of [B]. *)
Definition block_eq (M : Matrix D) (r c h w : nat) (B : Matrix D) : Prop :=
  forall a b, (a < h)%nat -> (b < w)%nat ->
              coeff M (r + a) (c + b) = coeff B a b.

(** Two matrices agree on the rows above row [n]. *)
Definition agree_above (n : nat) (M M' : Matrix D) : Prop :=
  forall a b, (a < n)%nat -> coeff M' a b = coeff M a b.

(** The linearised model of horizon step [i]: the vehicle model evaluated at
    the reference velocity and the (signed) curvature of that step. *)
Definition discrete_matrix_at (self : MPC)
    (reference_trajectory : MPCTrajectory D) (DT : D) (i : nat)
  : option (Matrix D * Matrix D * Matrix D * Matrix D) :=
  let sign_vx := if m_is_forward_shift self then of_Q 1 else of_Q (-1) in
  match at_ (vx reference_trajectory) i, at_ (k reference_trajectory) i with
  | Some ref_vx, Some k_i =>
      Some (calculateDiscreteMatrix (mkVehicleModel ref_vx (k_i * sign_vx)) DT)
  | _, _ => None
  end.

(** The recursion of block row [i] of the stacked matrices. *)
Definition recursion_at (m : MPCMatrix D) (i : nat)
    (Ad Bd Wd : Matrix D) : Prop :=
  let DIM_X := getDimX in
  let DIM_U := getDimU in
  block_eq (Bex m) (i * DIM_X) (i * DIM_U) DIM_X DIM_U Bd /\
  match i with
  | O =>
      block_eq (Aex m) 0 0 DIM_X DIM_X Ad /\
      block_eq (Wex m) 0 0 DIM_X 1 Wd
  | S p =>
      block_eq (Aex m) (i * DIM_X) 0 DIM_X DIM_X
        (mmul Ad (block (Aex m) (p * DIM_X) 0 DIM_X DIM_X)) /\
      (forall j, (j < i)%nat ->
         block_eq (Bex m) (i * DIM_X) (j * DIM_U) DIM_X DIM_U
           (mmul Ad (block (Bex m) (p * DIM_X) (j * DIM_U) DIM_X DIM_U))) /\
      block_eq (Wex m) (i * DIM_X) 0 DIM_X 1
        (madd (mmul Ad (block (Wex m) (p * DIM_X) 0 DIM_X 1)) Wd)
  end.

(** The reference input the vehicle model computes for horizon step [i] (at
    the reference velocity and the signed smoothed curvature of the step) is
    below the dead-band threshold. *)
Definition dead_band_at (self : MPC) (reference_trajectory : MPCTrajectory D)
    (i : nat) : Prop :=
  let sign_vx := if m_is_forward_shift self then of_Q 1 else of_Q (-1) in
  exists ref_vx smooth_k_i,
    at_ (vx reference_trajectory) i = Some ref_vx /\
    at_ (smooth_k reference_trajectory) i = Some smooth_k_i /\
    (dfabs (coeff (calculateReferenceInput
                     (mkVehicleModel ref_vx (smooth_k_i * sign_vx))) 0 0)
     <? deg2rad (zero_ff_steer_deg (m_param self))) = true.

(** ** The feed-forward dead band *)

Definition dead_band_zeroed (self : MPC)
    (reference_trajectory : MPCTrajectory D) (m : MPCMatrix D) : Prop :=
  forall i, dead_band_at self reference_trajectory i ->
            coeff (Uref_ex m) (i * getDimU) 0 = of_Q 0.

(** The quadratic cost as the specification prescribes it,
    [H = Bex' Cex' Qex Cex Bex + R1ex + R2ex]. *)
Definition spec_cost_H (m : MPCMatrix D) : Matrix D :=
  let CB := mmul (Cex m) (Bex m) in
  let QCB := mmul (Qex m) CB in
  madd (madd (mmul (transpose CB) QCB) (R1ex m)) (R2ex m).

(** *** Shapes of matrices *)

(** [M] is symmetric. *)
Definition symmetric (M : Matrix D) : Prop :=
  forall a b, coeff M a b = coeff M b a.

(** The leading [n] x [n] part of [B] is symmetric. *)
Definition sym_on (n : nat) (B : Matrix D) : Prop :=
  forall a b, (a < n)%nat -> (b < n)%nat -> coeff B a b = coeff B b a.

(** [M'] has the dimensions of [M]. *)
Definition same_shape (M M' : Matrix D) : Prop :=
  rows M' = rows M /\ cols M' = cols M.

(** [M] is [r] x [c]. *)
Definition has_shape (r c : nat) (M : Matrix D) : Prop :=
  rows M = r /\ cols M = c.

(** The trajectory has at least [n] points in the arrays [generateMPCMatrix]
    reads. *)
Definition covers (reference_trajectory : MPCTrajectory D) (n : nat) : bool :=
  ((n <=? List.length (vx reference_trajectory))
   && (n <=? List.length (k reference_trajectory))
   && (n <=? List.length (smooth_k reference_trajectory)))%nat.

(** The eight matrices have the dimensions of those of [m0]. *)
Definition shapes_of (m0 m : MPCMatrix D) : Prop :=
  same_shape (Aex m0) (Aex m) /\ same_shape (Bex m0) (Bex m) /\
  same_shape (Wex m0) (Wex m) /\ same_shape (Cex m0) (Cex m) /\
  same_shape (Qex m0) (Qex m) /\ same_shape (R1ex m0) (R1ex m) /\
  same_shape (R2ex m0) (R2ex m) /\ same_shape (Uref_ex m0) (Uref_ex m).

(** The blocks of [B] above the block diagonal are zero: the input of a
    later step has no part in the state of an earlier one. *)
Definition causal (B : Matrix D) : Prop :=
  forall i j a b, (i < j)%nat -> (a < getDimX)%nat -> (b < getDimU)%nat ->
                  coeff B (i * getDimX + a) (j * getDimU + b) = of_Q 0.

(** The coefficient at [(a, b)] lies more than [w] places off the diagonal. *)
Definition off_band (w a b : nat) : Prop := (a + w < b \/ b + w < a)%nat.

(** [M] is zero outside the band of half-width [w] around its diagonal. *)
Definition banded (w : nat) (M : Matrix D) : Prop :=
  forall a b, off_band w a b -> coeff M a b = of_Q 0.

(** [M'] differs from [M] only inside the band of half-width [w]. *)
Definition agree_off (w : nat) (M M' : Matrix D) : Prop :=
  forall a b, off_band w a b -> coeff M' a b = coeff M a b.

(** *** resetPrevResult *)

Definition resetPrevResult (current_steer : SteeringReport D) (self : MPC)
  : MPC :=
  (* Consider limit. The prev value larger than limitation brakes the
     optimization constraint and results in optimization failure. *)
  let steer_lim_f := to_float (m_steer_lim self) in
  let self :=
    set_m_raw_steer_cmd_prev self
      (std_clamp (report_steering_tire_angle current_steer) (- steer_lim_f)
         steer_lim_f) in
  set_m_raw_steer_cmd_pprev self
    (std_clamp (report_steering_tire_angle current_steer) (- steer_lim_f)
       steer_lim_f).

(** *** What a control cycle is configured by *)

(** The members a control cycle reads but never assigns: the trajectories,
    the parameters, the limits and the switches. *)
Definition configuration (self : MPC) :=
  (m_reference_trajectory self, mpc_traj_raw self, m_param self,
   m_is_forward_shift self, m_steer_lim self, m_ctrl_period self,
   m_admissible_position_error self, m_admissible_yaw_error_rad self,
   m_use_steer_prediction self, ego_nearest_dist_threshold self,
   ego_nearest_yaw_threshold self).

(** The call [m] leaves the part [f] of the controller as it found it,
    however it ends. *)
Definition preserves {X A : Type} (f : MPC -> X) (m : M A) : Prop :=
  forall self self' r, m self = (self', r) -> f self' = f self.

(** The time [n] control periods after [t], as the loop of the delay
    compensation adds it up. *)
Fixpoint advance (t ctrl_period : D) (n : nat) : D :=
  match n with
  | O => t
  | S n' => advance (t + ctrl_period) ctrl_period n'
  end.


(** The warnings with which [calculateMPC] returns false, in the order of
    its stages. *)
Definition stop_messages : list string :=
  ["fail to get MPC Data. Stop MPC.";
   "delay compensation failed. Stop MPC.";
   "trajectory resampling failed. Stop MPC.";
   "fail to get MPC Data for the diagnostic. Stop MPC.";
   "fail to get MPC Data for the raw trajectory. Stop MPC.";
   "optimization failed. Stop MPC."]%string.

(** A call of [m] that returns false has warned with one of [msgs]. *)
Definition stops_as {A : Type} (msgs : list string) (m : M A) : Prop :=
  forall self self' msg, m self = (self', Fail msg) -> In msg msgs.

End Controller.


(** * The remaining functions of mpc.cpp *)

Section Remaining.
Context {D : Type} {SD : Scalar D} {SL : ScalarLe D}.
Context {Pose TrajectoryPoint : Type}.
Context {Lpf Predictor Solver : Type}.
Context {VMI : VehicleModelInterface D}.
Context {QPS : QPSolverInterface D Solver}.
Context {TU : TrajectoryUtils D Pose TrajectoryPoint}.

Local Open Scope double_scope.

Local Abbreviation MPC := (@MPC D Lpf Predictor Solver).

(** ** calcSteerRateLimitOnTrajectory *)

(** The loop of the lambda [interp] over the table entries from [i] on;
    [None] when no pair of neighbours encloses [current]. *)
Fixpoint interp_loop (reference limits : list D) (current : D) (i : nat)
    (n : nat) : option D :=
  match n with
  | O => None
  | S n' =>
      let ref_i := nth i reference (of_Q 0) in
      let ref_next := nth (i + 1) reference (of_Q 0) in
      if dle ref_i current && dle current ref_next then
        let ratio :=
          (current - ref_i) / std_max (ref_next - ref_i) (of_Q 0.00001) in
        let ratio := std_clamp ratio (of_Q 0) (of_Q 1) in
        Some (nth i limits (of_Q 0)
              + ratio * (nth (i + 1) limits (of_Q 0) - nth i limits (of_Q 0)))
      else interp_loop reference limits current (i + 1) n'
  end.

(** The lambda [interp] on a table with at least one entry (the C++ reads
    [front()] and [back()] of an empty vector otherwise). The second
    component tells whether the message "interpolation logic is broken" was
    written to [std::cerr]. *)
Definition interp (steer_rate_limit_map : list (D * D)) (current : D)
  : D * bool :=
  let reference := map fst steer_rate_limit_map in
  let limits := map snd steer_rate_limit_map in
  (* If the speed is out of range of the reference, apply zero-order hold. *)
  if dle current (hd (of_Q 0) reference) then (hd (of_Q 0) limits, false)
  else if dle (back reference) current then (back limits, false)
  else
    (* Apply linear interpolation *)
    match interp_loop reference limits current 0
            (List.length reference - 1) with
    | Some v => (v, false)
    | None => (back reference, true)
    end.

(** The loop [for (i = 0; i < prediction_horizon; ++i)]; [None] when
    an [at(i)] throws. *)
Fixpoint steer_rate_limit_loop
    (map_by_curvature map_by_velocity : list (D * D))
    (trajectory : MPCTrajectory D) (idxs : list nat)
    (steer_rate_limits : Matrix D) : option (Matrix D) :=
  match idxs with
  | [] => Some steer_rate_limits
  | i :: rest =>
      match at_ (k trajectory) i, at_ (vx trajectory) i with
      | Some k_i, Some vx_i =>
          let limit_by_curvature := fst (interp map_by_curvature k_i) in
          let limit_by_velocity := fst (interp map_by_velocity vx_i) in
          steer_rate_limit_loop map_by_curvature map_by_velocity trajectory
            rest
            (set_coeff steer_rate_limits i 0
               (std_min limit_by_curvature limit_by_velocity))
      | _, _ => None
      end
  end.

(** [calcSteerRateLimitOnTrajectory]; the two tables are the members
    [m_steer_rate_lim_map_by_curvature] and
    [m_steer_rate_lim_map_by_velocity]. [None] when an [at(i)] throws. *)
Definition calcSteerRateLimitOnTrajectory (self : MPC)
    (m_steer_rate_lim_map_by_curvature m_steer_rate_lim_map_by_velocity
       : list (D * D))
    (trajectory : MPCTrajectory D) (current_velocity : D)
  : option (Matrix D) :=
  let N := Z.to_nat (prediction_horizon (m_param self)) in
  (* when the vehicle is stopped, no steering rate limit. *)
  let is_vehicle_stopped := dfabs current_velocity <? of_Q 0.01 in
  if is_vehicle_stopped then Some (Zero N 1)
  else
    (* calculate steering rate limit *)
    steer_rate_limit_loop m_steer_rate_lim_map_by_curvature
      m_steer_rate_lim_map_by_velocity trajectory (seq 0 N) (Zero N 1).


(** ** setReferenceTrajectory *)

Context {TrajectoryMsg : Type}.
Context {TF : TrajectoryFiltering D Pose TrajectoryPoint TrajectoryMsg}.

Definition set_mpc_traj_raw (self : MPC) (v : MPCTrajectory D) : MPC :=
  mkMPC (m_reference_trajectory self) v (m_param self) (m_input_buffer self)
    (m_raw_steer_cmd_prev self) (m_raw_steer_cmd_pprev self)
    (m_lateral_error_prev self) (m_yaw_error_prev self)
    (m_is_forward_shift self) (m_steer_lim self) (m_ctrl_period self)
    (m_admissible_position_error self) (m_admissible_yaw_error_rad self)
    (m_use_steer_prediction self) (ego_nearest_dist_threshold self)
    (ego_nearest_yaw_threshold self) (m_lpf_steering_cmd self)
    (m_lpf_lateral_error self) (m_lpf_yaw_error self)
    (m_steering_predictor self) (m_vehicle_model self) (m_qpsolver self).

Definition set_m_is_forward_shift (self : MPC) (v : bool) : MPC :=
  mkMPC (m_reference_trajectory self) (mpc_traj_raw self) (m_param self)
    (m_input_buffer self) (m_raw_steer_cmd_prev self)
    (m_raw_steer_cmd_pprev self) (m_lateral_error_prev self)
    (m_yaw_error_prev self) v (m_steer_lim self) (m_ctrl_period self)
    (m_admissible_position_error self) (m_admissible_yaw_error_rad self)
    (m_use_steer_prediction self) (ego_nearest_dist_threshold self)
    (ego_nearest_yaw_threshold self) (m_lpf_steering_cmd self)
    (m_lpf_lateral_error self) (m_lpf_yaw_error self)
    (m_steering_predictor self) (m_vehicle_model self) (m_qpsolver self).

Definition set_m_reference_trajectory (self : MPC) (v : MPCTrajectory D)
  : MPC :=
  mkMPC v (mpc_traj_raw self) (m_param self) (m_input_buffer self)
    (m_raw_steer_cmd_prev self) (m_raw_steer_cmd_pprev self)
    (m_lateral_error_prev self) (m_yaw_error_prev self)
    (m_is_forward_shift self) (m_steer_lim self) (m_ctrl_period self)
    (m_admissible_position_error self) (m_admissible_yaw_error_rad self)
    (m_use_steer_prediction self) (ego_nearest_dist_threshold self)
    (ego_nearest_yaw_threshold self) (m_lpf_steering_cmd self)
    (m_lpf_lateral_error self) (m_lpf_yaw_error self)
    (m_steering_predictor self) (m_vehicle_model self) (m_qpsolver self).

(** [v.back() = a]; on an empty vector, where the C++ behaviour is undefined,
    the model leaves it empty. *)
Definition assign_back (v : list D) (a : D) : list D :=
  match v with
  | [] => []
  | _ :: _ => removelast v ++ [a]
  end.

(** The four calls of [filt_vector], with the short circuit of [||];
    [None] when one of them returns false. *)
Definition filter_path (num : Z) (t : MPCTrajectory D)
  : option (MPCTrajectory D) :=
  match filt_vector num (x t) with
  | None => None
  | Some x' =>
      match filt_vector num (y t) with
      | None => None
      | Some y' =>
          match filt_vector num (yaw t) with
          | None => None
          | Some yaw' =>
              match filt_vector num (vx t) with
              | None => None
              | Some vx' =>
                  Some (mkMPCTrajectory x' y' (z t) yaw' vx' (k t)
                          (smooth_k t) (relative_time t))
              end
          end
      end
  end.

(** The trajectory [setReferenceTrajectory] has at hand before its final size
    check, from the resampled one; [forward] is [m_is_forward_shift] as just
    updated. *)
Definition smooth_and_terminate (raw : MPCTrajectory D)
    (param : TrajectoryFilteringParam D) (forward : bool)
    (mpc_traj_resampled : MPCTrajectory D) : MPCTrajectory D :=
  (* path smoothing *)
  let mpc_traj_smoothed := mpc_traj_resampled in
  let mpc_traj_resampled_size := Z.of_nat (size mpc_traj_resampled) in
  let mpc_traj_smoothed :=
    if enable_path_smoothing param
       && (2 * path_filter_moving_ave_num param <? mpc_traj_resampled_size)%Z
    then
      match filter_path (path_filter_moving_ave_num param) mpc_traj_smoothed
      with
      | Some filtered => filtered
      | None => mpc_traj_resampled
      end
    else mpc_traj_smoothed in
  (* Extend terminal points *)
  let mpc_traj_smoothed :=
    if extend_trajectory_for_end_yaw_control param then
      extendTrajectoryInYawDirection (back (yaw raw))
        (traj_resample_dist param) forward mpc_traj_smoothed
    else mpc_traj_smoothed in
  (* calculate yaw angle *)
  let mpc_traj_smoothed := calcTrajectoryYawFromXY mpc_traj_smoothed forward in
  let mpc_traj_smoothed :=
    mkMPCTrajectory (x mpc_traj_smoothed) (y mpc_traj_smoothed)
      (z mpc_traj_smoothed)
      (convertEulerAngleToMonotonic (yaw mpc_traj_smoothed))
      (vx mpc_traj_smoothed) (k mpc_traj_smoothed)
      (smooth_k mpc_traj_smoothed) (relative_time mpc_traj_smoothed) in
  (* calculate curvature *)
  let mpc_traj_smoothed :=
    calcTrajectoryCurvature (curvature_smoothing_num_traj param)
      (curvature_smoothing_num_ref_steer param) mpc_traj_smoothed in
  (* stop velocity at a terminal point *)
  let mpc_traj_smoothed :=
    mkMPCTrajectory (x mpc_traj_smoothed) (y mpc_traj_smoothed)
      (z mpc_traj_smoothed) (yaw mpc_traj_smoothed)
      (assign_back (vx mpc_traj_smoothed) (of_Q 0)) (k mpc_traj_smoothed)
      (smooth_k mpc_traj_smoothed) (relative_time mpc_traj_smoothed) in
  (* add a extra point on back with extended time to make the mpc stable. *)
  let last_point := traj_back mpc_traj_smoothed in
  let last_point :=
    mkMPCTrajectoryPoint (pt_x last_point) (pt_y last_point)
      (pt_z last_point) (pt_yaw last_point) (pt_vx last_point)
      (pt_k last_point) (pt_smooth_k last_point)
      (pt_relative_time last_point + of_Q 100) in
  let last_point :=
    mkMPCTrajectoryPoint (pt_x last_point) (pt_y last_point)
      (pt_z last_point) (pt_yaw last_point) (of_Q 0) (pt_k last_point)
      (pt_smooth_k last_point) (pt_relative_time last_point) in
  traj_push_back mpc_traj_smoothed last_point.

(** [setReferenceTrajectory]: the controller afterwards and the message
    given to [warn_throttle], if any. *)
Definition setReferenceTrajectory (trajectory_msg : TrajectoryMsg)
    (param : TrajectoryFilteringParam D)
    (current_kinematics : Odometry D Pose) (self : MPC)
  : MPC * option string :=
  let nearest_seg_idx :=
    findFirstNearestSegmentIndexWithSoftConstraints
      (msg_points trajectory_msg) (pose current_kinematics)
      (ego_nearest_dist_threshold self) (ego_nearest_yaw_threshold self) in
  let ego_offset_to_segment :=
    calcLongitudinalOffsetToSegment (msg_points trajectory_msg)
      nearest_seg_idx (pose current_kinematics) in
  let self := set_mpc_traj_raw self (convertToMPCTrajectory trajectory_msg) in
  (* resampling *)
  match resampleMPCTrajectoryByDistance (mpc_traj_raw self)
          (traj_resample_dist param) nearest_seg_idx ego_offset_to_segment
  with
  | None =>
      (self,
       Some
         "[setReferenceTrajectory] spline error when resampling by distance"%string)
  | Some mpc_traj_resampled =>
      let is_forward_shift :=
        isDrivingForward (toTrajectoryPoints mpc_traj_resampled) in
      (* if driving direction is unknown, use previous value *)
      let self :=
        set_m_is_forward_shift self
          match is_forward_shift with
          | Some value => value
          | None => m_is_forward_shift self
          end in
      let mpc_traj_smoothed :=
        smooth_and_terminate (mpc_traj_raw self) param
          (m_is_forward_shift self) mpc_traj_resampled in
      if (size mpc_traj_smoothed =? 0)%nat then (self, None)
      else (set_m_reference_trajectory self mpc_traj_smoothed, None)
  end.

(** What a control cycle carries over from the cycles before. *)
Definition memory (self : MPC) :=
  (m_input_buffer self, m_raw_steer_cmd_prev self, m_raw_steer_cmd_pprev self,
   m_lateral_error_prev self, m_yaw_error_prev self, m_lpf_steering_cmd self,
   m_lpf_lateral_error self, m_lpf_yaw_error self, m_steering_predictor self,
   m_vehicle_model self, m_qpsolver self).

(** The settings [setReferenceTrajectory] reads but does not write. *)
Definition settings (self : MPC) :=
  (m_param self, m_steer_lim self, m_ctrl_period self,
   m_admissible_position_error self, m_admissible_yaw_error_rad self,
   m_use_steer_prediction self, ego_nearest_dist_threshold self,
   ego_nearest_yaw_threshold self).


(** ** isValid *)

Context {SI : ScalarInf D}.

(** [M.array().isInf().any()] *)
Definition any_isinf (M : Matrix D) : bool :=
  existsb (fun i => existsb (fun j => disinf (coeff M i j)) (seq 0 (cols M)))
          (seq 0 (rows M)).

(** [isValid(m)]. Nothing in mpc.cpp calls it. *)
Definition isValid (m : MPCMatrix D) : bool :=
  if any_isnan (Aex m) || any_isnan (Bex m) || any_isnan (Cex m)
     || any_isnan (Wex m) || any_isnan (Qex m) || any_isnan (R1ex m)
     || any_isnan (R2ex m) || any_isnan (Uref_ex m)
  then false
  else if any_isinf (Aex m) || any_isinf (Bex m) || any_isinf (Cex m)
          || any_isinf (Wex m) || any_isinf (Qex m) || any_isinf (R1ex m)
          || any_isinf (R2ex m) || any_isinf (Uref_ex m)
  then false
  else true.

(** Every coefficient of [M] is a finite number. *)
Definition finite (M : Matrix D) : Prop :=
  forall i j, (i < rows M)%nat -> (j < cols M)%nat ->
              disnan (coeff M i j) = false /\ disinf (coeff M i j) = false.

End Remaining.

(** * motion_utils/trajectory/conversion.hpp *)

Module Conversion.
Section Messages.

(** The message types, as far as the header reads or writes them. What a
    point carries beyond its pose and the fields assigned here is kept as one
    component. *)
Context {Header Bound Pose Float LaneIds PathPointRest TrajectoryPointRest
           : Type}.

Record PathPoint : Type := mkPathPoint {
  pose : Pose;
  longitudinal_velocity_mps : Float;
  path_point_rest : PathPointRest
}.

Record PathPointWithLaneId : Type := mkPathPointWithLaneId {
  point : PathPoint;
  lane_ids : LaneIds
}.

Record TrajectoryPoint : Type := mkTrajectoryPoint {
  tp_pose : Pose;
  tp_longitudinal_velocity_mps : Float;
  acceleration_mps2 : Float;
  trajectory_point_rest : TrajectoryPointRest
}.

Record Path : Type := mkPath {
  header : Header;
  points : list PathPoint;
  left_bound : Bound;
  right_bound : Bound
}.

Record PathWithLaneId : Type := mkPathWithLaneId {
  lane_header : Header;
  lane_points : list PathPointWithLaneId;
  lane_left_bound : Bound;
  lane_right_bound : Bound
}.

(** The values of default-constructed messages, and the float [0]. *)
Context (default_header : Header) (default_bound : Bound)
        (default_path_point : PathPoint) (default_lane_ids : LaneIds)
        (default_trajectory_point : TrajectoryPoint) (zero : Float).

(** [v.at(i) = a], which throws for an index out of range. *)
Fixpoint assign_at {A} (v : list A) (i : nat) (a : A) : option (list A) :=
  match v, i with
  | [], _ => None
  | _ :: v', O => Some (a :: v')
  | b :: v', S i' =>
      match assign_at v' i' a with
      | Some w => Some (b :: w)
      | None => None
      end
  end.

(** The loop of [convertToPath] from index [i] on, [n] more passes. *)
Fixpoint convertToPath_loop (input_points : list PathPointWithLaneId)
    (i n : nat) (output_points : list PathPoint) : option (list PathPoint) :=
  match n with
  | O => Some output_points
  | S n' =>
      match nth_error input_points i with
      | Some p =>
          match assign_at output_points i (point p) with
          | Some w => convertToPath_loop input_points (S i) n' w
          | None => None
          end
      | None => None
      end
  end.

(** [convertToPath(input)], for a [PathWithLaneId]; [None] if an [at]
    throws. *)
Definition convertToPath (input : PathWithLaneId) : option Path :=
  let output_points :=
    repeat default_path_point (List.length (lane_points input)) in
  match convertToPath_loop (lane_points input) 0
          (List.length (lane_points input)) output_points with
  | Some pts =>
      Some (mkPath (lane_header input) pts (lane_left_bound input)
              (lane_right_bound input))
  | None => None
  end.

(** [convertToTrajectoryPoints(path)] *)
Definition convertToTrajectoryPoints (path : PathWithLaneId)
  : list TrajectoryPoint :=
  fold_left
    (fun tps p =>
       let tp := default_trajectory_point in
       let tp :=
         mkTrajectoryPoint (pose (point p)) (tp_longitudinal_velocity_mps tp)
           (acceleration_mps2 tp) (trajectory_point_rest tp) in
       let tp :=
         mkTrajectoryPoint (tp_pose tp)
           (longitudinal_velocity_mps (point p)) (acceleration_mps2 tp)
           (trajectory_point_rest tp) in
       (* since path point doesn't have acc for now *)
       let tp :=
         mkTrajectoryPoint (tp_pose tp) (tp_longitudinal_velocity_mps tp)
           zero (trajectory_point_rest tp) in
       tps ++ [tp])
    (lane_points path) [].

(** [convertTrajectoryPointsToPath(trajectory)] *)
Definition convertTrajectoryPointsToPath (trajectory : list TrajectoryPoint)
  : PathWithLaneId :=
  let path :=
    mkPathWithLaneId default_header [] default_bound default_bound in
  fold_left
    (fun path p =>
       let pp := mkPathPointWithLaneId default_path_point default_lane_ids in
       let pp :=
         mkPathPointWithLaneId
           (mkPathPoint (tp_pose p) (longitudinal_velocity_mps (point pp))
              (path_point_rest (point pp)))
           (lane_ids pp) in
       let pp :=
         mkPathPointWithLaneId
           (mkPathPoint (pose (point pp)) (tp_longitudinal_velocity_mps p)
              (path_point_rest (point pp)))
           (lane_ids pp) in
       mkPathWithLaneId (lane_header path) (lane_points path ++ [pp])
         (lane_left_bound path) (lane_right_bound path))
    trajectory path.

(** A trajectory point with nothing but its pose and its longitudinal
    velocity: zero acceleration, the other fields as default-constructed. *)
Definition bare (p : TrajectoryPoint) : TrajectoryPoint :=
  mkTrajectoryPoint (tp_pose p) (tp_longitudinal_velocity_mps p) zero
    (trajectory_point_rest default_trajectory_point).

(** A path point with nothing but its pose and its longitudinal velocity. *)
Definition bare_path_point (p : PathPointWithLaneId) : PathPointWithLaneId :=
  mkPathPointWithLaneId
    (mkPathPoint (pose (point p)) (longitudinal_velocity_mps (point p))
       (path_point_rest default_path_point))
    default_lane_ids.

End Messages.
End Conversion.

(** * A scenario to run the model on

    The scenario of the specification's tests: a straight reference path
    driven at constant speed, over exact rational arithmetic. The
    collaborators are simple stand-ins: a small-angle kinematic model without
    steering delay, a solver whose answer is fixed, a second-order recursive
    low-pass filter and one-dimensional trajectory utilities. *)

Module StraightLine.
Local Open Scope Q_scope.

(** A pose is a position [(x, y)]; the heading is along the path. *)
Definition Pose : Type := Q * Q.

Definition wheelbase : Q := 2.79.

(** Small-angle kinematic bicycle model, state (lateral error, yaw error). *)
#[export] Instance vehicle_model : VehicleModelInterface Q := {|
  getDimX := 2;
  getDimU := 1;
  getDimY := 2;
  modelName := "kinematics_no_delay";
  getWheelbase := wheelbase;
  calculateDiscreteMatrix := fun vm dt =>
    let v := m_velocity vm in
    let c := m_curvature vm in
    (of_rows 2 2 [[1; v * dt]; [0; 1]],
     of_rows 2 1 [[0]; [v * dt / wheelbase]],
     of_rows 2 2 [[1; 0]; [0; 1]],
     of_rows 2 1 [[0]; [- (v * c * dt)]]);
  calculateReferenceInput := fun vm =>
    of_rows 1 1 [[wheelbase * m_curvature vm]]
|}.

(** A solver that answers with one radian for every step, whatever the
    problem. *)
#[export] Instance fixed_solver : QPSolverInterface Q unit := {|
  solve := fun s _ _ _ _ _ _ _ => (s, (true, of_col 50 (repeat 1 50)))
|}.

(** Modelled from the spec: "a low-pass filter capability with persistent
    state" (the filter class is not among the sources). A second-order
    recursive low-pass filter of unit gain at frequency zero,
    [17 y0 = 5 u0 + 10 u1 + 5 u2 - 3 y2]; the state holds the two previous
    inputs and outputs. *)
Record Biquad : Type := mkBiquad {
  u1 : Q;
  u2 : Q;
  y1 : Q;
  y2 : Q
}.

Definition biquad_filter (s : Biquad) (u0 : Q) : Biquad * Q :=
  let y0 := Qred ((5 * u2 s + 10 * u1 s + 5 * u0 - 3 * y2 s - 0 * y1 s) / 17) in
  (mkBiquad u0 (u1 s) y0 (y1 s), y0).

#[export] Instance biquad : LowpassFilter Q Biquad := {|
  filter := biquad_filter
|}.

#[export] Instance predictor : SteeringPredictor Q unit := {|
  calcSteerPrediction := fun p => (p, 0);
  storeSteerCmd := fun p _ => p
|}.

(** The trajectory runs along the x axis: the nearest pose to [(px, py)] is
    [(px, 0)], reached at the first time of the trajectory. *)
#[export] Instance trajectory_utils : TrajectoryUtils Q Pose unit := {|
  convertToAutowareTrajectory := fun t => map (fun _ => tt) (x t);
  findFirstNearestIndexWithSoftConstraints := fun _ _ _ _ => 0%nat;
  findFirstNearestSegmentIndexWithSoftConstraints := fun _ _ _ _ => 0%nat;
  dynamicSmoothingVelocity := fun _ _ _ _ t => t;
  calcNearestPoseInterp := fun t p _ _ =>
    match relative_time t with
    | [] => None
    | t0 :: _ => Some ((fst p, 0), 0%nat, t0)
    end;
  calcLateralError := fun p q => snd p - snd q;
  calcDistance2d := fun p q => Qabs (fst p - fst q) + Qabs (snd p - snd q);
  calcDistance2d_traj := fun t i j =>
    Qabs (nth i (x t) 0 - nth j (x t) 0) + Qabs (nth i (y t) 0 - nth j (y t) 0);
  getYaw := fun _ => 0;
  normalizeRadian := fun a => a;
  deg2rad := fun d => d * (355 / 113) / 180;
  lerp := fun keys values q =>
    match values with
    | [] => None
    | v :: _ => if Qltb q (hd 0 keys) || Qltb (last keys 0) q then None
                else Some v
    end;
  linearInterpMPCTrajectory := fun _ t times =>
    let c := map (fun _ => 0) times in
    Some (mkMPCTrajectory times c c c (map (fun _ => hd 0 (vx t)) times)
            (map (fun _ => hd 0 (k t)) times)
            (map (fun _ => hd 0 (smooth_k t)) times) times)
|}.

(** The predicted trajectory is not looked at: the prediction is the
    reference and the message is empty. *)
#[export] Instance reporting : Reporting Q unit := {|
  calculatePredictedTrajectoryInWorldCoordinate :=
    fun _ _ _ _ _ _ _ reference_trajectory _ => reference_trajectory;
  calcMPCTrajectoryArcLength := fun _ => 0;
  clipTrajectoryByLength := fun t _ => t;
  convertToAutowareTrajectoryMsg := fun _ => tt
|}.

(** Small angles: the tangent and the arc tangent of an angle are the angle. *)
#[export] Instance small_angle : Trigonometry Q := {|
  dtan := fun a => a;
  datan := fun a => a
|}.

#[export] Instance solver_report : QPSolverReport Q unit := {|
  getTakenIter := fun _ => 1%Z;
  getRunTime := fun _ => 0;
  getObjVal := fun _ => 0
|}.

Definition weight : MPCWeight Q :=
  mkMPCWeight 1 0 0.3 1 1 1 0.25 0.1 0 0.000001.

#[export] Instance weight_table : WeightTable Q := {|
  getWeight := fun _ => weight
|}.

(** Five points one metre and one second apart, driven at 1 m/s. *)
Definition path : MPCTrajectory Q :=
  mkMPCTrajectory [0; 1; 2; 3; 4] [0; 0; 0; 0; 0] [0; 0; 0; 0; 0]
    [0; 0; 0; 0; 0] [1; 1; 1; 1; 1] [0; 0; 0; 0; 0] [0; 0; 0; 0; 0]
    [0; 1; 2; 3; 4].

Definition param : MPCParam Q :=
  mkMPCParam 3 0.1 0.5 0 2 0.3 2 weight.

Definition at_rest : Biquad := mkBiquad 0 0 0 0.

(** The controller before its first cycle: a delay buffer of two commands,
    filters at rest, a steering limit of 0.7 rad. *)
Definition initial : MPC (D := Q) (Lpf := Biquad) (Predictor := unit)
                         (Solver := unit) :=
  mkMPC path path param [0; 0] 0 0 0 0 true 0.7 0.03 5 1.57 false 3 1.57
    at_rest at_rest at_rest tt (mkVehicleModel 0 0) tt.

Definition steer_report : SteeringReport Q := mkSteeringReport 0.

(** The vehicle on the path, and ten metres beside it. *)
Definition on_path : Odometry Q Pose := mkOdometry (0, 0) 1.
Definition off_path : Odometry Q Pose := mkOdometry (0, 10) 1.

Definition tick : SteeringReport Q * Odometry Q Pose := (steer_report, on_path).

(** The command a cycle issued, for reading it off a result. *)
Definition issued (r : Res (AckermannLateralCommand Q * unit * list Q))
  : AckermannLateralCommand Q :=
  match r with
  | Ok (ctrl_cmd, _, _) => ctrl_cmd
  | _ => mkAckermannLateralCommand 0 0
  end.

(** The diagnostic a cycle returned. *)
Definition diagnosed (r : Res (AckermannLateralCommand Q * unit * list Q))
  : list Q :=
  match r with
  | Ok (_, _, diagnostic) => diagnostic
  | _ => []
  end.

(** Whether a call returned normally. *)
Definition succeeded {A} (r : Res A) : bool :=
  match r with
  | Ok _ => true
  | _ => false
  end.

(** The controller after two cycles on the path. *)
Definition after_two_cycles : MPC (D := Q) (Lpf := Biquad) (Predictor := unit)
                                  (Solver := unit) :=
  fst (run_cycles [tick; tick] initial).

(** The reference trajectory the cycles work on, and its resampling. *)
Definition reference : MPCTrajectory Q :=
  applyVelocityDynamicsFilter initial path on_path.

Definition resampled : MPCTrajectory Q :=
  match resampleMPCTrajectoryByTime initial 0
          (getPredictionDeltaTime initial 0 reference on_path) reference with
  | Some t => t
  | None => reference
  end.

(** Prediction matrices of fifty one-dimensional steps with no dynamics and
    an input weight of two. *)
Definition two_identity : Matrix Q :=
  mkMatrix 50 50 (fun i j => if (i =? j)%nat then 2 else 0).

Definition flat_matrices : MPCMatrix Q :=
  mkMPCMatrix (Zero 50 1) (Zero 50 50) (Zero 50 1) (Zero 50 50) (Zero 50 50)
    two_identity (Zero 50 50) (Zero 50 1).


(** The same controller with a prediction horizon of one step. *)
Definition single_step : MPC (D := Q) (Lpf := Biquad) (Predictor := unit)
                             (Solver := unit) :=
  mkMPC path path (mkMPCParam 1 0.1 0.5 0 2 0.3 2 weight) [0; 0] 0 0 0 0 true
    0.7 0.03 5 1.57 false 3 1.57 at_rest at_rest at_rest tt
    (mkVehicleModel 0 0) tt.

(** The same utilities with a nearest-point search that reports the index one
    past the last point of the trajectory. *)
Definition past_the_end : TrajectoryUtils Q Pose unit := {|
  convertToAutowareTrajectory := convertToAutowareTrajectory;
  findFirstNearestIndexWithSoftConstraints :=
    findFirstNearestIndexWithSoftConstraints;
  findFirstNearestSegmentIndexWithSoftConstraints :=
    findFirstNearestSegmentIndexWithSoftConstraints;
  dynamicSmoothingVelocity := dynamicSmoothingVelocity;
  calcNearestPoseInterp := fun t p _ _ =>
    match relative_time t with
    | [] => None
    | t0 :: _ => Some ((fst p, 0), List.length (relative_time t), t0)
    end;
  calcLateralError := calcLateralError;
  calcDistance2d := calcDistance2d;
  calcDistance2d_traj := calcDistance2d_traj;
  getYaw := getYaw;
  normalizeRadian := normalizeRadian;
  deg2rad := deg2rad;
  lerp := lerp;
  linearInterpMPCTrajectory := linearInterpMPCTrajectory
|}.

(** A steering report beyond the steering limit. *)
Definition hard_left : SteeringReport Q := mkSteeringReport 1.

(** A steering rate limit table with one entry. *)
Definition one_entry_map : list (Q * Q) := [(10, 0.5)].

(** The vehicle 0.2 m beside the path and turned by 0.1 rad. *)
Definition sample_data : MPCData Q Pose :=
  mkMPCData 0%nat 0 (0, 0) 0 0 0.2 0.1.

End StraightLine.

(** * Properties *)

Section Properties.
Context {D : Type} {SD : Scalar D} {TR : Trigonometry D}.
Context {Pose TrajectoryPoint Trajectory : Type}.
Context {Lpf Predictor Solver : Type}.
Context {VMI : VehicleModelInterface D}.
Context {QPS : QPSolverInterface D Solver}.
Context {QPR : QPSolverReport D Solver}.
Context {LPF : LowpassFilter D Lpf}.
Context {SP : SteeringPredictor D Predictor}.
Context {TU : TrajectoryUtils D Pose TrajectoryPoint}.
Context {REP : Reporting D Trajectory}.
Context {WT : WeightTable D}.

Local Open Scope double_scope.

Local Abbreviation Diagnostic := (list D).

Local Abbreviation MPC := (@MPC D Lpf Predictor Solver).
Local Abbreviation M := (@M D Lpf Predictor Solver).
Local Abbreviation keeps m := (@keeps D Lpf Predictor Solver _ m).

(** ** The monad *)

Lemma bind_inv {A B} (m : M A) (f : A -> M B) (self self' : MPC) (r : Res B) :
  bind m f self = (self', r) ->
  (exists s1 a, m self = (s1, Ok a) /\ f a s1 = (self', r)) \/
  (exists msg, m self = (self', Fail msg) /\ r = Fail msg) \/
  (m self = (self', Raise) /\ r = Raise).
Proof.
  unfold bind. destruct (m self) as [s1 [a | msg | ]]; intros E.
  - left. eauto.
  - right. left. inversion E; subst. eauto.
  - right. right. inversion E; subst. auto.
Qed.

Lemma or_fail_inv {A} (m : M (option A)) (msg : string)
    (self self' : MPC) (r : Res A) :
  or_fail m msg self = (self', r) ->
  (exists a, m self = (self', Ok (Some a)) /\ r = Ok a) \/
  (m self = (self', Ok None) /\ r = Fail msg) \/
  (exists msg', m self = (self', Fail msg') /\ r = Fail msg') \/
  (m self = (self', Raise) /\ r = Raise).
Proof.
  unfold or_fail. intros E. apply bind_inv in E.
  destruct E as [(s1 & [a | ] & E1 & E2) | [(msg' & E1 & E2) | (E1 & E2)]].
  - left. inversion E2; subst. eauto.
  - right. left. inversion E2; subst. auto.
  - right. right. left. eauto.
  - right. right. right. auto.
Qed.

Lemma frame_refl (s : MPC) : frame s s.
Proof. split; reflexivity. Qed.

Lemma frame_trans {s1 s2 s3 : MPC} : frame s1 s2 -> frame s2 s3 -> frame s1 s3.
Proof. intros [a b] [c d]. split; congruence. Qed.

Ltac break_match H :=
  match type of H with
  | context [match ?e with _ => _ end] =>
      lazymatch e with
      | context [match _ with _ => _ end] => fail
      | _ => destruct e eqn:?
      end
  | context [if ?e then _ else _] =>
      lazymatch e with
      | context [if _ then _ else _] => fail
      | _ => destruct e eqn:?
      end
  end.

Ltac frame_by_cases H :=
  repeat break_match H; inversion H; subst; split; reflexivity.

Lemma keeps_or_fail {A} (m : M (option A)) (msg : string) :
  keeps m -> keeps (or_fail m msg).
Proof.
  intros K self self' r E. apply or_fail_inv in E.
  destruct E as [(a & E & _) | [(E & _) | [(msg' & E & _) | (E & _)]]];
    exact (K _ _ _ E).
Qed.

Lemma keeps_ret {A} (a : A) : keeps (ret a : M A).
Proof. intros self self' r E. inversion E; subst. apply frame_refl. Qed.

Lemma or_raise_inv {A} (o : option A) (self self' : MPC) (r : Res A) :
  or_raise o self = (self', r) ->
  self' = self /\
  ((exists a, o = Some a /\ r = Ok a) \/ (o = None /\ r = Raise)).
Proof.
  unfold or_raise, ret, raise. destruct o as [a | ]; intros E;
    inversion E; subst; split; eauto.
Qed.

Lemma keeps_getData traj current_steer (current_kinematics : Odometry D Pose) :
  keeps (getData traj current_steer current_kinematics).
Proof. intros self self' r E. unfold getData in E. frame_by_cases E. Qed.

Lemma keeps_getInitialState (data : MPCData D Pose) :
  keeps (getInitialState data).
Proof. intros self self' r E. unfold getInitialState in E. frame_by_cases E. Qed.

Lemma keeps_updateStateForDelayCompensation traj start_time x0_orig :
  keeps (updateStateForDelayCompensation traj start_time x0_orig).
Proof.
  intros self self' r E. unfold updateStateForDelayCompensation in E.
  frame_by_cases E.
Qed.

Lemma keeps_generateMPCMatrix reference_trajectory prediction_dt :
  keeps (generateMPCMatrix reference_trajectory prediction_dt).
Proof.
  intros self self' r E. unfold generateMPCMatrix in E. frame_by_cases E.
Qed.

Lemma keeps_executeOptimization m x0 prediction_dt traj current_velocity :
  keeps (executeOptimization m x0 prediction_dt traj current_velocity).
Proof.
  intros self self' r E. unfold executeOptimization in E.
  destruct (qp_problem m x0 prediction_dt traj current_velocity)
    as [[[[[[H ft] A] lb] ub] lbA] ubA].
  frame_by_cases E.
Qed.

Create HintDb keeps.
#[local] Hint Resolve keeps_or_fail keeps_ret keeps_getData
  keeps_getInitialState keeps_updateStateForDelayCompensation
  keeps_generateMPCMatrix keeps_executeOptimization : keeps.

Lemma executeOptimization_some m x0 prediction_dt traj current_velocity
    (self self' : MPC) (Uex : Matrix D) :
  executeOptimization m x0 prediction_dt traj current_velocity self
  = (self', Ok (Some Uex)) ->
  any_isnan Uex = false.
Proof.
  unfold executeOptimization.
  destruct (qp_problem m x0 prediction_dt traj current_velocity)
    as [[[[[[H ft] A] lb] ub] lbA] ubA].
  destruct (solve (m_qpsolver self) H ft A lb ub lbA ubA) as [solver [ok U]].
  destruct (negb ok); [discriminate | ].
  destruct (any_isnan U) eqn:N; [discriminate | ].
  intros E. inversion E; subst. exact N.
Qed.

Lemma executeOptimization_solver_output m x0 prediction_dt traj
    current_velocity (self self' : MPC) (Uex : Matrix D) :
  executeOptimization m x0 prediction_dt traj current_velocity self
  = (self', Ok (Some Uex)) ->
  solver_output self (m_qpsolver self') Uex.
Proof.
  unfold executeOptimization, solver_output.
  intros E m' x0' prediction_dt' traj' current_velocity'.
  change (qp_problem m' x0' prediction_dt' traj' current_velocity')
    with (qp_problem m x0 prediction_dt traj current_velocity).
  destruct (qp_problem m x0 prediction_dt traj current_velocity)
    as [[[[[[H ft] A] lb] ub] lbA] ubA].
  destruct (solve (m_qpsolver self) H ft A lb ub lbA ubA) as [solver [ok U]].
  destruct ok; cbn [negb] in E; [ | discriminate E].
  destruct (any_isnan U); [discriminate E | ].
  inversion E; subst. reflexivity.
Qed.

Local Abbreviation preserves f m := (@preserves D Lpf Predictor Solver _ _ f m).

Lemma preserves_bind {X A B} (f : MPC -> X) (m : M A) (k : A -> M B) :
  preserves f m -> (forall a, preserves f (k a)) -> preserves f (bind m k).
Proof.
  intros Hm Hk self self' r E. apply bind_inv in E.
  destruct E as [(s1 & a & E1 & E2) | [(msg & E1 & _) | (E1 & _)]].
  - rewrite (Hk a _ _ _ E2). exact (Hm _ _ _ E1).
  - exact (Hm _ _ _ E1).
  - exact (Hm _ _ _ E1).
Qed.

Lemma preserves_or_fail {X A} (f : MPC -> X) (m : M (option A))
    (msg : string) :
  preserves f m -> preserves f (or_fail m msg).
Proof.
  intros K self self' r E. apply or_fail_inv in E.
  destruct E as [(a & E & _) | [(E & _) | [(msg' & E & _) | (E & _)]]];
    exact (K _ _ _ E).
Qed.

Lemma preserves_ret {X A} (f : MPC -> X) (a : A) : preserves f (ret a : M A).
Proof. intros self self' r E. inversion E; subst. reflexivity. Qed.

Lemma preserves_get {X} (f : MPC -> X) : preserves f (get : M MPC).
Proof. intros self self' r E. inversion E; subst. reflexivity. Qed.

Ltac same_by_cases H :=
  repeat break_match H; inversion H; subst; reflexivity.

Lemma preserves_or_raise {X A} (f : MPC -> X) (o : option A) :
  preserves f (or_raise o).
Proof.
  intros self self' r E. apply or_raise_inv in E. destruct E as [-> _].
  reflexivity.
Qed.

(** The stages before the optimisation leave the solver as it is. *)
Lemma solver_getData traj current_steer
    (current_kinematics : Odometry D Pose) :
  preserves m_qpsolver (getData traj current_steer current_kinematics).
Proof. intros self self' r E. unfold getData in E. same_by_cases E. Qed.

Lemma solver_getInitialState (data : MPCData D Pose) :
  preserves m_qpsolver (getInitialState data).
Proof. intros self self' r E. unfold getInitialState in E. same_by_cases E. Qed.

Lemma solver_updateStateForDelayCompensation traj start_time x0_orig :
  preserves m_qpsolver
    (updateStateForDelayCompensation traj start_time x0_orig).
Proof.
  intros self self' r E. unfold updateStateForDelayCompensation in E.
  same_by_cases E.
Qed.

Lemma solver_generateMPCMatrix reference_trajectory prediction_dt :
  preserves m_qpsolver (generateMPCMatrix reference_trajectory prediction_dt).
Proof.
  intros self self' r E. unfold generateMPCMatrix in E. same_by_cases E.
Qed.

Create HintDb solver.
#[local] Hint Resolve preserves_or_fail preserves_ret solver_getData
  solver_getInitialState solver_updateStateForDelayCompensation
  solver_generateMPCMatrix : solver.

(** One stage of the pipeline: either it hands a value to the next stage, or
    the cycle ends there with the frame intact. *)
Ltac stage E Fr Q E1 :=
  cbv beta zeta in E;
  match type of E with
  | bind ?m _ _ = _ =>
      let K := fresh "K" in
      let KQ := fresh "KQ" in
      assert (K : keeps m) by auto with keeps;
      assert (KQ : preserves m_qpsolver m) by auto with solver;
      apply bind_inv in E;
      let s1 := fresh "s" in
      let a := fresh "v" in
      let Fr' := fresh "Fr" in
      destruct E as [(s1 & a & E1 & E) | [(? & E1 & ->) | (E1 & ->)]];
      [ pose proof (frame_trans Fr (K _ _ _ E1)) as Fr'; clear Fr K;
        rename Fr' into Fr;
        rewrite <- (KQ _ _ _ E1) in Q; clear KQ
      | exact (frame_trans Fr (K _ _ _ E1))
      | left; exact (frame_trans Fr (K _ _ _ E1)) ]
  end.

(** ** What a control cycle does to the history *)

(** A cycle that returns false, or that [generateMPCMatrix] leaves by an
    exception, has touched neither the history nor the steering filter. A
    cycle that passes the optimisation synthesises the command and writes the
    history; [generateDiagData] can still leave it by an exception. *)
Lemma calculateMPC_outcome current_steer
    (current_kinematics : Odometry D Pose) (self self' : MPC)
    (r : Res (AckermannLateralCommand D * Trajectory * Diagnostic)) :
  calculateMPC current_steer current_kinematics self = (self', r) ->
  match r with
  | Ok (ctrl_cmd, _, _) =>
      exists Uex, committed self self' Uex (steering_tire_angle ctrl_cmd)
  | Fail _ => frame self self'
  | Raise =>
      frame self self' \/
      exists Uex reference_trajectory mpc_data_traj_raw mpc_data mpc_matrix
             ctrl_cmd,
        committed self self' Uex (steering_tire_angle ctrl_cmd) /\
        generateDiagData self' reference_trajectory mpc_data_traj_raw
          mpc_data mpc_matrix ctrl_cmd Uex current_kinematics = None
  end.
Proof.
  unfold calculateMPC. intros E.
  apply bind_inv in E.
  destruct E as [(s0 & self0 & E0 & E) | [(? & E0 & _) | (E0 & _)]];
    try discriminate E0.
  inversion E0; subst s0 self0; clear E0.
  pose proof (frame_refl self) as Fr.
  assert (Q : m_qpsolver self = m_qpsolver self) by reflexivity.
  set (solver0 := m_qpsolver self) in Q at 2.
  do 7 (stage E Fr Q E1; clear E1).
  (* the optimisation *)
  cbv beta zeta in E. apply bind_inv in E.
  destruct E as [(s7 & Uex & E1 & E) | [(? & E1 & ->) | (E1 & ->)]].
  2: { exact (frame_trans Fr (keeps_or_fail _ _ (keeps_executeOptimization
                                                  _ _ _ _ _) _ _ _ E1)). }
  2: { left.
       exact (frame_trans Fr (keeps_or_fail _ _ (keeps_executeOptimization
                                                  _ _ _ _ _) _ _ _ E1)). }
  pose proof (frame_trans Fr (keeps_or_fail _ _ (keeps_executeOptimization
                                                  _ _ _ _ _) _ _ _ E1))
    as Fr'.
  clear Fr. rename Fr' into Fr.
  apply or_fail_inv in E1.
  destruct E1 as [(U & E1 & EU) | [(_ & EU) | [(? & _ & EU) | (_ & EU)]]];
    try discriminate EU.
  inversion EU; subst U; clear EU.
  pose proof (executeOptimization_some _ _ _ _ _ _ _ _ E1) as Nan.
  apply executeOptimization_solver_output in E1.
  unfold solver_output in E1. rewrite Q in E1. subst solver0.
  (* the command and the history *)
  cbv beta zeta in E.
  unfold bind, lpf_steering_cmd_filter, modify, get, ret in E.
  destruct Fr as [Fh Fl]. unfold history in Fh. inversion Fh as [[Hb Hp Hpp]].
  match type of E with
  | context [filter (m_lpf_steering_cmd ?s) ?u] =>
      destruct (filter (m_lpf_steering_cmd s) u) as [lpf u_filtered] eqn:EF
  end.
  match type of E with
  | context [or_raise ?o ?s] =>
      destruct (or_raise o s) as [s8 rd] eqn:ED
  end.
  apply or_raise_inv in ED. destruct ED as [-> [(d & ED & ->) | [ED ->]]].
  - inversion E; subst self' r; clear E. cbn [steering_tire_angle].
    exists Uex, u_filtered. cbn.
    rewrite Fl in EF. rewrite Hb, Hp.
    repeat split; try reflexivity; assumption.
  - inversion E; subst self' r; clear E. right.
    match type of ED with
    | generateDiagData _ ?t ?raw ?data ?m ?c _ _ = None =>
        exists Uex, t, raw, data, m, c
    end.
    split; [ | exact ED].
    exists u_filtered. cbn.
    rewrite Fl in EF. rewrite Hb, Hp.
    repeat split; try reflexivity; assumption.
Qed.


Lemma std_clamp_within `{!ScalarOrder D} (v lo hi : D) :
  (hi <? lo) = false -> within lo hi (std_clamp v lo hi).
Proof.
  intros Hlohi. unfold within, std_clamp.
  destruct (v <? lo) eqn:E1.
  - split; [apply dlt_irrefl | exact Hlohi].
  - destruct (hi <? v) eqn:E2.
    + split; [exact Hlohi | apply dlt_irrefl].
    + split; assumption.
Qed.

(** C3, as the code has it. In a successful cycle, whatever the first
    component of the solution [Uex] that the solver returned in this cycle,
    the saturated value [clamp(Uex(0), -m_steer_lim, m_steer_lim)] lies within
    [[-m_steer_lim, m_steer_lim]] (for a limit that is not below its own
    negation); this value is what the steering low-pass filter is fed, and
    the steering angle of the command is the filter's output, cast to float. *)
Theorem saturated_input_within_steer_lim `{!ScalarOrder D} current_steer
    (current_kinematics : Odometry D Pose) (self self' : MPC)
    (ctrl_cmd : AckermannLateralCommand D) (predicted : Trajectory)
    (diagnostic : Diagnostic) :
  (m_steer_lim self <? - m_steer_lim self) = false ->
  calculateMPC current_steer current_kinematics self
  = (self', Ok (ctrl_cmd, predicted, diagnostic)) ->
  exists Uex u_filtered,
    let u_saturated :=
      std_clamp (coeff Uex 0 0) (- m_steer_lim self) (m_steer_lim self) in
    solver_output self (m_qpsolver self') Uex /\
    m_raw_steer_cmd_prev self' = coeff Uex 0 0 /\
    within (- m_steer_lim self) (m_steer_lim self) u_saturated /\
    filter (m_lpf_steering_cmd self) u_saturated
    = (m_lpf_steering_cmd self', u_filtered) /\
    steering_tire_angle ctrl_cmd = to_float u_filtered.
Proof.
  intros Hlim E. apply calculateMPC_outcome in E.
  destruct E as (Uex & u_filtered & SO & _ & EF & EA & _ & _ & Ep).
  exists Uex, u_filtered. cbv zeta.
  repeat (split; [assumption | ]).
  split; [ | split; assumption].
  apply std_clamp_within. exact Hlim.
Qed.

Lemma pop_push_length (q : list D) (v : D) :
  List.length (pop_front (push_back q v)) = List.length q.
Proof.
  unfold pop_front, push_back. destruct q as [ | a q]; cbn.
  - reflexivity.
  - rewrite length_app. cbn. lia.
Qed.

Lemma calculateMPC_buffer_length current_steer
    (current_kinematics : Odometry D Pose) (self : MPC) :
  List.length
    (m_input_buffer (fst (calculateMPC current_steer current_kinematics self)))
  = List.length (m_input_buffer self).
Proof.
  destruct (calculateMPC current_steer current_kinematics self)
    as [self' r] eqn:E.
  apply calculateMPC_outcome in E. cbn [fst].
  destruct r as [[[ctrl_cmd ?] ?] | msg | ].
  - destruct E as (Uex & u & _ & _ & _ & _ & Eb & _).
    rewrite Eb. apply pop_push_length.
  - destruct E as [Fh _]. unfold history in Fh.
    inversion Fh as [[Eb Ep Epp]]. reflexivity.
  - destruct E as [[Fh _] | E].
    + unfold history in Fh. inversion Fh as [[Eb Ep Epp]]. reflexivity.
    + destruct E as (Uex & _ & _ & _ & _ & ctrl_cmd & C & _).
      destruct C as (u & _ & _ & _ & _ & Eb & _).
      rewrite Eb. apply pop_push_length.
Qed.

(** C4. The length of the delay input buffer is the same after any number of
    control cycles as before them; a successful cycle pushes the command it
    issues at the back and pops the oldest entry at the front. *)
Theorem input_buffer_length_invariant :
  (forall (ticks : list (SteeringReport D * Odometry D Pose)) (self : MPC),
      List.length (m_input_buffer (fst (run_cycles ticks self)))
      = List.length (m_input_buffer self)) /\
  (forall current_steer (current_kinematics : Odometry D Pose)
          (self self' : MPC) ctrl_cmd (predicted : Trajectory)
          (diagnostic : Diagnostic),
      calculateMPC current_steer current_kinematics self
      = (self', Ok (ctrl_cmd, predicted, diagnostic)) ->
      m_input_buffer self'
      = pop_front (push_back (m_input_buffer self)
                     (steering_tire_angle ctrl_cmd))).
Proof.
  split.
  - induction ticks as [ | [current_steer current_kinematics] rest IH];
      intros self; cbn [run_cycles].
    + reflexivity.
    + pose proof (calculateMPC_buffer_length current_steer current_kinematics
                    self) as L.
      destruct (calculateMPC current_steer current_kinematics self)
        as [s1 r].
      specialize (IH s1).
      destruct (run_cycles rest s1) as [s2 rs]. cbn [fst] in *. congruence.
  - intros current_steer current_kinematics self self' ctrl_cmd predicted
      diagnostic E.
    apply calculateMPC_outcome in E.
    destruct E as (Uex & u & _ & _ & _ & _ & Eb & _). exact Eb.
Qed.

(** C5. [getData] returns failure exactly when the nearest-pose search fails,
    or the distance to the nearest pose exceeds the admissible position error,
    or the absolute yaw error exceeds the admissible yaw error, or the time
    [nearest_time + input_delay + ctrl_period + min_prediction_length / (N - 1)]
    lies beyond the last time of the trajectory; and when it fails on the
    reference trajectory the cycle returns false without a command. *)
Theorem getData_fails_iff traj current_steer
    (current_kinematics : Odometry D Pose) (self : MPC) :
  (snd (getData traj current_steer current_kinematics self) = Ok None <->
   match calcNearestPoseInterp traj (pose current_kinematics)
           (ego_nearest_dist_threshold self) (ego_nearest_yaw_threshold self)
   with
   | None => True
   | Some (nearest_pose, _, nearest_time) =>
       inadmissible self traj (pose current_kinematics) nearest_pose
         nearest_time
   end) /\
  (snd (getData
          (applyVelocityDynamicsFilter self (m_reference_trajectory self)
             current_kinematics)
          current_steer current_kinematics self) = Ok None ->
   snd (calculateMPC current_steer current_kinematics self)
   = Fail "fail to get MPC Data. Stop MPC.").
Proof.
  split.
  - unfold getData, inadmissible.
    destruct (calcNearestPoseInterp traj (pose current_kinematics) _ _)
      as [[[nearest_pose nearest_idx] nearest_time] | ]; cbn.
    2: { split; auto. }
    destruct (calcSteerPrediction (m_steering_predictor self))
      as [predictor predicted_steer].
    change (m_admissible_position_error (set_m_steering_predictor self predictor))
      with (m_admissible_position_error self).
    change (m_admissible_yaw_error_rad (set_m_steering_predictor self predictor))
      with (m_admissible_yaw_error_rad self).
    change (end_time (set_m_steering_predictor self predictor) nearest_time)
      with (end_time self nearest_time).
    destruct (calcDistance2d (pose current_kinematics) nearest_pose >? _);
      cbn; [split; auto | ].
    destruct (dfabs _ >? m_admissible_yaw_error_rad self);
      cbn; [split; auto | ].
    destruct (end_time self nearest_time >? _); cbn; [split; auto | ].
    split; [discriminate | ].
    intros [F | [F | F]]; discriminate F.
  - intros E. unfold calculateMPC, bind, get, or_fail, bind.
    destruct (getData _ current_steer current_kinematics self) as [s1 r1].
    cbn in E. subst r1. reflexivity.
Qed.

(** C9. With an empty input buffer the delay compensation succeeds and
    returns the initial state it was given. *)
Theorem delay_compensation_empty_buffer traj start_time (x0_orig : Matrix D)
    (self : MPC) :
  m_input_buffer self = [] ->
  snd (updateStateForDelayCompensation traj start_time x0_orig self)
  = Ok (Some x0_orig).
Proof.
  intros Hempty. unfold updateStateForDelayCompensation.
  rewrite Hempty. cbn. reflexivity.
Qed.

(** C10. The QP handed to the solver is the same for any two argument lists
    of [executeOptimization], and so is everything the call returns when it
    starts from the same solver state. *)
Theorem executeOptimization_ignores_arguments
    (m1 m2 : MPCMatrix D) (x1 x2 : Matrix D) (dt1 dt2 : D)
    (traj1 traj2 : MPCTrajectory D) (v1 v2 : D) (self : MPC) :
  qp_problem m1 x1 dt1 traj1 v1 = qp_problem m2 x2 dt2 traj2 v2 /\
  executeOptimization m1 x1 dt1 traj1 v1 self
  = executeOptimization m2 x2 dt2 traj2 v2 self.
Proof. split; reflexivity. Qed.

(** ** The prediction step size *)

Lemma travelled_next (input : MPCTrajectory D) (nearest_idx i : nat) :
  (nearest_idx < i)%nat ->
  travelled input nearest_idx i
  = travelled input nearest_idx (i - 1) + calcDistance2d_traj input i (i - 1).
Proof.
  intros Hi. unfold travelled.
  replace (i - nearest_idx)%nat with (S (i - 1 - nearest_idx)) by lia.
  rewrite seq_S, fold_left_app. cbn [fold_left].
  replace (nearest_idx + 1 + (i - 1 - nearest_idx))%nat with i by lia.
  reflexivity.
Qed.

Lemma target_time_loop_finds_crossing (self : MPC) (input : MPCTrajectory D)
    (nearest_idx n start : nat) :
  (nearest_idx < start)%nat ->
  target_time_loop self input (seq start n)
    (travelled input nearest_idx (start - 1))
  = option_map (crossing_time self input nearest_idx)
      (find (fun i => min_prediction_length (m_param self)
                      <? travelled input nearest_idx i)
            (seq start n)).
Proof.
  revert start. induction n as [ | n IH]; intros start Hs.
  - reflexivity.
  - cbn [seq target_time_loop find].
    rewrite <- (travelled_next input _ _ Hs).
    destruct (min_prediction_length (m_param self)
              <? travelled input nearest_idx start) eqn:C.
    + cbn [option_map]. unfold crossing_time. reflexivity.
    + specialize (IH (S start)).
      replace (S start - 1)%nat with start in IH by lia.
      apply IH. lia.
Qed.

Lemma target_time_refines (self : MPC) (input : MPCTrajectory D)
    (current_kinematics : Odometry D Pose) :
  target_time self input current_kinematics
  = target_time_spec self input current_kinematics.
Proof.
  unfold target_time, target_time_spec, crossing. cbv zeta.
  set (nearest_idx := findFirstNearestIndexWithSoftConstraints _ _ _ _).
  pose proof (@target_time_loop_finds_crossing self input nearest_idx
                (List.length (relative_time input) - (nearest_idx + 1))
                (nearest_idx + 1)) as L.
  replace (nearest_idx + 1 - 1)%nat with nearest_idx in L by lia.
  assert (Z0 : travelled input nearest_idx nearest_idx = of_Q 0).
  { unfold travelled. rewrite Nat.sub_diag. reflexivity. }
  rewrite Z0 in L. rewrite L by lia.
  destruct (find _ _); reflexivity.
Qed.

Lemma std_max_not_below `{!ScalarOrder D} (a b : D) :
  (std_max a b <? b) = false.
Proof.
  unfold std_max. destruct (a <? b) eqn:E.
  - apply dlt_irrefl.
  - exact E.
Qed.

(** C6. The prediction step size is the greater of
    [(target_time - start_time) / (N - 1)] and the configured
    [prediction_dt], where the target time is the interpolated time at which
    the distance travelled from the nearest point first exceeds the minimum
    prediction length (and the end of the trajectory, less its extension, if
    it never does); the step size is never below [prediction_dt]. *)
Theorem prediction_dt_is_max_with_floor `{!ScalarOrder D} (self : MPC)
    (start_time : D) (input : MPCTrajectory D)
    (current_kinematics : Odometry D Pose) :
  getPredictionDeltaTime self start_time input current_kinematics
  = std_max
      ((target_time_spec self input current_kinematics - start_time) /
       of_Z (prediction_horizon (m_param self) - 1))
      (prediction_dt (m_param self)) /\
  (getPredictionDeltaTime self start_time input current_kinematics
   <? prediction_dt (m_param self)) = false.
Proof.
  unfold getPredictionDeltaTime. cbv zeta.
  rewrite target_time_refines. split.
  - reflexivity.
  - apply std_max_not_below.
Qed.

(** ** The stacked prediction matrices *)

Lemma coeff_set_block_in (M B : Matrix D) (r c h w i j : nat) :
  (r <= i < r + h)%nat -> (c <= j < c + w)%nat ->
  coeff (set_block M r c h w B) i j = coeff B (i - r) (j - c).
Proof.
  intros [Hi1 Hi2] [Hj1 Hj2]. unfold set_block. cbn [coeff].
  apply Nat.leb_le in Hi1, Hj1. apply Nat.ltb_lt in Hi2, Hj2.
  rewrite Hi1, Hi2, Hj1, Hj2. reflexivity.
Qed.

Lemma coeff_set_block_out (M B : Matrix D) (r c h w i j : nat) :
  (i < r \/ r + h <= i \/ j < c \/ c + w <= j)%nat ->
  coeff (set_block M r c h w B) i j = coeff M i j.
Proof.
  intros Hout. unfold set_block. cbn [coeff].
  destruct (Nat.leb_spec r i); cbn [andb]; [ | reflexivity].
  destruct (Nat.ltb_spec i (r + h)); cbn [andb]; [ | reflexivity].
  destruct (Nat.leb_spec c j); cbn [andb]; [ | reflexivity].
  destruct (Nat.ltb_spec j (c + w)); cbn [andb]; [ | reflexivity].
  lia.
Qed.

Lemma dsum_ext (n : nat) (f g : nat -> D) :
  (forall k, (k < n)%nat -> f k = g k) -> dsum n f = dsum n g.
Proof.
  induction n as [ | n IH]; intros E; cbn.
  - reflexivity.
  - rewrite IH by (intros; apply E; lia). rewrite E by lia. reflexivity.
Qed.

Lemma agree_above_refl n (M : Matrix D) : agree_above n M M.
Proof. intros a b _. reflexivity. Qed.

Lemma agree_above_set_block n (M B : Matrix D) (r c h w : nat) :
  (n <= r)%nat -> agree_above n M (set_block M r c h w B).
Proof. intros Hn a b Ha. apply coeff_set_block_out. lia. Qed.

Lemma agree_above_trans n (M1 M2 M3 : Matrix D) :
  agree_above n M1 M2 -> agree_above n M2 M3 -> agree_above n M1 M3.
Proof. intros H12 H23 a b Ha. rewrite H23, H12 by assumption. reflexivity. Qed.

(** The product with a block only reads that block. *)
Lemma mmul_block_agree (Ad M M' : Matrix D) (r c h w n a b : nat) :
  agree_above n M M' -> (r + h <= n)%nat ->
  coeff (mmul Ad (block M' r c h w)) a b = coeff (mmul Ad (block M r c h w)) a b.
Proof.
  intros Ag Hn. cbn. apply dsum_ext. intros k Hk.
  rewrite Ag by lia. reflexivity.
Qed.

(** The inner loop on [Bex] after [n] passes. *)
Lemma Bex_fold_spec (Ad B : Matrix D) (p n : nat) :
  let DIM_X := getDimX in
  let DIM_U := getDimU in
  let B' :=
    fold_left
      (fun B j =>
         set_block B (S p * DIM_X) (j * DIM_U) DIM_X DIM_U
           (mmul Ad (block B (p * DIM_X) (j * DIM_U) DIM_X DIM_U)))
      (seq 0 n) B in
  agree_above (S p * DIM_X) B B' /\
  forall j, (j < n)%nat ->
    block_eq B' (S p * DIM_X) (j * DIM_U) DIM_X DIM_U
      (mmul Ad (block B (p * DIM_X) (j * DIM_U) DIM_X DIM_U)).
Proof.
  cbv zeta. induction n as [ | n [IHa IHb]].
  - split; [apply agree_above_refl | intros j Hj; lia].
  - rewrite seq_S, fold_left_app. cbn [fold_left Nat.add].
    set (B' := fold_left _ (seq 0 n) B) in *.
    split.
    + eapply agree_above_trans; [exact IHa | ].
      apply agree_above_set_block. lia.
    + intros j Hj a b Ha Hb.
      destruct (Nat.eq_dec j n) as [-> | Hne].
      * rewrite coeff_set_block_in by lia.
        replace (S p * getDimX + a - S p * getDimX)%nat with a by lia.
        replace (n * getDimU + b - n * getDimU)%nat with b by lia.
        apply mmul_block_agree with (n := (S p * getDimX)%nat); [exact IHa | lia].
      * rewrite coeff_set_block_out by nia.
        apply IHb; [lia | assumption | assumption].
Qed.

(** What one pass of the main loop writes, and what it leaves alone. *)
Lemma gen_step_spec (self : MPC) (reference_trajectory : MPCTrajectory D)
    (DT : D) (i : nat) (m m' : MPCMatrix D) (vm vm' : VehicleModel D) :
  gen_step self reference_trajectory DT i m vm = Some (m', vm') ->
  let DIM_X := getDimX in
  agree_above (i * DIM_X) (Aex m) (Aex m') /\
  agree_above (i * DIM_X) (Bex m) (Bex m') /\
  agree_above (i * DIM_X) (Wex m) (Wex m') /\
  exists Ad Bd Cd Wd,
    discrete_matrix_at self reference_trajectory DT i = Some (Ad, Bd, Cd, Wd) /\
    recursion_at m' i Ad Bd Wd.
Proof.
  unfold gen_step, discrete_matrix_at. cbv zeta.
  destruct (at_ (vx reference_trajectory) i) as [ref_vx | ]; [ | discriminate].
  destruct (at_ (k reference_trajectory) i) as [k_i | ]; [ | discriminate].
  destruct (at_ (smooth_k reference_trajectory) i) as [sk_i | ];
    [ | discriminate].
  cbn [setVelocity setCurvature m_velocity m_curvature].
  destruct (calculateDiscreteMatrix _ DT) as [[[Ad Bd] Cd] Wd].
  intros E. inversion E; subst m' vm'; clear E.
  cbn [Aex Bex Wex].
  destruct i as [ | p].
  - cbn [Nat.eqb Nat.mul].
    repeat split; try (intros a b Ha; lia).
    exists Ad, Bd, Cd, Wd. split; [reflexivity | ].
    unfold recursion_at. cbn [Aex Bex Wex Nat.mul].
    repeat split; intros a b Ha Hb;
      rewrite ?coeff_set_block_in by lia;
      cbn [Nat.add]; rewrite ?Nat.sub_0_r; reflexivity.
  - cbn [Nat.eqb]. replace (S p - 1)%nat with p by lia.
    unfold Bex_row. cbv zeta. replace (S p - 1)%nat with p by lia.
    destruct (Bex_fold_spec Ad (Bex m) p (S p)) as [Fa Fb].
    cbv zeta in Fa, Fb.
    set (B' := fold_left _ (seq 0 (S p)) (Bex m)) in *.
    split; [apply agree_above_set_block; lia | ].
    split; [eapply agree_above_trans;
            [exact Fa | apply agree_above_set_block; lia] | ].
    split; [apply agree_above_set_block; lia | ].
    exists Ad, Bd, Cd, Wd. split; [reflexivity | ].
    unfold recursion_at. cbn [Aex Bex Wex].
    split; [ | split; [ | split]].
    + intros a b Ha Hb. rewrite coeff_set_block_in by lia.
      f_equal; lia.
    + intros a b Ha Hb. rewrite coeff_set_block_in by lia.
      replace (S p * getDimX + a - S p * getDimX)%nat with a by lia.
      replace (0 + b - 0)%nat with b by lia.
      symmetry. apply mmul_block_agree with (n := (S p * getDimX)%nat).
      * apply agree_above_set_block. lia.
      * lia.
    + intros j Hj a b Ha Hb.
      rewrite coeff_set_block_out by nia.
      rewrite Fb by assumption.
      symmetry. apply mmul_block_agree with (n := (S p * getDimX)%nat).
      * eapply agree_above_trans;
          [exact Fa | apply agree_above_set_block; lia].
      * lia.
    + intros a b Ha Hb. rewrite coeff_set_block_in by lia.
      replace (S p * getDimX + a - S p * getDimX)%nat with a by lia.
      replace (0 + b - 0)%nat with b by lia.
      cbn [madd coeff]. f_equal.
      symmetry. apply mmul_block_agree with (n := (S p * getDimX)%nat).
      * apply agree_above_set_block. lia.
      * lia.
Qed.

Lemma gen_loop_app (self : MPC) (reference_trajectory : MPCTrajectory D)
    (DT : D) (l1 l2 : list nat) (m : MPCMatrix D) (vm : VehicleModel D) :
  gen_loop self reference_trajectory DT (l1 ++ l2) m vm
  = match gen_loop self reference_trajectory DT l1 m vm with
    | (vm1, Some m1) => gen_loop self reference_trajectory DT l2 m1 vm1
    | (vm1, None) => (vm1, None)
    end.
Proof.
  revert m vm. induction l1 as [ | i l1 IH]; intros m vm; cbn.
  - reflexivity.
  - destruct (gen_step self reference_trajectory DT i m vm) as [[m1 vm1] | ].
    + apply IH.
    + reflexivity.
Qed.

Lemma block_eq_agree (M M' B : Matrix D) (n r c h w : nat) :
  agree_above n M M' -> (r + h <= n)%nat ->
  block_eq M r c h w B -> block_eq M' r c h w B.
Proof.
  intros Ag Hn E a b Ha Hb. rewrite Ag by lia. apply E; assumption.
Qed.

Lemma block_eq_mmul_agree (M M' X X' Ad : Matrix D) (n r c h w r0 c0 w0 : nat) :
  agree_above n M M' -> agree_above n X X' ->
  (r + h <= n)%nat -> (r0 + h <= n)%nat ->
  block_eq M r c h w (mmul Ad (block X r0 c0 h w0)) ->
  block_eq M' r c h w (mmul Ad (block X' r0 c0 h w0)).
Proof.
  intros AgM AgX Hn Hn0 E a b Ha Hb.
  rewrite AgM by lia. rewrite E by assumption.
  symmetry. apply mmul_block_agree with (n := n); assumption.
Qed.

(** The recursion of a block row survives whatever is written below it. *)
Lemma recursion_at_agree (m m' : MPCMatrix D) (n i : nat)
    (Ad Bd Wd : Matrix D) :
  (i < n)%nat ->
  agree_above (n * getDimX) (Aex m) (Aex m') ->
  agree_above (n * getDimX) (Bex m) (Bex m') ->
  agree_above (n * getDimX) (Wex m) (Wex m') ->
  recursion_at m i Ad Bd Wd -> recursion_at m' i Ad Bd Wd.
Proof.
  intros Hi AgA AgB AgW. unfold recursion_at. cbv zeta.
  intros [HB Hrec]. split.
  - eapply block_eq_agree; [exact AgB | nia | exact HB].
  - destruct i as [ | p].
    + destruct Hrec as [HA HW]. split.
      * eapply block_eq_agree; [exact AgA | nia | exact HA].
      * eapply block_eq_agree; [exact AgW | nia | exact HW].
    + destruct Hrec as (HA & HBj & HW). split; [ | split].
      * eapply block_eq_mmul_agree;
          [exact AgA | exact AgA | nia | nia | exact HA].
      * intros j Hj.
        eapply block_eq_mmul_agree;
          [exact AgB | exact AgB | nia | nia | exact (HBj j Hj)].
      * intros a b Ha Hb. rewrite AgW by nia. rewrite HW by assumption.
        cbn [madd coeff]. f_equal.
        symmetry. apply mmul_block_agree with (n := (n * getDimX)%nat);
          [exact AgW | nia].
Qed.

Lemma gen_loop_recursion (self : MPC) (reference_trajectory : MPCTrajectory D)
    (DT : D) (n : nat) (m0 m' : MPCMatrix D) (vm0 vm' : VehicleModel D) :
  gen_loop self reference_trajectory DT (seq 0 n) m0 vm0 = (vm', Some m') ->
  forall i, (i < n)%nat ->
  exists Ad Bd Cd Wd,
    discrete_matrix_at self reference_trajectory DT i = Some (Ad, Bd, Cd, Wd) /\
    recursion_at m' i Ad Bd Wd.
Proof.
  revert m' vm'. induction n as [ | n IH]; intros m' vm' E i Hi.
  - lia.
  - rewrite seq_S, gen_loop_app in E. cbn [Nat.add] in E.
    destruct (gen_loop self reference_trajectory DT (seq 0 n) m0 vm0)
      as [vm1 [m1 | ]] eqn:E1; [ | discriminate].
    cbn [gen_loop] in E.
    destruct (gen_step self reference_trajectory DT n m1 vm1)
      as [[m2 vm2] | ] eqn:E2; [ | discriminate].
    inversion E; subst m2 vm2; clear E.
    apply gen_step_spec in E2. cbv zeta in E2.
    destruct E2 as (AgA & AgB & AgW & Ad & Bd & Cd & Wd & EM & Rn).
    destruct (Nat.eq_dec i n) as [-> | Hne].
    + exists Ad, Bd, Cd, Wd. split; assumption.
    + destruct (IH m1 vm1 eq_refl i) as (Ad' & Bd' & Cd' & Wd' & EM' & Ri);
        [lia | ].
      exists Ad', Bd', Cd', Wd'. split; [exact EM' | ].
      apply recursion_at_agree with (m := m1) (n := n);
        [lia | assumption | assumption | assumption | exact Ri].
Qed.

Lemma generateMPCMatrix_inv (reference_trajectory : MPCTrajectory D)
    (prediction_dt : D) (self self' : MPC) (m : MPCMatrix D) :
  generateMPCMatrix reference_trajectory prediction_dt self = (self', Ok m) ->
  exists vm m1,
    predict_dynamics self reference_trajectory prediction_dt
      (m_vehicle_model self) = (vm, Some m1) /\
    Aex m = Aex m1 /\ Bex m = Bex m1 /\ Wex m = Wex m1 /\
    Uref_ex m = Uref_ex m1.
Proof.
  unfold generateMPCMatrix. cbv zeta.
  destruct (predict_dynamics self reference_trajectory prediction_dt
              (m_vehicle_model self)) as [vm [m1 | ]]; [ | discriminate].
  destruct (jerk_loop _ _ _ _ _) as [R2 | ]; [ | discriminate].
  intros E. inversion E; subst. exists vm, m1. cbn. auto.
Qed.

(** C7. In the matrices [generateMPCMatrix] returns, for every horizon step
    [i]: block [(i, i)] of [Bex] is [Bd_i]; for [i = 0] the first blocks of
    [Aex] and [Wex] are [Ad_0] and [Wd_0]; for [i >= 1] block [i] of [Aex] is
    [Ad_i] times block [i - 1] of [Aex], block [(i, j)] of [Bex] is [Ad_i]
    times block [(i - 1, j)] of [Bex] for every [j < i], and block [i] of
    [Wex] is [Ad_i] times block [i - 1] of [Wex] plus [Wd_i]. *)
Theorem stacked_matrices_recursion (reference_trajectory : MPCTrajectory D)
    (prediction_dt : D) (self self' : MPC) (m : MPCMatrix D) :
  generateMPCMatrix reference_trajectory prediction_dt self = (self', Ok m) ->
  forall i, (i < Z.to_nat (prediction_horizon (m_param self)))%nat ->
  exists Ad Bd Cd Wd,
    discrete_matrix_at self reference_trajectory prediction_dt i
    = Some (Ad, Bd, Cd, Wd) /\
    recursion_at m i Ad Bd Wd.
Proof.
  intros E i Hi. apply generateMPCMatrix_inv in E.
  destruct E as (vm & m1 & E & EA & EB & EW & _).
  unfold predict_dynamics in E. cbv zeta in E.
  destruct (gen_loop_recursion _ _ _ _ _ _ _ _ E i Hi)
    as (Ad & Bd & Cd & Wd & EM & R).
  exists Ad, Bd, Cd, Wd. split; [exact EM | ].
  unfold recursion_at in *. rewrite EA, EB, EW. exact R.
Qed.

Lemma gen_step_dead_band (self : MPC) (reference_trajectory : MPCTrajectory D)
    (DT : D) (i : nat) (m m' : MPCMatrix D) (vm vm' : VehicleModel D) :
  gen_step self reference_trajectory DT i m vm = Some (m', vm') ->
  dead_band_zeroed self reference_trajectory m ->
  dead_band_zeroed self reference_trajectory m'.
Proof.
  unfold gen_step. cbv zeta.
  destruct (at_ (vx reference_trajectory) i) as [ref_vx | ] eqn:Ev;
    [ | discriminate].
  destruct (at_ (k reference_trajectory) i) as [k_i | ]; [ | discriminate].
  destruct (at_ (smooth_k reference_trajectory) i) as [sk_i | ] eqn:Es;
    [ | discriminate].
  cbn [setVelocity setCurvature m_velocity m_curvature].
  destruct (calculateDiscreteMatrix _ DT) as [[[Ad Bd] Cd] Wd].
  intros E. inversion E; subst m' vm'; clear E.
  intros Inv i0 Hdead. cbn [Uref_ex].
  destruct (Nat.le_gt_cases (i * getDimU) (i0 * getDimU)) as [Hle | Hgt].
  - destruct (Nat.lt_ge_cases (i0 * getDimU) (i * getDimU + getDimU))
      as [Hlt | Hge].
    + assert (i0 = i) by nia. subst i0.
      rewrite coeff_set_block_in by lia.
      rewrite Nat.sub_diag. cbn [Nat.sub].
      destruct Hdead as (v & s & Ev' & Es' & Hd).
      rewrite Ev in Ev'. rewrite Es in Es'.
      inversion Ev'; inversion Es'; subst v s.
      unfold reference_input, setCurvature, setVelocity.
      cbn [m_velocity m_curvature]. rewrite Hd.
      unfold set_coeff. cbn. reflexivity.
    + rewrite coeff_set_block_out by lia. apply Inv. exact Hdead.
  - rewrite coeff_set_block_out by lia. apply Inv. exact Hdead.
Qed.

Lemma gen_loop_dead_band (self : MPC) (reference_trajectory : MPCTrajectory D)
    (DT : D) (idxs : list nat) (m m' : MPCMatrix D) (vm vm' : VehicleModel D) :
  gen_loop self reference_trajectory DT idxs m vm = (vm', Some m') ->
  dead_band_zeroed self reference_trajectory m ->
  dead_band_zeroed self reference_trajectory m'.
Proof.
  revert m vm. induction idxs as [ | i idxs IH]; intros m vm E Inv.
  - cbn in E. inversion E; subst. exact Inv.
  - cbn [gen_loop] in E.
    destruct (gen_step self reference_trajectory DT i m vm)
      as [[m1 vm1] | ] eqn:E1; [ | discriminate].
    apply (IH m1 vm1 E). eapply gen_step_dead_band; eassumption.
Qed.

(** C8. In the matrices [generateMPCMatrix] returns, the steering entry of
    [Uref_ex] for a horizon step is exactly zero whenever the magnitude of the
    reference input the vehicle model computes from the smoothed curvature of
    that step is below [deg2rad(zero_ff_steer_deg)]. *)
Theorem feed_forward_dead_band (reference_trajectory : MPCTrajectory D)
    (prediction_dt : D) (self self' : MPC) (m : MPCMatrix D) (i : nat) :
  generateMPCMatrix reference_trajectory prediction_dt self = (self', Ok m) ->
  dead_band_at self reference_trajectory i ->
  coeff (Uref_ex m) (i * getDimU) 0 = of_Q 0.
Proof.
  intros E Hdead. apply generateMPCMatrix_inv in E.
  destruct E as (vm & m1 & E & _ & _ & _ & EU).
  rewrite EU. unfold predict_dynamics in E. cbv zeta in E.
  eapply gen_loop_dead_band; [exact E | | exact Hdead].
  intros i0 _. reflexivity.
Qed.


(** * Further properties of the prediction matrices *)

Lemma gen_step_none_iff (self : MPC) (reference_trajectory : MPCTrajectory D)
    (DT : D) (i : nat) (m : MPCMatrix D) (vm : VehicleModel D) :
  gen_step self reference_trajectory DT i m vm = None <->
  covers reference_trajectory (S i) = false.
Proof.
  unfold gen_step, covers, at_. cbv zeta.
  destruct (nth_error (vx reference_trajectory) i) eqn:Ev.
  - assert (Lv : (i < List.length (vx reference_trajectory))%nat)
      by (apply nth_error_Some; congruence).
    destruct (nth_error (k reference_trajectory) i) eqn:Ek.
    + assert (Lk : (i < List.length (k reference_trajectory))%nat)
        by (apply nth_error_Some; congruence).
      destruct (nth_error (smooth_k reference_trajectory) i) eqn:Es.
      * assert (Ls : (i < List.length (smooth_k reference_trajectory))%nat)
          by (apply nth_error_Some; congruence).
        destruct (calculateDiscreteMatrix _ DT) as [[[Ad Bd] Cd] Wd].
        apply Nat.leb_le in Lv, Lk, Ls. rewrite Lv, Lk, Ls.
        split; discriminate.
      * apply nth_error_None in Es.
        split; [intros _ | reflexivity].
        rewrite !andb_false_iff. right. apply Nat.leb_gt. lia.
    + apply nth_error_None in Ek.
      split; [intros _ | reflexivity].
      rewrite !andb_false_iff. left. right. apply Nat.leb_gt. lia.
  - apply nth_error_None in Ev.
    split; [intros _ | reflexivity].
    rewrite !andb_false_iff. left. left. apply Nat.leb_gt. lia.
Qed.

Lemma covers_le (reference_trajectory : MPCTrajectory D) (n n' : nat) :
  (n' <= n)%nat -> covers reference_trajectory n = true ->
  covers reference_trajectory n' = true.
Proof.
  unfold covers. rewrite !andb_true_iff, !Nat.leb_le. lia.
Qed.

Lemma gen_loop_covers (self : MPC) (reference_trajectory : MPCTrajectory D)
    (DT : D) (n : nat) (m : MPCMatrix D) (vm : VehicleModel D) :
  (exists m', snd (gen_loop self reference_trajectory DT (seq 0 n) m vm)
              = Some m') <->
  covers reference_trajectory n = true.
Proof.
  induction n as [ | n IH].
  - cbn. split; [reflexivity | eauto].
  - rewrite seq_S, gen_loop_app. cbn [Nat.add].
    destruct (gen_loop self reference_trajectory DT (seq 0 n) m vm)
      as [vm1 [m1 | ]] eqn:E1; cbn [snd] in IH.
    + cbn [gen_loop].
      destruct (gen_step self reference_trajectory DT n m1 vm1)
        as [[m2 vm2] | ] eqn:E2.
      * cbn [snd]. split; [intros _ | eauto].
        destruct (covers reference_trajectory (S n)) eqn:C; [reflexivity | ].
        apply gen_step_none_iff with (self := self) (DT := DT) (m := m1)
          (vm := vm1) in C. congruence.
      * cbn [snd]. apply gen_step_none_iff in E2. rewrite E2.
        split; [intros [m' F]; discriminate F | discriminate].
    + cbn [snd]. split; [intros [m' F]; discriminate F | ].
      intros C. apply covers_le with (n' := n) in C; [ | lia].
      apply IH in C. destruct C as [m' F]. discriminate F.
Qed.

Lemma jerk_loop_covers (self : MPC) (reference_trajectory : MPCTrajectory D)
    (DT : D) (idxs : list nat) (n : nat) (R2 : Matrix D) :
  covers reference_trajectory n = true ->
  (forall i, In i idxs -> (i < n)%nat) ->
  exists R2', jerk_loop self reference_trajectory DT idxs R2 = Some R2'.
Proof.
  intros C. unfold covers in C. rewrite !andb_true_iff, !Nat.leb_le in C.
  destruct C as [[Cv Ck] _].
  revert R2. induction idxs as [ | i idxs IH]; intros R2 Hin.
  - cbn. eauto.
  - cbn [jerk_loop]. unfold at_.
    assert (Hi : (i < n)%nat) by (apply Hin; left; reflexivity).
    destruct (nth_error (vx reference_trajectory) i) eqn:Ev.
    2: { apply nth_error_None in Ev. lia. }
    destruct (nth_error (k reference_trajectory) i) eqn:Ek.
    2: { apply nth_error_None in Ek. lia. }
    apply IH. intros j Hj. apply Hin. right. exact Hj.
Qed.

Lemma generateMPCMatrix_by_length
    (reference_trajectory : MPCTrajectory D) (prediction_dt : D) (self : MPC) :
  (covers reference_trajectory
     (Z.to_nat (prediction_horizon (m_param self))) = true ->
   exists m,
     snd (generateMPCMatrix reference_trajectory prediction_dt self) = Ok m) /\
  (covers reference_trajectory
     (Z.to_nat (prediction_horizon (m_param self))) = false ->
   snd (generateMPCMatrix reference_trajectory prediction_dt self) = Raise).
Proof.
  enough (G : if covers reference_trajectory
                   (Z.to_nat (prediction_horizon (m_param self)))
              then exists m,
                  snd (generateMPCMatrix reference_trajectory prediction_dt
                         self) = Ok m
              else snd (generateMPCMatrix reference_trajectory prediction_dt
                          self) = Raise).
  { destruct (covers _ _); split; intros C; try discriminate C; exact G. }
  unfold generateMPCMatrix, predict_dynamics. cbv zeta.
  set (N := Z.to_nat (prediction_horizon (m_param self))).
  set (m0 := mkMPCMatrix _ _ _ _ _ _ _ _).
  pose proof (gen_loop_covers self reference_trajectory prediction_dt N m0
                (m_vehicle_model self)) as L.
  destruct (gen_loop self reference_trajectory prediction_dt (seq 0 N) m0
              (m_vehicle_model self)) as [vm [m1 | ]]; cbn [snd] in L.
  - assert (C : covers reference_trajectory N = true)
      by (apply L; eauto).
    rewrite C.
    destruct (jerk_loop_covers (set_m_vehicle_model self vm)
                reference_trajectory prediction_dt
                (seq 0 (Z.to_nat (prediction_horizon (m_param self) - 1)))
                N (R2ex m1) C) as [R2 E].
    { intros i Hi. apply in_seq in Hi. subst N. lia. }
    change (m_param (set_m_vehicle_model self vm)) with (m_param self) in E.
    cbn [m_param set_m_vehicle_model]. rewrite E. cbn. eauto.
  - destruct (covers reference_trajectory N) eqn:C.
    + destruct (proj2 L eq_refl) as [m' F]. discriminate F.
    + reflexivity.
Qed.


Lemma generateMPCMatrix_parts (reference_trajectory : MPCTrajectory D)
    (prediction_dt : D) (self self' : MPC) (m : MPCMatrix D) :
  generateMPCMatrix reference_trajectory prediction_dt self = (self', Ok m) ->
  exists vm m1 R2,
    predict_dynamics self reference_trajectory prediction_dt
      (m_vehicle_model self) = (vm, Some m1) /\
    jerk_loop (set_m_vehicle_model self vm) reference_trajectory
      prediction_dt
      (seq 0 (Z.to_nat (prediction_horizon (m_param self) - 1))) (R2ex m1)
    = Some R2 /\
    m = mkMPCMatrix (Aex m1) (Bex m1) (Wex m1) (Cex m1) (Qex m1)
          (addSteerWeightR (set_m_vehicle_model self vm) prediction_dt
             (R1ex m1))
          R2 (Uref_ex m1).
Proof.
  unfold generateMPCMatrix. cbv zeta.
  destruct (predict_dynamics self reference_trajectory prediction_dt
              (m_vehicle_model self)) as [vm [m1 | ]]; [ | discriminate].
  destruct (jerk_loop _ _ _ _ _) as [R2 | ] eqn:EJ; [ | discriminate].
  intros E. inversion E; subst. exists vm, m1, R2.
  split; [reflexivity | ]. split; [exact EJ | reflexivity].
Qed.

(** ** Dimensions *)

Lemma same_shape_refl (M : Matrix D) : same_shape M M.
Proof. split; reflexivity. Qed.

Lemma same_shape_trans {M1 M2 M3 : Matrix D} :
  same_shape M1 M2 -> same_shape M2 M3 -> same_shape M1 M3.
Proof. intros [a b] [c d]. split; congruence. Qed.

Lemma same_shape_fold {A} (f : Matrix D -> A -> Matrix D) (l : list A)
    (M : Matrix D) :
  (forall M a, same_shape M (f M a)) -> same_shape M (fold_left f l M).
Proof.
  intros Hf. revert M. induction l as [ | a l IH]; intros M; cbn.
  - apply same_shape_refl.
  - eapply same_shape_trans; [apply Hf | apply IH].
Qed.

Lemma addSteerWeightR_shape (self : MPC) (prediction_dt : D) (R : Matrix D) :
  same_shape R (addSteerWeightR self prediction_dt R).
Proof.
  unfold addSteerWeightR. cbv zeta.
  set (R1 := fold_left _ (seq 0 _) R).
  assert (S1 : same_shape R R1).
  { apply same_shape_fold. intros; split; reflexivity. }
  set (R2 := if (1 <? _)%Z then _ else R1).
  assert (S2 : same_shape R R2).
  { subst R2. destruct (1 <? _)%Z; exact S1. }
  set (R3 := fold_left _ (seq 1 _) R2).
  assert (S3 : same_shape R R3).
  { eapply same_shape_trans; [exact S2 | ].
    apply same_shape_fold. intros; split; reflexivity. }
  destruct (1 <? _)%Z; exact S3.
Qed.

Lemma jerk_loop_shape (self : MPC) (reference_trajectory : MPCTrajectory D)
    (DT : D) (idxs : list nat) (R2 R2' : Matrix D) :
  jerk_loop self reference_trajectory DT idxs R2 = Some R2' ->
  same_shape R2 R2'.
Proof.
  revert R2. induction idxs as [ | i idxs IH]; intros R2 E.
  - cbn in E. inversion E; subst. apply same_shape_refl.
  - cbn [jerk_loop] in E.
    destruct (at_ (vx reference_trajectory) i); [ | discriminate].
    destruct (at_ (k reference_trajectory) i); [ | discriminate].
    apply IH in E. exact E.
Qed.

Lemma gen_step_shapes (self : MPC) (reference_trajectory : MPCTrajectory D)
    (DT : D) (i : nat) (m m' : MPCMatrix D) (vm vm' : VehicleModel D) :
  gen_step self reference_trajectory DT i m vm = Some (m', vm') ->
  shapes_of m m'.
Proof.
  unfold gen_step. cbv zeta.
  destruct (at_ (vx reference_trajectory) i); [ | discriminate].
  destruct (at_ (k reference_trajectory) i); [ | discriminate].
  destruct (at_ (smooth_k reference_trajectory) i); [ | discriminate].
  destruct (calculateDiscreteMatrix _ DT) as [[[Ad Bd] Cd] Wd].
  intros E. inversion E; subst m' vm'; clear E.
  unfold shapes_of. cbn [Aex Bex Wex Cex Qex R1ex R2ex Uref_ex].
  repeat split; try reflexivity;
    destruct (i =? 0)%nat; try reflexivity;
    unfold Bex_row; cbv zeta;
    match goal with
    | |- _ (set_block (fold_left ?f ?l ?B) _ _ _ _ _) = _ ?B =>
        apply (same_shape_fold f l B); intros; split; reflexivity
    end.
Qed.

Lemma shapes_of_trans (m1 m2 m3 : MPCMatrix D) :
  shapes_of m1 m2 -> shapes_of m2 m3 -> shapes_of m1 m3.
Proof.
  unfold shapes_of.
  intros (a1 & a2 & a3 & a4 & a5 & a6 & a7 & a8)
         (b1 & b2 & b3 & b4 & b5 & b6 & b7 & b8).
  repeat split; eapply same_shape_trans; eassumption.
Qed.

Lemma gen_loop_shapes (self : MPC) (reference_trajectory : MPCTrajectory D)
    (DT : D) (idxs : list nat) (m m' : MPCMatrix D) (vm vm' : VehicleModel D) :
  gen_loop self reference_trajectory DT idxs m vm = (vm', Some m') ->
  shapes_of m m'.
Proof.
  revert m vm. induction idxs as [ | i idxs IH]; intros m vm E.
  - cbn in E. inversion E; subst. repeat split.
  - cbn [gen_loop] in E.
    destruct (gen_step self reference_trajectory DT i m vm)
      as [[m1 vm1] | ] eqn:E1; [ | discriminate].
    eapply shapes_of_trans; [eapply gen_step_shapes; exact E1 | ].
    eapply IH. exact E.
Qed.

(** X2. The matrices [generateMPCMatrix] returns have the dimensions they
    were allocated with: for [N] steps, [Aex] is [DIM_X N x DIM_X], [Bex]
    [DIM_X N x DIM_U N], [Wex] [DIM_X N x 1], [Cex] [DIM_Y N x DIM_X N],
    [Qex] [DIM_Y N x DIM_Y N], [R1ex] and [R2ex] [DIM_U N x DIM_U N] and
    [Uref_ex] [DIM_U N x 1]; no block assignment or weight term resizes
    them. *)
Theorem generateMPCMatrix_dimensions
    (reference_trajectory : MPCTrajectory D) (prediction_dt : D)
    (self self' : MPC) (m : MPCMatrix D) :
  generateMPCMatrix reference_trajectory prediction_dt self = (self', Ok m) ->
  let N := Z.to_nat (prediction_horizon (m_param self)) in
  has_shape (getDimX * N) getDimX (Aex m) /\
  has_shape (getDimX * N) (getDimU * N) (Bex m) /\
  has_shape (getDimX * N) 1 (Wex m) /\
  has_shape (getDimY * N) (getDimX * N) (Cex m) /\
  has_shape (getDimY * N) (getDimY * N) (Qex m) /\
  has_shape (getDimU * N) (getDimU * N) (R1ex m) /\
  has_shape (getDimU * N) (getDimU * N) (R2ex m) /\
  has_shape (getDimU * N) 1 (Uref_ex m).
Proof.
  intros E. apply generateMPCMatrix_parts in E.
  destruct E as (vm & m1 & R2 & E & EJ & ->).
  unfold predict_dynamics in E. cbv zeta in E.
  apply gen_loop_shapes in E. apply jerk_loop_shape in EJ.
  pose proof (addSteerWeightR_shape (set_m_vehicle_model self vm)
                prediction_dt (R1ex m1)) as ER.
  destruct E as (a1 & a2 & a3 & a4 & a5 & a6 & a7 & a8).
  cbn [Aex Bex Wex Cex Qex R1ex R2ex Uref_ex] in *.
  pose proof (same_shape_trans a6 ER) as a6'.
  pose proof (same_shape_trans a7 EJ) as a7'.
  cbv zeta. unfold has_shape, same_shape in *. cbn [rows cols Zero] in *.
  repeat split; tauto.
Qed.

(** ** Causality of [Bex] *)

Lemma block_index_unique {n i i' a : nat} :
  (a < n)%nat -> (i' * n <= i * n + a)%nat -> (i * n + a < i' * n + n)%nat ->
  i = i'.
Proof.
  intros Ha H1 H2.
  destruct (Nat.lt_trichotomy i i') as [L | [E | L]]; [ | exact E | ]; nia.
Qed.

Lemma causal_set_block (B X : Matrix D) (i' j' : nat) :
  (j' <= i')%nat -> causal B ->
  causal (set_block B (i' * getDimX) (j' * getDimU) getDimX getDimU X).
Proof.
  intros Hj HB i j a b Hij Ha Hb.
  rewrite coeff_set_block_out; [apply HB; assumption | ].
  destruct (Nat.lt_ge_cases (i * getDimX + a) (i' * getDimX)) as [ | R1];
    [auto | ].
  destruct (Nat.lt_ge_cases (i * getDimX + a) (i' * getDimX + getDimX))
    as [R2 | ]; [ | auto].
  destruct (Nat.lt_ge_cases (j * getDimU + b) (j' * getDimU)) as [ | C1];
    [auto | ].
  destruct (Nat.lt_ge_cases (j * getDimU + b) (j' * getDimU + getDimU))
    as [C2 | ]; [ | auto].
  pose proof (block_index_unique Ha R1 R2).
  pose proof (block_index_unique Hb C1 C2). lia.
Qed.

Lemma causal_Bex_row (Ad B : Matrix D) (i' : nat) :
  causal B -> causal (Bex_row Ad i' B).
Proof.
  unfold Bex_row. cbv zeta.
  assert (G : forall l B0, (forall j, In j l -> (j <= i')%nat) -> causal B0 ->
    causal (fold_left
      (fun B1 j =>
         set_block B1 (i' * getDimX) (j * getDimU) getDimX getDimU
           (mmul Ad (block B1 ((i' - 1) * getDimX) (j * getDimU)
                       getDimX getDimU))) l B0)).
  { induction l as [ | j l IH]; intros B0 Hl HB0; cbn [fold_left].
    - exact HB0.
    - apply IH; [intros; apply Hl; right; assumption | ].
      apply causal_set_block; [apply Hl; left; reflexivity | exact HB0]. }
  intros HB. apply G; [ | exact HB].
  intros j Hj. apply in_seq in Hj. lia.
Qed.

Lemma gen_step_causal (self : MPC) (reference_trajectory : MPCTrajectory D)
    (DT : D) (i : nat) (m m' : MPCMatrix D) (vm vm' : VehicleModel D) :
  gen_step self reference_trajectory DT i m vm = Some (m', vm') ->
  causal (Bex m) -> causal (Bex m').
Proof.
  unfold gen_step. cbv zeta.
  destruct (at_ (vx reference_trajectory) i); [ | discriminate].
  destruct (at_ (k reference_trajectory) i); [ | discriminate].
  destruct (at_ (smooth_k reference_trajectory) i); [ | discriminate].
  destruct (calculateDiscreteMatrix _ DT) as [[[Ad Bd] Cd] Wd].
  intros E. inversion E; subst m' vm'; clear E. cbn [Bex].
  intros HB. apply causal_set_block; [lia | ].
  destruct (i =? 0)%nat.
  - exact (causal_set_block (Bex m) Bd 0 0 (le_n 0) HB).
  - apply causal_Bex_row. exact HB.
Qed.

Lemma gen_loop_causal (self : MPC) (reference_trajectory : MPCTrajectory D)
    (DT : D) (idxs : list nat) (m m' : MPCMatrix D) (vm vm' : VehicleModel D) :
  gen_loop self reference_trajectory DT idxs m vm = (vm', Some m') ->
  causal (Bex m) -> causal (Bex m').
Proof.
  revert m vm. induction idxs as [ | i idxs IH]; intros m vm E HB.
  - cbn in E. inversion E; subst. exact HB.
  - cbn [gen_loop] in E.
    destruct (gen_step self reference_trajectory DT i m vm)
      as [[m1 vm1] | ] eqn:E1; [ | discriminate].
    apply (IH m1 vm1 E). eapply gen_step_causal; eassumption.
Qed.

(** X3. In the [Bex] that [generateMPCMatrix] returns every block above the
    block diagonal is zero: block [(i, j)] with [i < j] is never written, so
    the predicted state of step [i] does not depend on the inputs of later
    steps. *)
Theorem Bex_is_causal (reference_trajectory : MPCTrajectory D)
    (prediction_dt : D) (self self' : MPC) (m : MPCMatrix D) :
  generateMPCMatrix reference_trajectory prediction_dt self = (self', Ok m) ->
  causal (Bex m).
Proof.
  intros E. apply generateMPCMatrix_parts in E.
  destruct E as (vm & m1 & R2 & E & _ & ->). cbn [Bex].
  unfold predict_dynamics in E. cbv zeta in E.
  eapply gen_loop_causal; [exact E | ].
  intros i j a b _ _ _. reflexivity.
Qed.

(** ** Symmetry of the weight matrices *)

Lemma symmetric_Zero (r c : nat) : symmetric (Zero r c).
Proof. intros a b. reflexivity. Qed.

Lemma symmetric_set_coeff_diag (M : Matrix D) (i : nat) (v : D) :
  symmetric M -> symmetric (set_coeff M i i v).
Proof.
  intros HM a b. unfold set_coeff. cbn [coeff].
  rewrite (andb_comm (b =? i)%nat). rewrite HM. reflexivity.
Qed.

Lemma symmetric_add_coeff_diag (M : Matrix D) (i : nat) (v : D) :
  symmetric M -> symmetric (add_coeff M i i v).
Proof. intros HM. apply symmetric_set_coeff_diag. exact HM. Qed.

Lemma symmetric_sym_on (n : nat) (M : Matrix D) : symmetric M -> sym_on n M.
Proof. intros HM a b _ _. apply HM. Qed.

Lemma symmetric_set_block_diag (M B : Matrix D) (r h : nat) :
  symmetric M -> sym_on h B -> symmetric (set_block M r r h h B).
Proof.
  intros HM HB a b.
  destruct (Nat.lt_ge_cases a r) as [ | A1].
  { rewrite !coeff_set_block_out by auto. apply HM. }
  destruct (Nat.lt_ge_cases a (r + h)) as [A2 | ].
  2: { rewrite !coeff_set_block_out by auto. apply HM. }
  destruct (Nat.lt_ge_cases b r) as [ | B1].
  { rewrite !coeff_set_block_out by auto. apply HM. }
  destruct (Nat.lt_ge_cases b (r + h)) as [B2 | ].
  2: { rewrite !coeff_set_block_out by auto. apply HM. }
  rewrite !coeff_set_block_in by lia. apply HB; lia.
Qed.

Lemma symmetric_add_block_diag (M B : Matrix D) (r h : nat) :
  symmetric M -> sym_on h B -> symmetric (add_block M r r h h B).
Proof.
  intros HM HB. unfold add_block. apply symmetric_set_block_diag.
  - exact HM.
  - intros a b Ha Hb. cbn [madd block coeff].
    rewrite (HM (r + a)%nat), (HB a b Ha Hb). reflexivity.
Qed.

Lemma sym_on_mscale (n : nat) (s : D) (B : Matrix D) :
  sym_on n B -> sym_on n (mscale s B).
Proof.
  intros HB a b Ha Hb. cbn [mscale coeff]. rewrite (HB a b Ha Hb). reflexivity.
Qed.

Lemma sym_on_rows2 (p q : D) : sym_on 2 (of_rows 2 2 [[p; q]; [q; p]]).
Proof.
  intros a b Ha Hb.
  destruct a as [ | [ | a]]; destruct b as [ | [ | b]]; try lia; reflexivity.
Qed.

Lemma sym_on_rows3 (p q s : D) :
  sym_on 3 (of_rows 3 3 [[p; q; p]; [q; s; q]; [p; q; p]]).
Proof.
  intros a b Ha Hb.
  destruct a as [ | [ | [ | a]]]; destruct b as [ | [ | [ | b]]];
    try lia; reflexivity.
Qed.

Lemma symmetric_fold {A} (f : Matrix D -> A -> Matrix D) (l : list A)
    (M : Matrix D) :
  (forall M a, symmetric M -> symmetric (f M a)) ->
  symmetric M -> symmetric (fold_left f l M).
Proof.
  intros Hf. revert M. induction l as [ | a l IH]; intros M HM; cbn.
  - exact HM.
  - apply IH. apply Hf. exact HM.
Qed.

(** The two assignments [R(1, 0) += v; R(0, 1) += v]. *)
Lemma symmetric_add_coeff_pair (M : Matrix D) (v : D) :
  symmetric M -> symmetric (add_coeff (add_coeff M 1 0 v) 0 1 v).
Proof.
  intros HM a b. unfold add_coeff, set_coeff. cbn [coeff].
  destruct a as [ | [ | a]]; destruct b as [ | [ | b]]; cbn;
    rewrite ?(HM 0%nat 1%nat); try reflexivity; apply HM.
Qed.

Lemma addSteerWeightR_symmetric (self : MPC) (prediction_dt : D)
    (R : Matrix D) :
  symmetric R -> symmetric (addSteerWeightR self prediction_dt R).
Proof.
  intros HR. unfold addSteerWeightR. cbv zeta.
  set (R1 := fold_left _ (seq 0 _) R).
  assert (S1 : symmetric R1).
  { apply symmetric_fold; [ | exact HR].
    intros M a HM. apply symmetric_add_block_diag; [exact HM | ].
    apply sym_on_mscale. apply sym_on_rows2. }
  set (R2 := if (1 <? _)%Z then _ else R1).
  assert (S2 : symmetric R2).
  { subst R2. destruct (1 <? _)%Z; [ | exact S1].
    apply symmetric_add_coeff_diag. exact S1. }
  set (R3 := fold_left _ (seq 1 _) R2).
  assert (S3 : symmetric R3).
  { apply symmetric_fold; [ | exact S2].
    intros M a HM. apply symmetric_add_block_diag; [exact HM | ].
    apply sym_on_mscale. apply sym_on_rows3. }
  destruct (1 <? _)%Z; [ | exact S3].
  apply symmetric_add_coeff_diag. apply symmetric_add_coeff_diag.
  apply symmetric_add_coeff_pair. apply symmetric_add_coeff_diag. exact S3.
Qed.

Lemma jerk_loop_symmetric (self : MPC) (reference_trajectory : MPCTrajectory D)
    (DT : D) (idxs : list nat) (R2 R2' : Matrix D) :
  jerk_loop self reference_trajectory DT idxs R2 = Some R2' ->
  symmetric R2 -> symmetric R2'.
Proof.
  revert R2. induction idxs as [ | i idxs IH]; intros R2 E HR.
  - cbn in E. inversion E; subst. exact HR.
  - cbn [jerk_loop] in E.
    destruct (at_ (vx reference_trajectory) i); [ | discriminate].
    destruct (at_ (k reference_trajectory) i); [ | discriminate].
    apply IH in E; [exact E | ].
    apply symmetric_add_block_diag; [exact HR | apply sym_on_rows2].
Qed.

Lemma gen_step_symmetric (self : MPC) (reference_trajectory : MPCTrajectory D)
    (DT : D) (i : nat) (m m' : MPCMatrix D) (vm vm' : VehicleModel D) :
  gen_step self reference_trajectory DT i m vm = Some (m', vm') ->
  symmetric (Qex m) /\ symmetric (R1ex m) ->
  symmetric (Qex m') /\ symmetric (R1ex m').
Proof.
  unfold gen_step. cbv zeta.
  destruct (at_ (vx reference_trajectory) i); [ | discriminate].
  destruct (at_ (k reference_trajectory) i); [ | discriminate].
  destruct (at_ (smooth_k reference_trajectory) i); [ | discriminate].
  destruct (calculateDiscreteMatrix _ DT) as [[[Ad Bd] Cd] Wd].
  intros E. inversion E; subst m' vm'; clear E. cbn [Qex R1ex].
  intros [HQ HR]. split.
  - apply symmetric_set_block_diag; [exact HQ | ].
    apply symmetric_sym_on. apply symmetric_add_coeff_diag.
    destruct (Z.of_nat i =? _)%Z;
      repeat apply symmetric_set_coeff_diag; apply symmetric_Zero.
  - apply symmetric_set_block_diag; [exact HR | ].
    apply symmetric_sym_on. apply symmetric_add_coeff_diag.
    apply symmetric_set_coeff_diag. apply symmetric_Zero.
Qed.

Lemma gen_loop_symmetric (self : MPC) (reference_trajectory : MPCTrajectory D)
    (DT : D) (idxs : list nat) (m m' : MPCMatrix D) (vm vm' : VehicleModel D) :
  gen_loop self reference_trajectory DT idxs m vm = (vm', Some m') ->
  symmetric (Qex m) /\ symmetric (R1ex m) ->
  symmetric (Qex m') /\ symmetric (R1ex m').
Proof.
  revert m vm. induction idxs as [ | i idxs IH]; intros m vm E HS.
  - cbn in E. inversion E; subst. exact HS.
  - cbn [gen_loop] in E.
    destruct (gen_step self reference_trajectory DT i m vm)
      as [[m1 vm1] | ] eqn:E1; [ | discriminate].
    apply (IH m1 vm1 E). eapply gen_step_symmetric; eassumption.
Qed.

(** X4. The three weight matrices of the cost that [generateMPCMatrix]
    returns are symmetric: [Qex], [R1ex] (with the steering rate and
    acceleration weights of [addSteerWeightR] added) and [R2ex] (the lateral
    jerk weight). *)
Theorem weight_matrices_symmetric (reference_trajectory : MPCTrajectory D)
    (prediction_dt : D) (self self' : MPC) (m : MPCMatrix D) :
  generateMPCMatrix reference_trajectory prediction_dt self = (self', Ok m) ->
  symmetric (Qex m) /\ symmetric (R1ex m) /\ symmetric (R2ex m).
Proof.
  intros E. apply generateMPCMatrix_parts in E.
  destruct E as (vm & m1 & R2 & E & EJ & ->). cbn [Qex R1ex R2ex].
  unfold predict_dynamics in E. cbv zeta in E.
  assert (S0 : symmetric (R2ex m1)).
  { assert (G : forall idxs m0 m' vm0 vm',
               gen_loop self reference_trajectory prediction_dt idxs m0 vm0
               = (vm', Some m') -> R2ex m' = R2ex m0).
    { induction idxs as [ | i idxs IH]; intros m0 m' vm0 vm' F.
      - cbn in F. inversion F; subst. reflexivity.
      - cbn [gen_loop] in F.
        destruct (gen_step self reference_trajectory prediction_dt i m0 vm0)
          as [[m2 vm2] | ] eqn:F1; [ | discriminate].
        rewrite (IH _ _ _ _ F). clear F.
        unfold gen_step in F1. cbv zeta in F1.
        destruct (at_ (vx reference_trajectory) i); [ | discriminate].
        destruct (at_ (k reference_trajectory) i); [ | discriminate].
        destruct (at_ (smooth_k reference_trajectory) i); [ | discriminate].
        destruct (calculateDiscreteMatrix _ prediction_dt)
          as [[[Ad Bd] Cd] Wd].
        inversion F1; subst. reflexivity. }
    rewrite (G _ _ _ _ _ E). apply symmetric_Zero. }
  apply gen_loop_symmetric in E; [ | split; apply symmetric_Zero].
  destruct E as [HQ HR].
  split; [exact HQ | ]. split.
  - apply addSteerWeightR_symmetric. exact HR.
  - eapply jerk_loop_symmetric; [exact EJ | exact S0].
Qed.

(** ** Band structure of the weight matrices *)

Lemma agree_off_refl (w : nat) (M : Matrix D) : agree_off w M M.
Proof. intros a b _. reflexivity. Qed.

Lemma agree_off_trans {w : nat} {M1 M2 M3 : Matrix D} :
  agree_off w M1 M2 -> agree_off w M2 M3 -> agree_off w M1 M3.
Proof. intros H12 H23 a b Hab. rewrite H23, H12 by assumption. reflexivity. Qed.

Lemma agree_off_set_block_diag (w : nat) (M B : Matrix D) (r h : nat) :
  (h <= S w)%nat -> agree_off w M (set_block M r r h h B).
Proof.
  intros Hh a b Hab. unfold off_band in Hab.
  apply coeff_set_block_out. lia.
Qed.

Lemma agree_off_add_block_diag (w : nat) (M B : Matrix D) (r h : nat) :
  (h <= S w)%nat -> agree_off w M (add_block M r r h h B).
Proof. intros Hh. unfold add_block. apply agree_off_set_block_diag. exact Hh. Qed.

Lemma agree_off_add_coeff (w : nat) (M : Matrix D) (i j : nat) (v : D) :
  (i <= j + w)%nat -> (j <= i + w)%nat -> agree_off w M (add_coeff M i j v).
Proof.
  intros Hij Hji a b Hab. unfold off_band in Hab.
  unfold add_coeff, set_coeff. cbn [coeff].
  destruct (Nat.eqb_spec a i); [ | reflexivity].
  destruct (Nat.eqb_spec b j); [ | reflexivity]. lia.
Qed.

Lemma agree_off_fold {A} (w : nat) (f : Matrix D -> A -> Matrix D)
    (l : list A) (M : Matrix D) :
  (forall M a, agree_off w M (f M a)) -> agree_off w M (fold_left f l M).
Proof.
  intros Hf. revert M. induction l as [ | a l IH]; intros M; cbn.
  - apply agree_off_refl.
  - eapply agree_off_trans; [apply Hf | apply IH].
Qed.

Lemma banded_agree_off (w : nat) (M M' : Matrix D) :
  banded w M -> agree_off w M M' -> banded w M'.
Proof. intros HM HA a b Hab. rewrite HA by assumption. apply HM. exact Hab. Qed.

Lemma addSteerWeightR_agree_off (self : MPC) (prediction_dt : D)
    (R : Matrix D) :
  agree_off 2 R (addSteerWeightR self prediction_dt R).
Proof.
  unfold addSteerWeightR. cbv zeta.
  set (R1 := fold_left _ (seq 0 _) R).
  assert (S1 : agree_off 2 R R1).
  { apply agree_off_fold. intros M a.
    apply agree_off_add_block_diag. lia. }
  set (R2 := if (1 <? _)%Z then _ else R1).
  assert (S2 : agree_off 2 R R2).
  { subst R2. destruct (1 <? _)%Z; [ | exact S1].
    eapply agree_off_trans; [exact S1 | ].
    apply agree_off_add_coeff; lia. }
  set (R3 := fold_left _ (seq 1 _) R2).
  assert (S3 : agree_off 2 R R3).
  { eapply agree_off_trans; [exact S2 | ].
    apply agree_off_fold. intros M a.
    apply agree_off_add_block_diag. lia. }
  destruct (1 <? _)%Z; [ | exact S3].
  repeat (eapply agree_off_trans; [ | apply agree_off_add_coeff; lia]).
  exact S3.
Qed.


(** X6. With a prediction horizon of at most one step [addSteerWeightR]
    returns the matrix unchanged: neither loop runs and the boundary terms
    are guarded by [N > 1]. *)
Theorem addSteerWeightR_short_horizon (self : MPC) (prediction_dt : D)
    (R : Matrix D) :
  (prediction_horizon (m_param self) <= 1)%Z ->
  addSteerWeightR self prediction_dt R = R.
Proof.
  intros HN. unfold addSteerWeightR. cbv zeta.
  replace (Z.to_nat (prediction_horizon (m_param self) - 1)) with 0%nat
    by lia.
  replace (1 <? prediction_horizon (m_param self))%Z with false
    by (symmetry; apply Z.ltb_ge; exact HN).
  reflexivity.
Qed.

Lemma banded_Zero (w r c : nat) : banded w (Zero r c).
Proof. intros a b _. reflexivity. Qed.

Lemma banded_set_coeff_diag (w : nat) (M : Matrix D) (i : nat) (v : D) :
  banded w M -> banded w (set_coeff M i i v).
Proof.
  intros HM a b Hab. unfold set_coeff. cbn [coeff].
  destruct (Nat.eqb_spec a i); cbn [andb]; [ | apply HM; exact Hab].
  destruct (Nat.eqb_spec b i); [ | apply HM; exact Hab].
  unfold off_band in Hab. lia.
Qed.

Lemma banded_set_block_diag (w : nat) (M B : Matrix D) (r h : nat) :
  banded w M -> banded w B -> banded w (set_block M r r h h B).
Proof.
  intros HM HB a b Hab.
  destruct (Nat.lt_ge_cases a r) as [ | A1].
  { rewrite coeff_set_block_out by auto. apply HM. exact Hab. }
  destruct (Nat.lt_ge_cases a (r + h)) as [A2 | ].
  2: { rewrite coeff_set_block_out by auto. apply HM. exact Hab. }
  destruct (Nat.lt_ge_cases b r) as [ | B1].
  { rewrite coeff_set_block_out by auto. apply HM. exact Hab. }
  destruct (Nat.lt_ge_cases b (r + h)) as [B2 | ].
  2: { rewrite coeff_set_block_out by auto. apply HM. exact Hab. }
  rewrite coeff_set_block_in by lia. apply HB.
  unfold off_band in *. lia.
Qed.

Lemma gen_step_banded (self : MPC) (reference_trajectory : MPCTrajectory D)
    (DT : D) (i : nat) (m m' : MPCMatrix D) (vm vm' : VehicleModel D) :
  gen_step self reference_trajectory DT i m vm = Some (m', vm') ->
  banded 0 (Qex m) /\ banded 0 (R1ex m) /\ banded 1 (R2ex m) ->
  banded 0 (Qex m') /\ banded 0 (R1ex m') /\ banded 1 (R2ex m').
Proof.
  unfold gen_step. cbv zeta.
  destruct (at_ (vx reference_trajectory) i); [ | discriminate].
  destruct (at_ (k reference_trajectory) i); [ | discriminate].
  destruct (at_ (smooth_k reference_trajectory) i); [ | discriminate].
  destruct (calculateDiscreteMatrix _ DT) as [[[Ad Bd] Cd] Wd].
  intros E. inversion E; subst m' vm'; clear E. cbn [Qex R1ex R2ex].
  intros (HQ & HR & HJ). split; [ | split; [ | exact HJ]].
  - apply banded_set_block_diag; [exact HQ | ].
    unfold add_coeff. apply banded_set_coeff_diag.
    destruct (Z.of_nat i =? _)%Z;
      repeat apply banded_set_coeff_diag; apply banded_Zero.
  - apply banded_set_block_diag; [exact HR | ].
    unfold add_coeff. apply banded_set_coeff_diag.
    apply banded_set_coeff_diag. apply banded_Zero.
Qed.

Lemma gen_loop_banded (self : MPC) (reference_trajectory : MPCTrajectory D)
    (DT : D) (idxs : list nat) (m m' : MPCMatrix D) (vm vm' : VehicleModel D) :
  gen_loop self reference_trajectory DT idxs m vm = (vm', Some m') ->
  banded 0 (Qex m) /\ banded 0 (R1ex m) /\ banded 1 (R2ex m) ->
  banded 0 (Qex m') /\ banded 0 (R1ex m') /\ banded 1 (R2ex m').
Proof.
  revert m vm. induction idxs as [ | i idxs IH]; intros m vm E HS.
  - cbn in E. inversion E; subst. exact HS.
  - cbn [gen_loop] in E.
    destruct (gen_step self reference_trajectory DT i m vm)
      as [[m1 vm1] | ] eqn:E1; [ | discriminate].
    apply (IH m1 vm1 E). eapply gen_step_banded; eassumption.
Qed.

Lemma jerk_loop_agree_off (self : MPC) (reference_trajectory : MPCTrajectory D)
    (DT : D) (idxs : list nat) (R2 R2' : Matrix D) :
  jerk_loop self reference_trajectory DT idxs R2 = Some R2' ->
  agree_off 1 R2 R2'.
Proof.
  revert R2. induction idxs as [ | i idxs IH]; intros R2 E.
  - cbn in E. inversion E; subst. apply agree_off_refl.
  - cbn [jerk_loop] in E.
    destruct (at_ (vx reference_trajectory) i); [ | discriminate].
    destruct (at_ (k reference_trajectory) i); [ | discriminate].
    apply IH in E.
    eapply agree_off_trans; [ | exact E].
    apply agree_off_add_block_diag. lia.
Qed.

(** X7. In the matrices [generateMPCMatrix] returns, [Qex] is diagonal,
    [R2ex] is tridiagonal and [R1ex] is zero more than two places off its
    diagonal. *)
Theorem weight_matrices_banded (reference_trajectory : MPCTrajectory D)
    (prediction_dt : D) (self self' : MPC) (m : MPCMatrix D) :
  generateMPCMatrix reference_trajectory prediction_dt self = (self', Ok m) ->
  banded 0 (Qex m) /\ banded 2 (R1ex m) /\ banded 1 (R2ex m).
Proof.
  intros E. apply generateMPCMatrix_parts in E.
  destruct E as (vm & m1 & R2 & E & EJ & ->). cbn [Qex R1ex R2ex].
  unfold predict_dynamics in E. cbv zeta in E.
  apply gen_loop_banded in E.
  2: { cbn [Qex R1ex R2ex]. repeat split; apply banded_Zero. }
  destruct E as (HQ & HR & HJ).
  split; [exact HQ | ]. split.
  - apply banded_agree_off with (M := R1ex m1).
    + intros a b Hab. apply HR. unfold off_band in *. lia.
    + apply addSteerWeightR_agree_off.
  - eapply banded_agree_off; [exact HJ | ].
    eapply jerk_loop_agree_off. exact EJ.
Qed.

(** * Further properties of the control cycle *)

Lemma configuration_getData traj current_steer
    (current_kinematics : Odometry D Pose) :
  preserves configuration (getData traj current_steer current_kinematics).
Proof. intros self self' r E. unfold getData in E. same_by_cases E. Qed.

Lemma configuration_getInitialState (data : MPCData D Pose) :
  preserves configuration (getInitialState data).
Proof. intros self self' r E. unfold getInitialState in E. same_by_cases E. Qed.

Lemma configuration_updateStateForDelayCompensation traj start_time x0_orig :
  preserves configuration
    (updateStateForDelayCompensation traj start_time x0_orig).
Proof.
  intros self self' r E. unfold updateStateForDelayCompensation in E.
  same_by_cases E.
Qed.

Lemma configuration_generateMPCMatrix reference_trajectory prediction_dt :
  preserves configuration
    (generateMPCMatrix reference_trajectory prediction_dt).
Proof.
  intros self self' r E. unfold generateMPCMatrix in E. same_by_cases E.
Qed.

Lemma configuration_executeOptimization m x0 prediction_dt traj
    current_velocity :
  preserves configuration
    (executeOptimization m x0 prediction_dt traj current_velocity).
Proof.
  intros self self' r E. unfold executeOptimization in E.
  destruct (qp_problem m x0 prediction_dt traj current_velocity)
    as [[[[[[H ft] A] lb] ub] lbA] ubA].
  same_by_cases E.
Qed.

Lemma configuration_lpf_steering_cmd_filter (u : D) :
  preserves configuration (lpf_steering_cmd_filter u).
Proof.
  intros self self' r E. unfold lpf_steering_cmd_filter in E. same_by_cases E.
Qed.

Lemma configuration_modify (g : MPC -> MPC) :
  (forall self, configuration (g self) = configuration self) ->
  preserves configuration (modify g).
Proof. intros Hg self self' r E. inversion E; subst. apply Hg. Qed.

Create HintDb configuration.
#[local] Hint Resolve preserves_or_fail preserves_or_raise preserves_ret
  preserves_get configuration_getData configuration_getInitialState
  configuration_updateStateForDelayCompensation
  configuration_generateMPCMatrix configuration_executeOptimization
  configuration_lpf_steering_cmd_filter : configuration.

Lemma configuration_calculateMPC current_steer
    (current_kinematics : Odometry D Pose) :
  preserves configuration (calculateMPC current_steer current_kinematics).
Proof.
  unfold calculateMPC.
  repeat first
    [ apply preserves_bind;
      [ first [ solve [auto with configuration]
              | apply configuration_modify; intros; reflexivity ]
      | intros ? ]
    | progress cbv beta zeta ].
  apply preserves_ret.
Qed.

(** X8. A control cycle, whatever its outcome, assigns none of the members it
    is configured by: the stored trajectories, the parameters, the steering
    limit, the control period, the admissible errors and the switches are
    after any number of cycles what they were before. *)
Theorem cycles_keep_configuration
    (ticks : list (SteeringReport D * Odometry D Pose)) (self : MPC) :
  configuration (fst (run_cycles ticks self)) = configuration self.
Proof.
  revert self.
  induction ticks as [ | [current_steer current_kinematics] rest IH];
    intros self; cbn [run_cycles].
  - reflexivity.
  - destruct (calculateMPC current_steer current_kinematics self)
      as [s1 r] eqn:E.
    apply configuration_calculateMPC in E.
    specialize (IH s1). destruct (run_cycles rest s1) as [s2 rs].
    cbn [fst] in *. congruence.
Qed.

(** X9. A successful cycle steps the steering low-pass filter exactly once,
    from the state the cycle found it in, with the newly stored raw command
    [m_raw_steer_cmd_prev] clamped to the steering limit; the steering angle
    of the command is the filter's output cast to float, and the raw command
    of the cycle before moves to [m_raw_steer_cmd_pprev]. *)
Theorem successful_cycle_steps_steering_filter current_steer
    (current_kinematics : Odometry D Pose) (self self' : MPC)
    (ctrl_cmd : AckermannLateralCommand D) (predicted : Trajectory)
    (diagnostic : Diagnostic) :
  calculateMPC current_steer current_kinematics self
  = (self', Ok (ctrl_cmd, predicted, diagnostic)) ->
  exists u_filtered,
    filter (m_lpf_steering_cmd self)
      (std_clamp (m_raw_steer_cmd_prev self') (- m_steer_lim self)
         (m_steer_lim self))
    = (m_lpf_steering_cmd self', u_filtered) /\
    steering_tire_angle ctrl_cmd = to_float u_filtered /\
    m_raw_steer_cmd_pprev self' = m_raw_steer_cmd_prev self.
Proof.
  intros E. apply calculateMPC_outcome in E.
  destruct E as (Uex & u_filtered & _ & _ & EF & EA & _ & EPP & EP).
  exists u_filtered. rewrite EP. auto.
Qed.


(** * Further properties of the stages *)

(** X11. After [resetPrevResult] both previous raw commands hold the measured
    steering angle clamped to the steering limit in single precision, so
    they lie within the limit (for a limit that is not below its own
    negation); the delay buffer and the configuration are not touched. *)
Theorem resetPrevResult_within_limit `{!ScalarOrder D}
    (current_steer : SteeringReport D) (self : MPC) :
  let steer_lim_f := to_float (m_steer_lim self) in
  let self' := resetPrevResult current_steer self in
  (steer_lim_f <? - steer_lim_f) = false ->
  m_raw_steer_cmd_prev self'
  = std_clamp (report_steering_tire_angle current_steer) (- steer_lim_f)
      steer_lim_f /\
  m_raw_steer_cmd_pprev self'
  = std_clamp (report_steering_tire_angle current_steer) (- steer_lim_f)
      steer_lim_f /\
  within (- steer_lim_f) steer_lim_f (m_raw_steer_cmd_prev self') /\
  within (- steer_lim_f) steer_lim_f (m_raw_steer_cmd_pprev self') /\
  m_input_buffer self' = m_input_buffer self /\
  configuration self' = configuration self.
Proof.
  cbv zeta. intros Hlim. unfold resetPrevResult. cbn.
  split; [reflexivity | ]. split; [reflexivity | ].
  split; [apply std_clamp_within; exact Hlim | ].
  split; [apply std_clamp_within; exact Hlim | ].
  repeat split.
Qed.

(** X12. [getInitialState] changes the controller only for the model named
    "dynamics"; for a model name that is none of "kinematics",
    "kinematics_no_delay" and "dynamics" it still returns normally, with the
    zero vector of [DIM_X] entries as the initial state. *)
Theorem getInitialState_other_models (data : MPCData D Pose) (self : MPC) :
  (String.eqb modelName "dynamics" = false ->
   fst (getInitialState data self) = self) /\
  (String.eqb modelName "kinematics" = false ->
   String.eqb modelName "kinematics_no_delay" = false ->
   String.eqb modelName "dynamics" = false ->
   getInitialState data self = (self, Ok (Zero getDimX 1))).
Proof.
  unfold getInitialState. cbv zeta. split.
  - intros Hd. rewrite Hd.
    destruct (String.eqb modelName "kinematics"); [reflexivity | ].
    destruct (String.eqb modelName "kinematics_no_delay"); reflexivity.
  - intros Hk Hn Hd. rewrite Hk, Hn, Hd. reflexivity.
Qed.

Lemma any_isnan_false_iff (M : Matrix D) :
  any_isnan M = false <->
  forall i j, (i < rows M)%nat -> (j < cols M)%nat ->
              disnan (coeff M i j) = false.
Proof.
  unfold any_isnan. split.
  - intros E i j Hi Hj.
    destruct (disnan (coeff M i j)) eqn:N; [ | reflexivity].
    rewrite <- E. symmetry. apply existsb_exists.
    exists i. split; [apply in_seq; lia | ].
    apply existsb_exists. exists j. split; [apply in_seq; lia | exact N].
  - intros H.
    destruct (existsb _ (seq 0 (rows M))) eqn:E; [ | reflexivity].
    apply existsb_exists in E. destruct E as (i & Hi & E).
    apply existsb_exists in E. destruct E as (j & Hj & E).
    apply in_seq in Hi, Hj. rewrite H in E by lia. discriminate E.
Qed.

(** X13. [executeOptimization] returns a solution exactly when the solver
    reports success and no entry of the solution is NaN; the solution is then
    the solver's, unchanged. Otherwise it returns failure. In both cases the
    solver's new state is kept. *)
Theorem executeOptimization_succeeds_iff m x0 prediction_dt traj
    current_velocity (self : MPC) :
  let '(H, ft, A, lb, ub, lbA, ubA) :=
    qp_problem m x0 prediction_dt traj current_velocity in
  let '(solver, (solve_result, Uex)) :=
    solve (m_qpsolver self) H ft A lb ub lbA ubA in
  executeOptimization m x0 prediction_dt traj current_velocity self
  = (set_m_qpsolver self solver,
     if solve_result && negb (any_isnan Uex) then Ok (Some Uex) else Ok None)
  /\
  (solve_result && negb (any_isnan Uex) = true <->
   solve_result = true /\
   forall i j, (i < rows Uex)%nat -> (j < cols Uex)%nat ->
               disnan (coeff Uex i j) = false).
Proof.
  unfold executeOptimization.
  destruct (qp_problem m x0 prediction_dt traj current_velocity)
    as [[[[[[H ft] A] lb] ub] lbA] ubA].
  destruct (solve (m_qpsolver self) H ft A lb ub lbA ubA)
    as [solver [solve_result Uex]].
  split.
  - destruct solve_result; cbn; [ | reflexivity].
    destruct (any_isnan Uex); reflexivity.
  - rewrite andb_true_iff, negb_true_iff, any_isnan_false_iff. reflexivity.
Qed.

Lemma back_app (l : list D) (a : D) : back (l ++ [a]) = a.
Proof. unfold back. apply last_last. Qed.

(** X14. [applyVelocityDynamicsFilter] returns a trajectory that converts to
    no points as it is. Otherwise it returns the velocity-smoothed trajectory
    with one point appended: the last point again in every array, except that
    its velocity is zero and its time 100 s later. *)
Theorem applyVelocityDynamicsFilter_appends_stop_point (self : MPC)
    (input : MPCTrajectory D) (current_kinematics : Odometry D Pose) :
  let output := applyVelocityDynamicsFilter self input current_kinematics in
  match convertToAutowareTrajectory input with
  | [] => output = input
  | _ :: _ =>
      let smoothed :=
        dynamicSmoothingVelocity
          (findFirstNearestSegmentIndexWithSoftConstraints
             (convertToAutowareTrajectory input) (pose current_kinematics)
             (ego_nearest_dist_threshold self)
             (ego_nearest_yaw_threshold self))
          (twist_linear_x current_kinematics)
          (acceleration_limit (m_param self))
          (velocity_time_constant (m_param self)) input in
      output
      = mkMPCTrajectory
          (x smoothed ++ [back (x smoothed)])
          (y smoothed ++ [back (y smoothed)])
          (z smoothed ++ [back (z smoothed)])
          (yaw smoothed ++ [back (yaw smoothed)])
          (vx smoothed ++ [of_Q 0])
          (k smoothed ++ [back (k smoothed)])
          (smooth_k smoothed ++ [back (smooth_k smoothed)])
          (relative_time smoothed
           ++ [back (relative_time smoothed) + of_Q 100]) /\
      back (vx output) = of_Q 0 /\
      back (relative_time output) = back (relative_time smoothed) + of_Q 100
  end.
Proof.
  cbv zeta. unfold applyVelocityDynamicsFilter. cbv zeta.
  destruct (convertToAutowareTrajectory input) as [ | p ps] eqn:E.
  - reflexivity.
  - split; [reflexivity | ].
    cbn [traj_push_back traj_back vx relative_time pt_vx pt_relative_time].
    rewrite !back_app. split; reflexivity.
Qed.

(** ** Delay compensation *)

Lemma delay_loop_vehicle_model (ctrl_period : D) (traj : MPCTrajectory D)
    (inputs : list D) (x_curr : Matrix D) (t : D) (vm vm' : VehicleModel D) :
  snd (delay_loop ctrl_period traj inputs x_curr t vm)
  = snd (delay_loop ctrl_period traj inputs x_curr t vm').
Proof.
  destruct inputs as [ | u rest]; cbn [delay_loop].
  - reflexivity.
  - destruct (lerp (relative_time traj) (k traj) t) as [c | ];
      [ | reflexivity].
    destruct (lerp (relative_time traj) (vx traj) t) as [v | ];
      reflexivity.
Qed.

Lemma delay_loop_app (ctrl_period : D) (traj : MPCTrajectory D)
    (l1 l2 : list D) (x_curr : Matrix D) (t : D) (vm : VehicleModel D) :
  delay_loop ctrl_period traj (l1 ++ l2) x_curr t vm
  = match delay_loop ctrl_period traj l1 x_curr t vm with
    | (vm1, Some x1) =>
        delay_loop ctrl_period traj l2 x1
          (advance t ctrl_period (List.length l1)) vm1
    | (vm1, None) => (vm1, None)
    end.
Proof.
  revert x_curr t vm. induction l1 as [ | u l1 IH]; intros x_curr t vm.
  - reflexivity.
  - cbn [app delay_loop List.length advance].
    destruct (lerp (relative_time traj) (k traj) t) as [c | ];
      [ | reflexivity].
    destruct (lerp (relative_time traj) (vx traj) t) as [v | ];
      [ | reflexivity].
    destruct (calculateDiscreteMatrix _ ctrl_period) as [[[Ad Bd] Cd] Wd].
    apply IH.
Qed.

(** X15. Delay compensation composes along the input buffer: compensating for
    a buffer [l1 ++ l2] is compensating for [l1] and then, from the state
    reached and the time [length l1] control periods later, for [l2]; a
    failure on [l1] is the failure of the whole. *)
Theorem delay_compensation_composes (traj : MPCTrajectory D) (start_time : D)
    (x0_orig : Matrix D) (self : MPC) (l1 l2 : list D) :
  m_input_buffer self = l1 ++ l2 ->
  snd (updateStateForDelayCompensation traj start_time x0_orig self)
  = match snd (updateStateForDelayCompensation traj start_time x0_orig
                 (set_m_input_buffer self l1)) with
    | Ok (Some x1) =>
        snd (updateStateForDelayCompensation traj
               (advance start_time (m_ctrl_period self) (List.length l1)) x1
               (set_m_input_buffer self l2))
    | other => other
    end.
Proof.
  intros Hbuf. unfold updateStateForDelayCompensation.
  cbn [m_input_buffer m_ctrl_period m_vehicle_model set_m_input_buffer].
  rewrite Hbuf, delay_loop_app.
  destruct (delay_loop (m_ctrl_period self) traj l1 x0_orig start_time
              (m_vehicle_model self)) as [vm1 [x1 | ]]; cbn [snd].
  - pose proof (delay_loop_vehicle_model (m_ctrl_period self) traj l2 x1
                  (advance start_time (m_ctrl_period self) (List.length l1))
                  vm1 (m_vehicle_model self)) as V.
    destruct (delay_loop (m_ctrl_period self) traj l2 x1 _ vm1) as [vm2 r2].
    destruct (delay_loop (m_ctrl_period self) traj l2 x1 _
                (m_vehicle_model self)) as [vm3 r3].
    cbn [snd] in *. congruence.
  - reflexivity.
Qed.

Lemma delay_loop_fails_iff (ctrl_period : D) (traj : MPCTrajectory D)
    (inputs : list D) (x_curr : Matrix D) (t : D) (vm : VehicleModel D) :
  snd (delay_loop ctrl_period traj inputs x_curr t vm) = None <->
  exists n, (n < List.length inputs)%nat /\
            (lerp (relative_time traj) (k traj) (advance t ctrl_period n)
             = None \/
             lerp (relative_time traj) (vx traj) (advance t ctrl_period n)
             = None).
Proof.
  revert x_curr t vm. induction inputs as [ | u rest IH]; intros x_curr t vm.
  - cbn. split; [discriminate | ]. intros (n & Hn & _). lia.
  - cbn [delay_loop List.length].
    destruct (lerp (relative_time traj) (k traj) t) as [c | ] eqn:Ek.
    + destruct (lerp (relative_time traj) (vx traj) t) as [v | ] eqn:Ev.
      * destruct (calculateDiscreteMatrix _ ctrl_period)
          as [[[Ad Bd] Cd] Wd].
        rewrite IH. split.
        -- intros (n & Hn & Hl). exists (S n). split; [lia | exact Hl].
        -- intros (n & Hn & Hl). destruct n as [ | n].
           ++ cbn [advance] in Hl. rewrite Ek, Ev in Hl.
              destruct Hl as [F | F]; discriminate F.
           ++ exists n. split; [lia | exact Hl].
      * cbn [snd]. split; [intros _ | reflexivity].
        exists 0%nat. split; [lia | ]. right. exact Ev.
    + cbn [snd]. split; [intros _ | reflexivity].
      exists 0%nat. split; [lia | ]. left. exact Ek.
Qed.

(** X16. The delay compensation always returns normally, and it returns
    failure exactly when, for one of the buffered inputs, the interpolation
    of the curvature or of the velocity fails at the time that input is
    applied: the start time plus as many control periods as inputs precede
    it. *)
Theorem delay_compensation_fails_iff (traj : MPCTrajectory D)
    (start_time : D) (x0_orig : Matrix D) (self : MPC) :
  (exists r,
      snd (updateStateForDelayCompensation traj start_time x0_orig self)
      = Ok r) /\
  (snd (updateStateForDelayCompensation traj start_time x0_orig self)
   = Ok None <->
   exists n, (n < List.length (m_input_buffer self))%nat /\
     (lerp (relative_time traj) (k traj)
        (advance start_time (m_ctrl_period self) n) = None \/
      lerp (relative_time traj) (vx traj)
        (advance start_time (m_ctrl_period self) n) = None)).
Proof.
  unfold updateStateForDelayCompensation.
  pose proof (delay_loop_fails_iff (m_ctrl_period self) traj
                (m_input_buffer self) x0_orig start_time
                (m_vehicle_model self)) as L.
  destruct (delay_loop (m_ctrl_period self) traj (m_input_buffer self)
              x0_orig start_time (m_vehicle_model self)) as [vm r].
  cbn [snd] in *. split; [eauto | ].
  rewrite <- L. split; intros E; [inversion E | subst r]; reflexivity.
Qed.

(** *** addSteerWeightF *)

Lemma coeff_add_coeff_other (M : Matrix D) (i j : nat) (v : D) (a b : nat) :
  (a, b) <> (i, j) -> coeff (add_coeff M i j v) a b = coeff M a b.
Proof.
  intros Hne. unfold add_coeff, set_coeff. cbn [coeff].
  destruct (a =? i)%nat eqn:Ea; [ | reflexivity].
  destruct (b =? j)%nat eqn:Eb; [ | reflexivity].
  apply Nat.eqb_eq in Ea. apply Nat.eqb_eq in Eb. subst. congruence.
Qed.

(** X17. [addSteerWeightF] leaves an [f] with fewer than two rows, such as
    the one-row linear term of the cost, entirely as it is. An [f] with two
    or more rows needs two columns: with fewer, the function writes outside
    the matrix. With two or more of both it keeps the dimensions of [f],
    changes no coefficient other than [f(0, 0)] and [f(0, 1)], and adds to
    [f(0, 1)] the term of the previous raw command. *)
Theorem addSteerWeightF_touches_two_coefficients (self : MPC)
    (prediction_dt : D) (f : Matrix D) :
  if (rows f <? 2)%nat then addSteerWeightF self prediction_dt f = Some f
  else if (cols f <? 2)%nat then addSteerWeightF self prediction_dt f = None
  else
    exists f',
      addSteerWeightF self prediction_dt f = Some f' /\
      same_shape f f' /\
      (forall a b, (a, b) <> (0, 0)%nat -> (a, b) <> (0, 1)%nat ->
                   coeff f' a b = coeff f a b) /\
      coeff f' 0 1
      = coeff f 0 1
        + of_Q 2 * m_raw_steer_cmd_prev self
          * (steer_acc (nominal_weight (m_param self))
             / (dpow prediction_dt (of_Q 3) * m_ctrl_period self))
          * of_Q 0.5.
Proof.
  unfold addSteerWeightF.
  destruct (rows f <? 2)%nat; [reflexivity | ].
  destruct (cols f <? 2)%nat; [reflexivity | ].
  cbv zeta. eexists. split; [reflexivity | ].
  split; [split; reflexivity | ]. split.
  - intros a b H00 H01.
    rewrite coeff_add_coeff_other by exact H01.
    rewrite !coeff_add_coeff_other by exact H00.
    reflexivity.
  - unfold add_coeff at 1. unfold set_coeff at 1. cbn [coeff].
    rewrite !Nat.eqb_refl. cbn [andb].
    rewrite !coeff_add_coeff_other by discriminate.
    reflexivity.
Qed.

(** *** How a control cycle ends *)

Local Abbreviation stops_as msgs m :=
  (@stops_as D Lpf Predictor Solver _ msgs m).

Lemma stops_as_bind {A B} (msgs : list string) (m : M A) (f : A -> M B) :
  stops_as msgs m -> (forall a, stops_as msgs (f a)) ->
  stops_as msgs (bind m f).
Proof.
  intros Hm Hf self self' msg E. apply bind_inv in E.
  destruct E as [(s1 & a & E1 & E) | [(msg' & E1 & Em) | (E1 & Em)]].
  - exact (Hf a _ _ _ E).
  - inversion Em; subst msg'. exact (Hm _ _ _ E1).
  - discriminate Em.
Qed.

Lemma stops_as_or_fail {A} (msgs : list string) (m : M (option A))
    (msg : string) :
  stops_as msgs m -> In msg msgs -> stops_as msgs (or_fail m msg).
Proof.
  intros Hm Hin self self' msg0 E. apply or_fail_inv in E.
  destruct E as [(a & E & Em) | [(E & Em) | [(msg' & E & Em) | (E & Em)]]].
  - discriminate Em.
  - inversion Em; subst msg0. exact Hin.
  - inversion Em; subst msg'. exact (Hm _ _ _ E).
  - discriminate Em.
Qed.

Ltac never_false E := repeat break_match E; inversion E.

Lemma stops_as_ret {A} (msgs : list string) (a : A) :
  stops_as msgs (ret a : M A).
Proof. intros self self' msg E. inversion E. Qed.

Lemma stops_as_get (msgs : list string) : stops_as msgs get.
Proof. intros self self' msg E. inversion E. Qed.

Lemma stops_as_modify (msgs : list string) (f : MPC -> MPC) :
  stops_as msgs (modify f).
Proof. intros self self' msg E. inversion E. Qed.

Lemma stops_as_or_raise {A} (msgs : list string) (o : option A) :
  stops_as msgs (or_raise o).
Proof.
  intros self self' msg E. apply or_raise_inv in E.
  destruct E as [_ [(a & _ & Em) | [_ Em]]]; discriminate Em.
Qed.

Lemma stops_as_getData (msgs : list string) traj current_steer
    (current_kinematics : Odometry D Pose) :
  stops_as msgs (getData traj current_steer current_kinematics).
Proof. intros self self' msg E. unfold getData in E. never_false E. Qed.

Lemma stops_as_getInitialState (msgs : list string) (data : MPCData D Pose) :
  stops_as msgs (getInitialState data).
Proof.
  intros self self' msg E. unfold getInitialState in E. never_false E.
Qed.

Lemma stops_as_updateStateForDelayCompensation (msgs : list string) traj
    start_time x0_orig :
  stops_as msgs (updateStateForDelayCompensation traj start_time x0_orig).
Proof.
  intros self self' msg E. unfold updateStateForDelayCompensation in E.
  never_false E.
Qed.

Lemma stops_as_generateMPCMatrix (msgs : list string) reference_trajectory
    prediction_dt :
  stops_as msgs (generateMPCMatrix reference_trajectory prediction_dt).
Proof.
  intros self self' msg E. unfold generateMPCMatrix in E. never_false E.
Qed.

Lemma stops_as_executeOptimization (msgs : list string) m x0 prediction_dt
    traj current_velocity :
  stops_as msgs
    (executeOptimization m x0 prediction_dt traj current_velocity).
Proof.
  intros self self' msg E. unfold executeOptimization in E.
  destruct (qp_problem m x0 prediction_dt traj current_velocity)
    as [[[[[[H ft] A] lb] ub] lbA] ubA].
  never_false E.
Qed.

Lemma stops_as_lpf_steering_cmd_filter (msgs : list string) (u : D) :
  stops_as msgs (lpf_steering_cmd_filter u).
Proof.
  intros self self' msg E. unfold lpf_steering_cmd_filter in E.
  never_false E.
Qed.

End Properties.

(** * Properties of the remaining functions *)

Section RemainingProperties.
Context {D : Type} {SD : Scalar D} {SL : ScalarLe D} {TR : Trigonometry D}.
Context {Pose TrajectoryPoint : Type}.
Context {Lpf Predictor Solver : Type}.
Context {VMI : VehicleModelInterface D}.
Context {QPS : QPSolverInterface D Solver}.
Context {QPR : QPSolverReport D Solver}.
Context {TU : TrajectoryUtils D Pose TrajectoryPoint}.

Local Open Scope double_scope.

Local Abbreviation MPC := (@MPC D Lpf Predictor Solver).

(** ** The steering rate limits *)

Lemma back_nth (l : list D) :
  back l = nth (List.length l - 1) l (of_Q 0).
Proof.
  unfold back. induction l as [ | a l IH]; [reflexivity | ].
  destruct l as [ | b l]; [reflexivity | ].
  cbn [last List.length] in *. rewrite IH.
  replace (S (S (List.length l)) - 1)%nat with (S (List.length l - 0))
    by lia.
  cbn [nth]. rewrite Nat.sub_0_r.
  replace (S (List.length l) - 1)%nat with (List.length l) by lia.
  reflexivity.
Qed.

Lemma interp_loop_finds `{!ScalarLeTotal D} (reference limits : list D)
    (current : D) (n i : nat) :
  dle (nth i reference (of_Q 0)) current = true ->
  dle (nth (i + n) reference (of_Q 0)) current = false ->
  exists v, interp_loop reference limits current i n = Some v.
Proof.
  revert i. induction n as [ | n IH]; intros i Hlo Hhi.
  - rewrite Nat.add_0_r in Hhi. congruence.
  - cbn [interp_loop]. rewrite Hlo. cbn [andb].
    destruct (dle current (nth (i + 1) reference (of_Q 0))) eqn:E.
    + eauto.
    + apply IH.
      * apply dle_total. exact E.
      * replace (i + 1 + n)%nat with (i + S n)%nat by lia. exact Hhi.
Qed.

(** X19. When [<=] compares any two values (no NaN is involved), the lambda
    [interp] never ends in its last branch, which reports "interpolation
    logic is broken" and returns a key of the table in place of a limit: on a
    table with at least one entry it returns the first limit, the last limit
    or a value interpolated between two neighbouring limits; on a table of
    one entry it returns that entry's limit for every input. *)
Theorem interp_logic_is_not_broken `{!ScalarLeTotal D}
    (steer_rate_limit_map : list (D * D)) (current : D) :
  steer_rate_limit_map <> [] ->
  snd (interp steer_rate_limit_map current) = false /\
  (forall key limit, steer_rate_limit_map = [(key, limit)] ->
                     fst (interp steer_rate_limit_map current) = limit).
Proof.
  intros Hne. unfold interp. cbv zeta.
  set (reference := map fst steer_rate_limit_map).
  set (limits := map snd steer_rate_limit_map).
  split.
  - destruct (dle current (hd (of_Q 0) reference)) eqn:E1; [reflexivity | ].
    destruct (dle (back reference) current) eqn:E2; [reflexivity | ].
    destruct (@interp_loop_finds _ reference limits current
                (List.length reference - 1) 0) as [v Ev].
    + apply dle_total. destruct reference; exact E1.
    + cbn [Nat.add]. rewrite <- back_nth. exact E2.
    + rewrite Ev. reflexivity.
  - intros key limit ->. subst reference limits. cbn.
    destruct (dle current key) eqn:E1; [reflexivity | ].
    apply dle_total in E1. rewrite E1. reflexivity.
Qed.

Lemma steer_rate_limit_loop_spec
    (map_by_curvature map_by_velocity : list (D * D))
    (trajectory : MPCTrajectory D) (n : nat) (v0 : Matrix D) :
  let entry i :=
    std_min (fst (interp map_by_curvature (nth i (k trajectory) (of_Q 0))))
            (fst (interp map_by_velocity (nth i (vx trajectory) (of_Q 0)))) in
  if ((n <=? List.length (k trajectory))
      && (n <=? List.length (vx trajectory)))%nat
  then exists v,
      steer_rate_limit_loop map_by_curvature map_by_velocity trajectory
        (seq 0 n) v0 = Some v /\
      rows v = rows v0 /\ cols v = cols v0 /\
      (forall i, (i < n)%nat -> coeff v i 0 = entry i) /\
      (forall i j, (n <= i \/ j <> 0)%nat -> coeff v i j = coeff v0 i j)
  else steer_rate_limit_loop map_by_curvature map_by_velocity trajectory
         (seq 0 n) v0 = None.
Proof.
  cbv zeta.
  assert (App : forall l1 l2 w,
    steer_rate_limit_loop map_by_curvature map_by_velocity trajectory
      (l1 ++ l2) w
    = match steer_rate_limit_loop map_by_curvature map_by_velocity
              trajectory l1 w with
      | Some w1 =>
          steer_rate_limit_loop map_by_curvature map_by_velocity trajectory
            l2 w1
      | None => None
      end).
  { induction l1 as [ | i l1 IH]; intros l2 w; cbn [app steer_rate_limit_loop].
    - reflexivity.
    - destruct (at_ (k trajectory) i); [ | reflexivity].
      destruct (at_ (vx trajectory) i); [ | reflexivity]. apply IH. }
  induction n as [ | n IH].
  - cbn. exists v0. repeat split; try reflexivity. intros i Hi; lia.
  - rewrite seq_S, App. cbn [Nat.add].
    destruct ((n <=? List.length (k trajectory))
              && (n <=? List.length (vx trajectory)))%nat eqn:Cn.
    + destruct IH as (v & Ev & Hr & Hc & Hin & Hout). rewrite Ev.
      cbn [steer_rate_limit_loop]. unfold at_.
      apply andb_true_iff in Cn. destruct Cn as [Ck Cv].
      apply Nat.leb_le in Ck, Cv.
      destruct (nth_error (k trajectory) n) as [k_n | ] eqn:Ek.
      * destruct (nth_error (vx trajectory) n) as [vx_n | ] eqn:Ev'.
        -- assert (Lk : (n < List.length (k trajectory))%nat)
             by (apply nth_error_Some; congruence).
           assert (Lv : (n < List.length (vx trajectory))%nat)
             by (apply nth_error_Some; congruence).
           replace ((S n <=? List.length (k trajectory))
                    && (S n <=? List.length (vx trajectory)))%nat with true
             by (symmetry; apply andb_true_iff; split; apply Nat.leb_le; lia).
           eexists. split; [reflexivity | ].
           cbn [set_coeff rows cols coeff].
           split; [exact Hr | ]. split; [exact Hc | ]. split.
           ++ intros i Hi. destruct (Nat.eqb_spec i n) as [-> | Hne].
              ** cbn [andb Nat.eqb].
                 rewrite (nth_error_nth _ _ _ Ek), (nth_error_nth _ _ _ Ev').
                 reflexivity.
              ** cbn [andb]. apply Hin. lia.
           ++ intros i j Hij. destruct (Nat.eqb_spec i n) as [-> | Hne].
              ** destruct (Nat.eqb_spec j 0); cbn [andb]; [lia | ].
                 apply Hout. lia.
              ** cbn [andb]. apply Hout. lia.
        -- apply nth_error_None in Ev'.
           replace ((S n <=? List.length (k trajectory))
                    && (S n <=? List.length (vx trajectory)))%nat with false
             by (symmetry; apply andb_false_iff; right; apply Nat.leb_gt; lia).
           reflexivity.
      * apply nth_error_None in Ek.
        replace ((S n <=? List.length (k trajectory))
                 && (S n <=? List.length (vx trajectory)))%nat with false
          by (symmetry; apply andb_false_iff; left; apply Nat.leb_gt; lia).
        reflexivity.
    + rewrite IH.
      replace ((S n <=? List.length (k trajectory))
               && (S n <=? List.length (vx trajectory)))%nat with false;
        [reflexivity | ].
      symmetry. apply andb_false_iff in Cn. apply andb_false_iff.
      destruct Cn as [C | C]; apply Nat.leb_gt in C;
        [left | right]; apply Nat.leb_gt; lia.
Qed.


(** ** The diagnostic *)

(** X21. [generateDiagData] throws when [nearest_idx] is not an index of
    [k], [smooth_k] and [vx] of the trajectory; otherwise it returns exactly
    23 values, with the commanded steering angle at position 0, the raw first
    solver output at position 1, that output clamped to the steering limit
    at position 21 and the lateral error to the raw trajectory at
    position 22, each cast to float. *)
Theorem generateDiagData_layout (self : MPC)
    (reference_trajectory : MPCTrajectory D)
    (mpc_data_traj_raw mpc_data : MPCData D Pose) (mpc_matrix : MPCMatrix D)
    (ctrl_cmd : AckermannLateralCommand D) (Uex : Matrix D)
    (current_kinematics : Odometry D Pose) :
  let result :=
    generateDiagData self reference_trajectory mpc_data_traj_raw mpc_data
      mpc_matrix ctrl_cmd Uex current_kinematics in
  if ((nearest_idx mpc_data <? List.length (k reference_trajectory))
      && (nearest_idx mpc_data <? List.length (smooth_k reference_trajectory))
      && (nearest_idx mpc_data <? List.length (vx reference_trajectory)))%nat
  then exists data,
      result = Some data /\ List.length data = 23%nat /\
      nth 0 data (of_Q 0) = to_float (steering_tire_angle ctrl_cmd) /\
      nth 1 data (of_Q 0) = to_float (coeff Uex 0 0) /\
      nth 21 data (of_Q 0)
      = to_float (std_clamp (coeff Uex 0 0) (- m_steer_lim self)
                    (m_steer_lim self)) /\
      nth 22 data (of_Q 0) = to_float (lateral_err mpc_data_traj_raw)
  else result = None.
Proof.
  cbv zeta. unfold generateDiagData, at_.
  destruct (nth_error (k reference_trajectory) (nearest_idx mpc_data))
    as [nearest_k | ] eqn:Ek.
  - assert (Lk : (nearest_idx mpc_data
                  < List.length (k reference_trajectory))%nat)
      by (apply nth_error_Some; congruence).
    apply Nat.ltb_lt in Lk. rewrite Lk. cbn [andb].
    destruct (nth_error (smooth_k reference_trajectory)
                (nearest_idx mpc_data)) as [nearest_smooth_k | ] eqn:Es.
    + assert (Ls : (nearest_idx mpc_data
                    < List.length (smooth_k reference_trajectory))%nat)
        by (apply nth_error_Some; congruence).
      apply Nat.ltb_lt in Ls. rewrite Ls. cbn [andb].
      destruct (nth_error (vx reference_trajectory) (nearest_idx mpc_data))
        as [nearest_vx | ] eqn:Ev.
      * assert (Lv : (nearest_idx mpc_data
                      < List.length (vx reference_trajectory))%nat)
          by (apply nth_error_Some; congruence).
        apply Nat.ltb_lt in Lv. rewrite Lv.
        eexists. split; [reflexivity | ]. cbn. repeat split.
      * apply nth_error_None in Ev. apply Nat.ltb_ge in Ev. rewrite Ev.
        reflexivity.
    + apply nth_error_None in Es. apply Nat.ltb_ge in Es. rewrite Es.
      reflexivity.
  - apply nth_error_None in Ek. apply Nat.ltb_ge in Ek. rewrite Ek.
    reflexivity.
Qed.


(** ** setReferenceTrajectory *)

Context {TrajectoryMsg : Type}.
Context {TF : TrajectoryFiltering D Pose TrajectoryPoint TrajectoryMsg}.

(** X22. [setReferenceTrajectory] writes [mpc_traj_raw], [m_is_forward_shift]
    and [m_reference_trajectory] and nothing else: the history of commands,
    the filters, the models and the settings are as before. [mpc_traj_raw] is
    the converted message in every case. A warning is given exactly when the
    resampling by distance fails, and then the reference trajectory and the
    driving direction are the previous ones, although [mpc_traj_raw] is
    already the new one. *)
Theorem setReferenceTrajectory_writes (trajectory_msg : TrajectoryMsg)
    (param : TrajectoryFilteringParam D)
    (current_kinematics : Odometry D Pose) (self : MPC) :
  let self' :=
    fst (setReferenceTrajectory trajectory_msg param current_kinematics self)
  in
  let warning :=
    snd (setReferenceTrajectory trajectory_msg param current_kinematics self)
  in
  let nearest_seg_idx :=
    findFirstNearestSegmentIndexWithSoftConstraints
      (msg_points trajectory_msg) (pose current_kinematics)
      (ego_nearest_dist_threshold self) (ego_nearest_yaw_threshold self) in
  let resampled :=
    resampleMPCTrajectoryByDistance (convertToMPCTrajectory trajectory_msg)
      (traj_resample_dist param) nearest_seg_idx
      (calcLongitudinalOffsetToSegment (msg_points trajectory_msg)
         nearest_seg_idx (pose current_kinematics)) in
  memory self' = memory self /\
  settings self' = settings self /\
  mpc_traj_raw self' = convertToMPCTrajectory trajectory_msg /\
  match resampled with
  | None =>
      warning <> None /\
      m_reference_trajectory self' = m_reference_trajectory self /\
      m_is_forward_shift self' = m_is_forward_shift self
  | Some mpc_traj_resampled =>
      warning = None /\
      m_is_forward_shift self'
      = match isDrivingForward (toTrajectoryPoints mpc_traj_resampled) with
        | Some value => value
        | None => m_is_forward_shift self
        end
  end.
Proof.
  cbv zeta. unfold setReferenceTrajectory. cbv zeta.
  cbn [mpc_traj_raw set_mpc_traj_raw ego_nearest_dist_threshold
       ego_nearest_yaw_threshold].
  destruct (resampleMPCTrajectoryByDistance _ _ _ _) as [r | ].
  - destruct (size _ =? 0)%nat; cbn; repeat split; reflexivity.
  - cbn. repeat split; try reflexivity. discriminate.
Qed.

Lemma smooth_and_terminate_tail (raw : MPCTrajectory D)
    (param : TrajectoryFilteringParam D) (forward : bool)
    (mpc_traj_resampled : MPCTrajectory D) :
  exists s,
    let t := smooth_and_terminate raw param forward mpc_traj_resampled in
    x t = x s ++ [back (x s)] /\
    y t = y s ++ [back (y s)] /\
    z t = z s ++ [back (z s)] /\
    yaw t = yaw s ++ [back (yaw s)] /\
    k t = k s ++ [back (k s)] /\
    smooth_k t = smooth_k s ++ [back (smooth_k s)] /\
    vx t = assign_back (vx s) (of_Q 0) ++ [of_Q 0] /\
    relative_time t
    = relative_time s ++ [back (relative_time s) + of_Q 100].
Proof.
  unfold smooth_and_terminate. cbv zeta.
  match goal with
  | |- context [calcTrajectoryCurvature ?a ?b ?c] =>
      exists (calcTrajectoryCurvature a b c)
  end.
  cbn. repeat split; reflexivity.
Qed.

Lemma assign_back_two (v : list D) (a : D) :
  v <> [] -> exists init, assign_back v a ++ [a] = init ++ [a; a].
Proof.
  intros Hne. destruct v as [ | b v]; [congruence | ].
  exists (removelast (b :: v)). unfold assign_back.
  rewrite <- app_assoc. reflexivity.
Qed.

(** X23. Whatever the message and the filters, a reference trajectory that
    [setReferenceTrajectory] stores has a size other than zero and ends with
    the stop point: the last point repeats position, yaw and curvature of
    the point before it, its time is 100 s later, its velocity is zero, and
    the velocity of the point before it (if there is one) is zero too. *)
Theorem setReferenceTrajectory_stop_point (trajectory_msg : TrajectoryMsg)
    (param : TrajectoryFilteringParam D)
    (current_kinematics : Odometry D Pose) (self : MPC) :
  let t :=
    m_reference_trajectory
      (fst (setReferenceTrajectory trajectory_msg param current_kinematics
              self)) in
  t = m_reference_trajectory self \/
  (size t <> 0%nat /\
   exists s,
     x t = x s ++ [back (x s)] /\
     y t = y s ++ [back (y s)] /\
     yaw t = yaw s ++ [back (yaw s)] /\
     k t = k s ++ [back (k s)] /\
     smooth_k t = smooth_k s ++ [back (smooth_k s)] /\
     relative_time t
     = relative_time s ++ [back (relative_time s) + of_Q 100] /\
     back (vx t) = of_Q 0 /\
     List.length (vx t) = S (List.length (vx s)) /\
     (vx s = [] \/ exists init, vx t = init ++ [of_Q 0; of_Q 0])).
Proof.
  cbv zeta. unfold setReferenceTrajectory. cbv zeta.
  destruct (resampleMPCTrajectoryByDistance _ _ _ _) as [r | ];
    [ | left; reflexivity].
  destruct (size _ =? 0)%nat eqn:Z; [left; reflexivity | right].
  cbn [fst m_reference_trajectory set_m_reference_trajectory].
  split; [apply Nat.eqb_neq; exact Z | ].
  destruct (smooth_and_terminate_tail
              (mpc_traj_raw
                 (set_m_is_forward_shift
                    (set_mpc_traj_raw self
                       (convertToMPCTrajectory trajectory_msg))
                    match isDrivingForward (toTrajectoryPoints r) with
                    | Some value => value
                    | None =>
                        m_is_forward_shift
                          (set_mpc_traj_raw self
                             (convertToMPCTrajectory trajectory_msg))
                    end))
              param
              (m_is_forward_shift
                 (set_m_is_forward_shift
                    (set_mpc_traj_raw self
                       (convertToMPCTrajectory trajectory_msg))
                    match isDrivingForward (toTrajectoryPoints r) with
                    | Some value => value
                    | None =>
                        m_is_forward_shift
                          (set_mpc_traj_raw self
                             (convertToMPCTrajectory trajectory_msg))
                    end))
              r)
    as [s T].
  cbv zeta in T.
  destruct T as (Tx & Ty & _ & Tyaw & Tk & Tsk & Tvx & Trt).
  exists s. repeat (split; [assumption | ]).
  rewrite Tvx. split; [apply back_app | ].
  split.
  - rewrite length_app, Nat.add_1_r. f_equal.
    unfold assign_back. destruct (vx s) as [ | b v]; [reflexivity | ].
    rewrite length_app, Nat.add_1_r.
    pose proof (@app_removelast_last D (b :: v) b ltac:(discriminate)) as E.
    apply (f_equal (@List.length D)) in E.
    rewrite length_app, Nat.add_1_r in E. symmetry. exact E.
  - destruct (vx s) as [ | b v] eqn:V; [left; reflexivity | right].
    apply assign_back_two. discriminate.
Qed.


(** ** isValid *)

Context {SI : ScalarInf D}.

Lemma any_isinf_false_iff (M : Matrix D) :
  any_isinf M = false <->
  forall i j, (i < rows M)%nat -> (j < cols M)%nat ->
              disinf (coeff M i j) = false.
Proof.
  unfold any_isinf. split.
  - intros E i j Hi Hj.
    destruct (disinf (coeff M i j)) eqn:N; [ | reflexivity].
    rewrite <- E. symmetry. apply existsb_exists.
    exists i. split; [apply in_seq; lia | ].
    apply existsb_exists. exists j. split; [apply in_seq; lia | exact N].
  - intros H.
    destruct (existsb _ (seq 0 (rows M))) eqn:E; [ | reflexivity].
    apply existsb_exists in E. destruct E as (i & Hi & E).
    apply existsb_exists in E. destruct E as (j & Hj & E).
    apply in_seq in Hi, Hj. rewrite H in E by lia. discriminate E.
Qed.

Lemma finite_iff (M : Matrix D) :
  finite M <-> any_isnan M = false /\ any_isinf M = false.
Proof.
  rewrite any_isnan_false_iff, any_isinf_false_iff. unfold finite. split.
  - intros F. split; intros i j Hi Hj; apply (F i j Hi Hj).
  - intros [N I] i j Hi Hj. split; [apply N | apply I]; assumption.
Qed.

(** X24. [isValid] accepts the prediction matrices exactly when every
    coefficient of each of the eight matrices is neither NaN nor infinite. *)
Theorem isValid_iff_finite (m : MPCMatrix D) :
  isValid m = true <->
  finite (Aex m) /\ finite (Bex m) /\ finite (Cex m) /\ finite (Wex m) /\
  finite (Qex m) /\ finite (R1ex m) /\ finite (R2ex m) /\
  finite (Uref_ex m).
Proof.
  rewrite !finite_iff. unfold isValid.
  destruct (any_isnan (Aex m)), (any_isnan (Bex m)), (any_isnan (Cex m)),
    (any_isnan (Wex m)), (any_isnan (Qex m)), (any_isnan (R1ex m)),
    (any_isnan (R2ex m)), (any_isnan (Uref_ex m));
    cbn [orb];
    try (split; [discriminate | intros H; decompose [and] H; discriminate]).
  destruct (any_isinf (Aex m)), (any_isinf (Bex m)), (any_isinf (Cex m)),
    (any_isinf (Wex m)), (any_isinf (Qex m)), (any_isinf (R1ex m)),
    (any_isinf (R2ex m)), (any_isinf (Uref_ex m));
    cbn [orb];
    try (split; [discriminate | intros H; decompose [and] H; discriminate]).
  split; [intros _; repeat split; reflexivity | reflexivity].
Qed.

End RemainingProperties.

(** * Properties of conversion.hpp *)

Section ConversionProperties.
Import Conversion.
Context {Header Bound Pose Float LaneIds PathPointRest TrajectoryPointRest
           : Type}.

Local Abbreviation PathPoint := (@PathPoint Pose Float PathPointRest).
Local Abbreviation PathPointWithLaneId :=
  (@PathPointWithLaneId Pose Float LaneIds PathPointRest).
Local Abbreviation TrajectoryPoint :=
  (@TrajectoryPoint Pose Float TrajectoryPointRest).
Local Abbreviation PathWithLaneId :=
  (@PathWithLaneId Header Bound Pose Float LaneIds PathPointRest).

Context (default_header : Header) (default_bound : Bound)
        (default_path_point : PathPoint) (default_lane_ids : LaneIds)
        (default_trajectory_point : TrajectoryPoint) (zero : Float).

Lemma assign_at_app {A} (done : list A) (b a : A) (todo : list A) (i : nat) :
  i = List.length done ->
  assign_at (done ++ b :: todo) i a = Some (done ++ a :: todo).
Proof.
  intros ->. induction done as [ | d done IH]; cbn.
  - reflexivity.
  - rewrite IH. reflexivity.
Qed.

Lemma convertToPath_loop_spec (d : PathPoint)
    (before rest : list PathPointWithLaneId) :
  convertToPath_loop (before ++ rest) (List.length before) (List.length rest)
    (map point before ++ repeat d (List.length rest))
  = Some (map point (before ++ rest)).
Proof.
  revert before. induction rest as [ | p rest IH]; intros before.
  - cbn. rewrite !app_nil_r. reflexivity.
  - cbn [List.length convertToPath_loop repeat].
    rewrite nth_error_app2 by lia. rewrite Nat.sub_diag. cbn [nth_error].
    rewrite (assign_at_app (map point before) d (point p)
               (repeat d (List.length rest)) (List.length before))
      by (symmetry; apply length_map).
    specialize (IH (before ++ [p])).
    rewrite length_app, Nat.add_1_r, map_app, <- !app_assoc in IH.
    cbn [map app] in IH. exact IH.
Qed.

(** X25. [convertToPath] never throws: it returns the path with the header
    and the bounds of its input and, in the same order, the points of the
    input without their lane ids. *)
Theorem convertToPath_is_map (input : PathWithLaneId) :
  convertToPath default_path_point input
  = Some (mkPath (lane_header input) (map point (lane_points input))
            (lane_left_bound input) (lane_right_bound input)).
Proof.
  unfold convertToPath. cbv zeta.
  pose proof (convertToPath_loop_spec default_path_point
                [] (lane_points input)) as L.
  cbn [app map List.length] in L. rewrite L. reflexivity.
Qed.

Lemma fold_left_snoc_map {A B} (f : A -> B) (l : list A) (acc : list B) :
  fold_left (fun tps p => tps ++ [f p]) l acc = acc ++ map f l.
Proof.
  revert acc. induction l as [ | a l IH]; intros acc; cbn.
  - rewrite app_nil_r. reflexivity.
  - rewrite IH, <- app_assoc. reflexivity.
Qed.

Lemma convertToTrajectoryPoints_map (path : PathWithLaneId) :
  convertToTrajectoryPoints default_trajectory_point zero path
  = map (fun p =>
           mkTrajectoryPoint (pose (point p))
             (longitudinal_velocity_mps (point p)) zero
             (trajectory_point_rest default_trajectory_point))
        (lane_points path).
Proof.
  unfold convertToTrajectoryPoints.
  rewrite (fold_left_snoc_map
             (fun p : PathPointWithLaneId =>
                mkTrajectoryPoint (pose (point p))
                  (longitudinal_velocity_mps (point p)) zero
                  (trajectory_point_rest default_trajectory_point))).
  reflexivity.
Qed.

Lemma convertTrajectoryPointsToPath_points (trajectory : list TrajectoryPoint) :
  convertTrajectoryPointsToPath default_header default_bound
    default_path_point default_lane_ids trajectory
  = mkPathWithLaneId default_header
      (map (fun p : TrajectoryPoint =>
              mkPathPointWithLaneId
                (mkPathPoint (tp_pose p) (tp_longitudinal_velocity_mps p)
                   (path_point_rest default_path_point))
                default_lane_ids)
           trajectory)
      default_bound default_bound.
Proof.
  unfold convertTrajectoryPointsToPath. cbv zeta.
  assert (G : forall l h pts lb rb,
    fold_left
      (fun (path : PathWithLaneId) (p : TrajectoryPoint) =>
         mkPathWithLaneId (lane_header path)
           (lane_points path
            ++ [mkPathPointWithLaneId
                  (mkPathPoint (tp_pose p) (tp_longitudinal_velocity_mps p)
                     (path_point_rest default_path_point))
                  default_lane_ids])
           (lane_left_bound path) (lane_right_bound path))
      l (mkPathWithLaneId h pts lb rb)
    = mkPathWithLaneId h
        (pts ++ map (fun p : TrajectoryPoint =>
                       mkPathPointWithLaneId
                         (mkPathPoint (tp_pose p)
                            (tp_longitudinal_velocity_mps p)
                            (path_point_rest default_path_point))
                         default_lane_ids) l)
        lb rb).
  { induction l as [ | a l IH]; intros h pts lb rb; cbn.
    - rewrite app_nil_r. reflexivity.
    - rewrite IH, <- app_assoc. reflexivity. }
  apply (G trajectory default_header [] default_bound default_bound).
Qed.

(** X26. Converting trajectory points to a path and back keeps the number
    and the order of the points and, of each point, its pose and its
    longitudinal velocity; the acceleration comes back as zero and every
    other field as default-constructed. A second round trip changes nothing
    more. *)
Theorem trajectory_points_round_trip (trajectory : list TrajectoryPoint) :
  let to_path :=
    convertTrajectoryPointsToPath default_header default_bound
      default_path_point default_lane_ids in
  let to_points := convertToTrajectoryPoints default_trajectory_point zero in
  to_points (to_path trajectory)
  = map (bare default_trajectory_point zero) trajectory /\
  to_points (to_path (to_points (to_path trajectory)))
  = to_points (to_path trajectory).
Proof.
  cbv zeta.
  assert (R : forall t,
    convertToTrajectoryPoints default_trajectory_point zero
      (convertTrajectoryPointsToPath default_header default_bound
         default_path_point default_lane_ids t)
    = map (bare default_trajectory_point zero) t).
  { intros t. rewrite convertTrajectoryPointsToPath_points,
      convertToTrajectoryPoints_map. cbn [lane_points].
    rewrite map_map. reflexivity. }
  split; [apply R | ].
  rewrite !R, map_map. apply map_ext. intros p. reflexivity.
Qed.

(** X27. Converting a path with lane ids to trajectory points and back keeps
    the number and the order of the points and, of each point, its pose and
    its longitudinal velocity; the lane ids, the other fields of the points,
    the header and the bounds come back as default-constructed. *)
Theorem path_round_trip (path : PathWithLaneId) :
  convertTrajectoryPointsToPath default_header default_bound
    default_path_point default_lane_ids
    (convertToTrajectoryPoints default_trajectory_point zero path)
  = mkPathWithLaneId default_header
      (map (bare_path_point default_path_point default_lane_ids)
           (lane_points path))
      default_bound default_bound.
Proof.
  rewrite convertTrajectoryPointsToPath_points,
    convertToTrajectoryPoints_map, map_map.
  reflexivity.
Qed.

End ConversionProperties.

(** * The rational instance *)

Lemma Qltb_irrefl (x : Q) : Qltb x x = false.
Proof.
  unfold Qltb. apply negb_false_iff. apply Qle_bool_iff. apply Qle_refl.
Qed.

#[export] Instance QScalarOrder : ScalarOrder Q.
Proof. constructor. exact Qltb_irrefl. Qed.

(** Over the rationals [within] is the closed interval. *)
Lemma within_Q (lo hi q : Q) : within lo hi q <-> (lo <= q /\ q <= hi)%Q.
Proof.
  unfold within. cbn [dlt QScalar]. unfold Qltb.
  rewrite !negb_false_iff, !Qle_bool_iff. reflexivity.
Qed.

#[export] Instance QScalarLeTotal : ScalarLeTotal Q.
Proof.
  constructor. intros x y E. cbn [dle QScalarLe] in *.
  apply Qle_bool_iff.
  destruct (Qlt_le_dec y x) as [L | L].
  - apply Qlt_le_weak. exact L.
  - apply Qle_bool_iff in L. congruence.
Qed.

(** * The properties on the straight-line scenario *)

Import StraightLine.



Lemma saturated_input_within_steer_lim_witness :
  exists Uex u_filtered,
    let u_saturated :=
      std_clamp (coeff Uex 0 0) (- m_steer_lim initial)%D
        (m_steer_lim initial) in
    solver_output initial
      (m_qpsolver (fst (calculateMPC steer_report on_path initial))) Uex /\
    m_raw_steer_cmd_prev (fst (calculateMPC steer_report on_path initial))
    = coeff Uex 0 0 /\
    within (- m_steer_lim initial)%D (m_steer_lim initial) u_saturated /\
    filter (m_lpf_steering_cmd initial) u_saturated
    = (m_lpf_steering_cmd (fst (calculateMPC steer_report on_path initial)),
       u_filtered) /\
    steering_tire_angle
      (issued (snd (calculateMPC steer_report on_path initial)))
    = to_float u_filtered.
Proof.
  apply (saturated_input_within_steer_lim steer_report on_path initial
           (fst (calculateMPC steer_report on_path initial))
           (issued (snd (calculateMPC steer_report on_path initial))) tt
           (diagnosed (snd (calculateMPC steer_report on_path initial)))).
  - vm_compute. reflexivity.
  - vm_compute. reflexivity.
Defined.

Lemma input_buffer_length_invariant_witness :
  List.length
    (m_input_buffer (fst (run_cycles [tick; (steer_report, off_path); tick]
                            initial)))
  = List.length (m_input_buffer initial) /\
  m_input_buffer (fst (calculateMPC steer_report on_path initial))
  = pop_front
      (push_back (m_input_buffer initial)
         (steering_tire_angle
            (issued (snd (calculateMPC steer_report on_path initial))))).
Proof.
  split.
  - apply (proj1 input_buffer_length_invariant).
  - apply (proj2 input_buffer_length_invariant steer_report on_path initial
             (fst (calculateMPC steer_report on_path initial)) _ tt
             (diagnosed (snd (calculateMPC steer_report on_path initial)))).
    vm_compute. reflexivity.
Defined.

Lemma getData_fails_iff_witness :
  snd (getData reference steer_report off_path initial) = Ok None /\
  snd (calculateMPC steer_report off_path initial)
  = Fail "fail to get MPC Data. Stop MPC.".
Proof.
  assert (E : snd (getData reference steer_report off_path initial) = Ok None).
  { apply (proj2 (proj1 (getData_fails_iff reference steer_report off_path
                           initial))).
    vm_compute. left. reflexivity. }
  split.
  - exact E.
  - apply (proj2 (getData_fails_iff reference steer_report off_path initial)).
    exact E.
Defined.

Lemma prediction_dt_is_max_with_floor_witness :
  getPredictionDeltaTime initial 0%Q reference on_path
  = std_max
      ((target_time_spec initial reference on_path - 0%Q) /
       of_Z (prediction_horizon (m_param initial) - 1))%D
      (prediction_dt (m_param initial)) /\
  (getPredictionDeltaTime initial 0%Q reference on_path
   <? prediction_dt (m_param initial))%D = false.
Proof.
  exact (prediction_dt_is_max_with_floor initial 0%Q reference on_path).
Defined.

Lemma stacked_matrices_recursion_witness :
  match generateMPCMatrix resampled 1%Q initial with
  | (_, Ok m) =>
      exists Ad Bd Cd Wd,
        discrete_matrix_at initial resampled 1%Q 2 = Some (Ad, Bd, Cd, Wd) /\
        recursion_at m 2 Ad Bd Wd
  | _ => False
  end.
Proof.
  destruct (generateMPCMatrix resampled 1%Q initial) as [self' [m | msg | ]]
    eqn:E.
  - apply (stacked_matrices_recursion resampled 1%Q initial self' m E).
    vm_compute. lia.
  - assert (B : succeeded (snd (generateMPCMatrix resampled 1%Q initial))
                = true) by (vm_compute; reflexivity).
    rewrite E in B. discriminate B.
  - assert (B : succeeded (snd (generateMPCMatrix resampled 1%Q initial))
                = true) by (vm_compute; reflexivity).
    rewrite E in B. discriminate B.
Defined.

Lemma feed_forward_dead_band_witness :
  match generateMPCMatrix resampled 1%Q initial with
  | (_, Ok m) => coeff (Uref_ex m) (2 * getDimU) 0 = of_Q 0
  | _ => False
  end.
Proof.
  destruct (generateMPCMatrix resampled 1%Q initial) as [self' [m | msg | ]]
    eqn:E.
  - apply (feed_forward_dead_band resampled 1%Q initial self' m 2 E).
    exists 1%Q, 0%Q. vm_compute. repeat split; reflexivity.
  - assert (B : succeeded (snd (generateMPCMatrix resampled 1%Q initial))
                = true) by (vm_compute; reflexivity).
    rewrite E in B. discriminate B.
  - assert (B : succeeded (snd (generateMPCMatrix resampled 1%Q initial))
                = true) by (vm_compute; reflexivity).
    rewrite E in B. discriminate B.
Defined.

Lemma delay_compensation_empty_buffer_witness :
  snd (updateStateForDelayCompensation reference 0%Q (Zero 2 1)
         (set_m_input_buffer initial []))
  = Ok (Some (Zero 2 1)).
Proof.
  apply delay_compensation_empty_buffer. reflexivity.
Defined.

(** C3, as the claim states it, fails: on the straight path, with the filter
    at rest and the solver answering one radian in every cycle, the first two
    cycles succeed and the third issues a steering angle of 455/578 rad,
    above the limit of 0.7 rad. *)
Lemma filtered_command_exceeds_steer_lim :
  exists self' ctrl_cmd diagnostic,
    calculateMPC steer_report on_path after_two_cycles
    = (self', Ok (ctrl_cmd, tt, diagnostic)) /\
    m_steer_lim after_two_cycles = 0.7%Q /\
    steering_tire_angle ctrl_cmd = (455 # 578)%Q /\
    ~ within (- m_steer_lim after_two_cycles)%D (m_steer_lim after_two_cycles)
        (steering_tire_angle ctrl_cmd).
Proof.
  exists (fst (calculateMPC steer_report on_path after_two_cycles)),
         (issued (snd (calculateMPC steer_report on_path after_two_cycles))),
         (diagnosed (snd (calculateMPC steer_report on_path
                            after_two_cycles))).
  split; [vm_compute; reflexivity | ].
  split; [vm_compute; reflexivity | ].
  split; [vm_compute; reflexivity | ].
  intros [_ Above]. vm_compute in Above. discriminate Above.
Qed.

(** C1 on the code. For fifty one-dimensional steps with no dynamics and an
    input weight of two the prescribed cost matrix has 2 at its corner, and 4
    when the weight is doubled; the matrix handed to the solver is the same
    in both cases and has 2.40456 there (and the bounds are 0.7 rad whatever
    the configured limit). *)
Theorem hardcoded_qp_is_not_the_prescribed_cost :
  let doubled :=
    mkMPCMatrix (Aex flat_matrices) (Bex flat_matrices) (Wex flat_matrices)
      (Cex flat_matrices) (Qex flat_matrices)
      (mscale 2%Q (R1ex flat_matrices)) (R2ex flat_matrices)
      (Uref_ex flat_matrices) in
  let '(H, _, _, _, ub, _, _) :=
    qp_problem flat_matrices (Zero 1 1) 1%Q path 1%Q in
  let '(H', _, _, _, _, _, _) :=
    qp_problem doubled (Zero 1 1) (1 # 2)%Q reference 0%Q in
  coeff (spec_cost_H flat_matrices) 0 0 = 2%Q /\
  coeff (spec_cost_H doubled) 0 0 = 4%Q /\
  coeff H 0 0 = 2.40456%Q /\
  coeff H' 0 0 = 2.40456%Q /\
  coeff ub 0 0 = 0.7%Q.
Proof.
  vm_compute. repeat split; reflexivity.
Qed.

(** ** Further properties on the scenario *)

Lemma resampled_matrices_are_built :
  succeeded (snd (generateMPCMatrix resampled 1%Q initial)) = true.
Proof. vm_compute. reflexivity. Qed.

Lemma generateMPCMatrix_dimensions_witness :
  match generateMPCMatrix resampled 1%Q initial with
  | (_, Ok m) =>
      has_shape 6 2 (Aex m) /\ has_shape 6 3 (Bex m) /\
      has_shape 6 1 (Wex m) /\ has_shape 6 6 (Cex m) /\
      has_shape 6 6 (Qex m) /\ has_shape 3 3 (R1ex m) /\
      has_shape 3 3 (R2ex m) /\ has_shape 3 1 (Uref_ex m)
  | _ => False
  end.
Proof.
  pose proof resampled_matrices_are_built as B.
  destruct (generateMPCMatrix resampled 1%Q initial) as [self' [m | msg | ]]
    eqn:E; try discriminate B.
  exact (generateMPCMatrix_dimensions resampled 1%Q initial self' m E).
Defined.

Lemma Bex_is_causal_witness :
  match generateMPCMatrix resampled 1%Q initial with
  | (_, Ok m) => causal (Bex m)
  | _ => False
  end.
Proof.
  pose proof resampled_matrices_are_built as B.
  destruct (generateMPCMatrix resampled 1%Q initial) as [self' [m | msg | ]]
    eqn:E; try discriminate B.
  exact (Bex_is_causal resampled 1%Q initial self' m E).
Defined.

Lemma weight_matrices_symmetric_witness :
  match generateMPCMatrix resampled 1%Q initial with
  | (_, Ok m) => symmetric (Qex m) /\ symmetric (R1ex m) /\ symmetric (R2ex m)
  | _ => False
  end.
Proof.
  pose proof resampled_matrices_are_built as B.
  destruct (generateMPCMatrix resampled 1%Q initial) as [self' [m | msg | ]]
    eqn:E; try discriminate B.
  exact (weight_matrices_symmetric resampled 1%Q initial self' m E).
Defined.

Lemma weight_matrices_banded_witness :
  match generateMPCMatrix resampled 1%Q initial with
  | (_, Ok m) => banded 0 (Qex m) /\ banded 2 (R1ex m) /\ banded 1 (R2ex m)
  | _ => False
  end.
Proof.
  pose proof resampled_matrices_are_built as B.
  destruct (generateMPCMatrix resampled 1%Q initial) as [self' [m | msg | ]]
    eqn:E; try discriminate B.
  exact (weight_matrices_banded resampled 1%Q initial self' m E).
Defined.

Lemma addSteerWeightR_short_horizon_witness :
  addSteerWeightR single_step 1%Q two_identity = two_identity.
Proof.
  apply (addSteerWeightR_short_horizon single_step 1%Q two_identity).
  vm_compute. discriminate.
Defined.

Lemma successful_cycle_steps_steering_filter_witness :
  exists u_filtered,
    filter (m_lpf_steering_cmd initial)
      (std_clamp
         (m_raw_steer_cmd_prev (fst (calculateMPC steer_report on_path initial)))
         (- m_steer_lim initial)%D (m_steer_lim initial))
    = (m_lpf_steering_cmd (fst (calculateMPC steer_report on_path initial)),
       u_filtered) /\
    steering_tire_angle
      (issued (snd (calculateMPC steer_report on_path initial)))
    = to_float u_filtered /\
    m_raw_steer_cmd_pprev (fst (calculateMPC steer_report on_path initial))
    = m_raw_steer_cmd_prev initial.
Proof.
  apply (successful_cycle_steps_steering_filter steer_report on_path initial
           (fst (calculateMPC steer_report on_path initial))
           (issued (snd (calculateMPC steer_report on_path initial))) tt
           (diagnosed (snd (calculateMPC steer_report on_path initial)))).
  vm_compute. reflexivity.
Defined.


Lemma resetPrevResult_within_limit_witness :
  m_raw_steer_cmd_prev (resetPrevResult hard_left initial)
  = std_clamp (report_steering_tire_angle hard_left)
      (- to_float (m_steer_lim initial))%D (to_float (m_steer_lim initial)) /\
  m_raw_steer_cmd_pprev (resetPrevResult hard_left initial)
  = std_clamp (report_steering_tire_angle hard_left)
      (- to_float (m_steer_lim initial))%D (to_float (m_steer_lim initial)) /\
  within (- to_float (m_steer_lim initial))%D (to_float (m_steer_lim initial))
    (m_raw_steer_cmd_prev (resetPrevResult hard_left initial)) /\
  within (- to_float (m_steer_lim initial))%D (to_float (m_steer_lim initial))
    (m_raw_steer_cmd_pprev (resetPrevResult hard_left initial)) /\
  m_input_buffer (resetPrevResult hard_left initial) = m_input_buffer initial /\
  configuration (resetPrevResult hard_left initial) = configuration initial.
Proof.
  apply (resetPrevResult_within_limit hard_left initial).
  vm_compute. reflexivity.
Defined.

Lemma getInitialState_other_models_witness :
  fst (getInitialState sample_data initial) = initial.
Proof.
  apply (proj1 (getInitialState_other_models sample_data initial)).
  reflexivity.
Defined.

Lemma delay_compensation_composes_witness :
  snd (updateStateForDelayCompensation reference 0%Q (Zero 2 1) initial)
  = match snd (updateStateForDelayCompensation reference 0%Q (Zero 2 1)
                 (set_m_input_buffer initial [0%Q])) with
    | Ok (Some x1) =>
        snd (updateStateForDelayCompensation reference
               (advance 0%Q (m_ctrl_period initial) 1) x1
               (set_m_input_buffer initial [0%Q]))
    | other => other
    end.
Proof.
  apply (delay_compensation_composes reference 0%Q (Zero 2 1) initial
           [0%Q] [0%Q]).
  reflexivity.
Defined.

Lemma interp_logic_is_not_broken_witness :
  snd (interp one_entry_map 20%Q) = false /\
  (forall key limit, one_entry_map = [(key, limit)] ->
                     fst (interp one_entry_map 20%Q) = limit).
Proof.
  apply (interp_logic_is_not_broken one_entry_map 20%Q).
  discriminate.
Defined.

